(** * AgentGuard: policy evaluation, risk scoring, approval gate,
      hash-chained audit ledger and playbooks

    A shallow embedding of the decision core of the AgentGuard API
    ([apps/api/src/lib/policyEngine.ts], [lib/risk.ts], [lib/hashChain.ts],
    [services/actionService.ts], [services/playbookService.ts] and the
    forensic replay route) and of what guards and serves it
    ([lib/permissions.ts], [lib/workspace.ts], [routes/rbac.ts],
    [routes/approvals.ts] and the CSV cells of [routes/auditLogs.ts]), with
    the properties of the specification and further properties of the code
    stated and proved over it.

    Conventions of the embedding.
    - JavaScript strings are [string]; numbers that are counts, scores or
      epoch milliseconds are [Z]; the averages kept in behavioural
      baselines are [Q] (doubles, idealised as exact rationals).
    - A function that may throw returns an [outcome].
    - Database tables are lists of row records, in insertion order. The ids
      the store generates for audit events and approval requests (uuids in
      the schema) are natural numbers taken from a counter; the ids of
      workspaces, agents, policies and playbooks are strings given from
      outside.
    - What comes from the platform (SHA-256, [JSON.stringify], the clock's
      ISO format, [fetch]) is a parameter, the class [Runtime]: the
      properties hold for every platform.
    - [ActionService] describes calls served one after the other, each
      with one reading of the clock; [Interleaving] cuts a call at the
      await in front of its first write and lets calls overlap. *)

From Stdlib Require Import String Ascii List Bool ZArith QArith Qround Lia.
From Stdlib Require Import Permutation Sorted Lqa.
From Stdlib Require OrderedTypeEx DecimalString.
Import ListNotations.

Local Open Scope string_scope.
Local Open Scope list_scope.
Local Open Scope Z_scope.

Set Implicit Arguments.

(** ** Common JavaScript idioms *)

(** The result of a call that may throw: [Return v] or [Throw msg]. *)
Inductive outcome (A : Type) : Type :=
| Return (a : A)
| Throw (msg : string).

Arguments Return {A} a.
Arguments Throw {A} msg.

Definition bind {A B : Type} (m : outcome A) (k : A -> outcome B) : outcome B :=
  match m with
  | Return a => k a
  | Throw e => Throw e
  end.

Notation "x <- m ;; k" := (bind m (fun x => k))
  (at level 61, m at next level, right associativity).

(** [a ?? d] on an optional value. *)
Definition nullish {A : Type} (a : option A) (d : A) : A :=
  match a with
  | Some x => x
  | None => d
  end.

(** [xs.includes(x)], [new Set(xs).has(x)] on strings. *)
Definition includes (xs : list string) (x : string) : bool :=
  existsb (String.eqb x) xs.

(** [set.add(x)] on a [Set<string>] kept in insertion order; spreading the
    set ([[...set]]) yields that list. *)
Definition Set_add (s : list string) (x : string) : list string :=
  if includes s x then s else s ++ [x].

(** [[...new Set(xs)]]: duplicates collapsed, first occurrences kept in order. *)
Definition unique (xs : list string) : list string :=
  fold_left Set_add xs [].

(** [String.prototype.toLowerCase]: the letters A to Z are folded. Outside
    ASCII only the Kelvin sign folds to an ASCII letter, k, and no word of
    the high-risk vocabulary, the only place the result is looked up,
    contains a k. *)
Definition lower_ascii (c : ascii) : ascii :=
  let n := nat_of_ascii c in
  if (andb (Nat.leb 65 n) (Nat.leb n 90)) then ascii_of_nat (n + 32) else c.

Fixpoint toLowerCase (s : string) : string :=
  match s with
  | EmptyString => EmptyString
  | String c s' => String (lower_ascii c) (toLowerCase s')
  end.

Inductive Decision : Type := ALLOW | BLOCK.

Definition Decision_eqb (a b : Decision) : bool :=
  match a, b with
  | ALLOW, ALLOW | BLOCK, BLOCK => true
  | _, _ => false
  end.

Inductive PolicyMode : Type := STRICT | BALANCED.

(** ** lib/policyEngine.ts *)

Module PolicyEngine.

(** [PolicyRules] of the shared package. *)
Record PolicyRules : Type := {
  mode : PolicyMode;
  allow_actions : list string;
  deny_actions : list string;
  allow_tools : list string;
  deny_tools : list string;
  require_approval_actions : option (list string)
}.

(** The [unknown] argument of [normalizePolicyRules], for the object shapes
    that reach [rulesSchema]: every field may be absent. *)
Record RawRules : Type := {
  raw_mode : option PolicyMode;
  raw_allow_actions : option (list string);
  raw_deny_actions : option (list string);
  raw_allow_tools : option (list string);
  raw_deny_tools : option (list string);
  raw_require_approval_actions : option (list string)
}.

Definition empty_raw : RawRules :=
  {| raw_mode := None; raw_allow_actions := None; raw_deny_actions := None;
     raw_allow_tools := None; raw_deny_tools := None;
     raw_require_approval_actions := None |}.

(** A [PolicyRules] object handed on as [unknown]. *)
Definition as_unknown (r : PolicyRules) : RawRules :=
  {| raw_mode := Some (mode r);
     raw_allow_actions := Some (allow_actions r);
     raw_deny_actions := Some (deny_actions r);
     raw_allow_tools := Some (allow_tools r);
     raw_deny_tools := Some (deny_tools r);
     raw_require_approval_actions := require_approval_actions r |}.

Record PolicyEvaluationContext : Type := {
  tool : string;
  action : string;
  burstRate : option Z
}.

Record PolicyEvaluationResult : Type := {
  decision : Decision;
  reason : string;
  signals : list string
}.

Definition HIGH_RISK_ACTIONS : list string :=
  ["delete"; "drop"; "transfer_funds"; "write_prod"; "admin_override"; "terminate"].

(** [z.string().min(1)] *)
Definition string_min1 (s : string) : bool :=
  negb (String.eqb s "").

(** [z.array(z.string().min(1)).default([])] *)
Definition parse_string_array (field : option (list string)) : outcome (list string) :=
  match field with
  | None => Return []
  | Some xs => if forallb string_min1 xs then Return xs else Throw "ZodError"
  end.

(** [rulesSchema.parse] *)
Definition rulesSchema_parse (rules : RawRules) : outcome PolicyRules :=
  aa <- parse_string_array (raw_allow_actions rules) ;;
  da <- parse_string_array (raw_deny_actions rules) ;;
  at_ <- parse_string_array (raw_allow_tools rules) ;;
  dt <- parse_string_array (raw_deny_tools rules) ;;
  ra <- parse_string_array (raw_require_approval_actions rules) ;;
  Return {| mode := nullish (raw_mode rules) BALANCED;
            allow_actions := aa; deny_actions := da;
            allow_tools := at_; deny_tools := dt;
            require_approval_actions := Some ra |}.

Definition normalizePolicyRules (rules : option RawRules) (mode_ : option PolicyMode)
  : outcome PolicyRules :=
  parsed <- rulesSchema_parse (nullish rules empty_raw) ;;
  Return {| mode := nullish mode_ (mode parsed);
            allow_actions := allow_actions parsed;
            deny_actions := deny_actions parsed;
            allow_tools := allow_tools parsed;
            deny_tools := deny_tools parsed;
            require_approval_actions := require_approval_actions parsed |}.

(** The three signals [evaluatePolicy] detects before it decides. *)
Definition detect_signals (rules : PolicyRules) (ctx : PolicyEvaluationContext)
  : list string :=
  let signals := [] in
  let signals :=
    if includes HIGH_RISK_ACTIONS (toLowerCase (action ctx))
    then Set_add signals "high_risk_action" else signals in
  let signals :=
    if andb (0 <? Z.of_nat (length (allow_tools rules)))
            (negb (includes (allow_tools rules) (tool ctx)))
    then Set_add signals "unknown_tool" else signals in
  let signals :=
    match burstRate ctx with
    | Some b => if 5 <=? b then Set_add signals "burst_rate" else signals
    | None => signals
    end in
  signals.

Definition evaluatePolicy (inputRules : option RawRules) (ctx : PolicyEvaluationContext)
  : outcome PolicyEvaluationResult :=
  rules <- normalizePolicyRules inputRules None ;;
  let signals := detect_signals rules ctx in
  if includes (deny_actions rules) (action ctx) then
    Return {| decision := BLOCK; reason := "action_denied_by_policy"; signals := signals |}
  else if includes (deny_tools rules) (tool ctx) then
    Return {| decision := BLOCK; reason := "tool_denied_by_policy"; signals := signals |}
  else
    match mode rules with
    | STRICT =>
        if andb (0 <? Z.of_nat (length (allow_actions rules)))
                (negb (includes (allow_actions rules) (action ctx))) then
          Return {| decision := BLOCK; reason := "action_not_allowlisted_strict";
                    signals := signals |}
        else if andb (0 <? Z.of_nat (length (allow_tools rules)))
                     (negb (includes (allow_tools rules) (tool ctx))) then
          Return {| decision := BLOCK; reason := "tool_not_allowlisted_strict";
                    signals := signals |}
        else
          Return {| decision := ALLOW; reason := "allowed_by_policy_engine";
                    signals := signals |}
    | BALANCED =>
        Return {| decision := ALLOW; reason := "allowed_by_policy_engine";
                  signals := signals |}
    end.

End PolicyEngine.

(** ** lib/risk.ts *)

Module Risk.
Import PolicyEngine.

Definition requiresHumanApproval (action : string) (rules : PolicyRules) : bool :=
  if includes HIGH_RISK_ACTIONS (toLowerCase action) then true
  else includes (nullish (require_approval_actions rules) []) action.

Record RiskScoreContext : Type := {
  baselineAvgRiskScore : option Q;
  baselineAvgPerMinute : option Q;
  ctx_burstRate : option Q;
  isOffHours : option bool;
  isNewPattern : option bool
}.

Definition no_context : RiskScoreContext :=
  {| baselineAvgRiskScore := None; baselineAvgPerMinute := None;
     ctx_burstRate := None; isOffHours := None; isNewPattern := None |}.

(** [a > 0], [a >= b] on numbers. *)
Definition Qpositive (a : Q) : bool := negb (Qle_bool a 0).
Definition Qgeb (a b : Q) : bool := Qle_bool b a.

Definition Math_max (a b : Q) : Q := if Qle_bool a b then b else a.
Definition Math_min (a b : Q) : Q := if Qle_bool a b then a else b.

(** [Math.round]: the nearest integer, ties towards plus infinity. *)
Definition Math_round (a : Q) : Z := Qfloor (a + (1 # 2))%Q.

Definition bonus (cond : bool) (points : Z) : Z := if cond then points else 0.

(** The burst-versus-baseline increment of [computeRiskScore]. *)
Definition multiplier_points (context : RiskScoreContext) : Z :=
  let burst := nullish (ctx_burstRate context) 0%Q in
  let avg := nullish (baselineAvgPerMinute context) 0%Q in
  if andb (Qpositive burst) (Qpositive avg) then
    let multiplier := (burst / Math_max 1 avg)%Q in
    if Qgeb multiplier 3 then 12
    else if Qgeb multiplier 2 then 6
    else 0
  else 0.

(** The increment drawn from the baseline's average risk, on ALLOW only. *)
Definition baseline_points (decision : Decision) (context : RiskScoreContext) : Z :=
  let avgRisk := nullish (baselineAvgRiskScore context) 0%Q in
  if andb (Qpositive avgRisk) (Decision_eqb decision ALLOW)
  then Math_round (Math_min 8 (avgRisk / 20)%Q)
  else 0.

Definition computeRiskScore (signals : list string) (action : string)
    (decision : Decision) (context : RiskScoreContext) : Z :=
  let score := 5 in
  let score := score + bonus (includes HIGH_RISK_ACTIONS (toLowerCase action)) 45 in
  let score := score + bonus (includes signals "unknown_tool") 20 in
  let score := score + bonus (includes signals "burst_rate") 20 in
  let score := score + bonus (includes signals "behavior_drift") 15 in
  let score := score + bonus (includes signals "off_hours_execution") 10 in
  let score := score + bonus (includes signals "new_action_pattern") 12 in
  let score := score + bonus (Decision_eqb decision BLOCK) 10 in
  let score := score + multiplier_points context in
  let score := score + baseline_points decision context in
  let score := score + bonus (nullish (isOffHours context) false) 5 in
  let score := score + bonus (nullish (isNewPattern context) false) 5 in
  Z.max 0 (Z.min 100 score).

End Risk.

(** ** JSON values and ordinary objects *)

(** Values of JSON columns and of the hash payload. The own properties of
    an object are listed in insertion order, and no key occurs twice in an
    object of the program. (JavaScript enumerates keys that are array
    indices ahead of the others; the code reads [Object.keys] only to sort
    it, and serialization is the platform's, so nothing below depends on
    it.) *)
#[warnings="-register-all"]
Inductive json : Type :=
| JNull
| JBool (b : bool)
| JNum (n : Q)
| JStr (s : string)
| JArr (items : list json)
| JObj (props : list (string * json)).

Module Obj.

Definition t : Type := list (string * json).

(** [Object.keys(obj)] *)
Definition keys (obj : t) : list string := map fst obj.

(** [obj[key]] read; [None] is [undefined]. *)
Fixpoint get (obj : t) (key : string) : option json :=
  match obj with
  | [] => None
  | (k, v) :: rest => if String.eqb k key then Some v else get rest key
  end.

Definition has (obj : t) (key : string) : bool :=
  match get obj key with
  | Some _ => true
  | None => false
  end.

Fixpoint replace (obj : t) (key : string) (v : json) : t :=
  match obj with
  | [] => []
  | (k, w) :: rest =>
      if String.eqb k key then (k, v) :: rest else (k, w) :: replace rest key v
  end.

(** [acc[key] = v] on an object created by the literal [{}]. Such an object
    inherits the accessor [__proto__] of [Object.prototype]: assigning to
    that key calls the setter, which changes (or, for a primitive [v],
    leaves) the prototype and creates no own property. Every other key
    becomes, or overwrites, an own property. *)
Definition set (acc : t) (key : string) (v : json) : t :=
  if String.eqb key "__proto__" then acc
  else if has acc key then replace acc key v
  else acc ++ [(key, v)].

End Obj.

(** [Array.prototype.sort()] without a comparator, on strings: ascending by
    code units. *)
Fixpoint sort_insert (x : string) (l : list string) : list string :=
  match l with
  | [] => [x]
  | y :: rest => if String.leb x y then x :: l else y :: sort_insert x rest
  end.

Definition Array_sort (l : list string) : list string :=
  fold_right sort_insert [] l.

(** What the code takes from its platform: the SHA-256 hex digest of
    [node:crypto], [JSON.stringify], [Date.prototype.toISOString], the
    coercion [Number(v)] of a JSON value ([None] when the result is not
    finite), and whether a [fetch] to a URL rejects (with which message). *)
Class Runtime : Type := {
  sha256_hex : string -> string;
  JSON_stringify : json -> string;
  toISOString : Z -> string;
  Number_finite : json -> option Q;
  fetch_rejects : string -> option string
}.

(** ** lib/hashChain.ts *)

Module HashChain.

Record AuditEventInput : Type := {
  in_workspaceId : string;
  in_agentId : option string;
  in_tool : string;
  in_action : string;
  in_resource : option string;
  in_decision : Decision;
  in_reason : string;
  in_metadata : option Obj.t;
  in_anomalyFlagged : option bool;
  in_createdAt : option Z
}.

(** A row of [audit_log_events]. *)
Record AuditLogEvent : Type := {
  id : nat;
  workspaceId : string;
  agentId : option string;
  tool : string;
  action : string;
  resource : option string;
  decision : Decision;
  reason : string;
  metadata : Obj.t;
  anomalyFlagged : bool;
  prevHash : string;
  hash : string;
  createdAt : Z
}.

(** A row of [audit_chain_state]. *)
Record AuditChainState : Type := {
  cs_workspaceId : string;
  lastEventId : nat;
  lastHash : string
}.

Fixpoint sortObject (value : json) : json :=
  match value with
  | JArr items => JArr (map sortObject items)
  | JObj obj =>
      (* sortObject(obj[key]), for each own key *)
      let sorted := map (fun kv => match kv with (k, v) => (k, sortObject v) end) obj in
      JObj (fold_left
              (fun acc key =>
                 match Obj.get sorted key with
                 | Some v => Obj.set acc key v
                 | None => acc
                 end)
              (Array_sort (Obj.keys obj)) [])
  | _ => value
  end.

Definition Decision_string (d : Decision) : string :=
  match d with
  | ALLOW => "ALLOW"
  | BLOCK => "BLOCK"
  end.

Definition nullable_string (s : option string) : json :=
  match s with
  | Some x => JStr x
  | None => JNull
  end.

Section WithRuntime.
Context {R : Runtime}.

Definition canonicalize (value : json) : string :=
  JSON_stringify (sortObject value).

Definition computeEventHash (prevHash : string) (payload : json) : string :=
  sha256_hex (prevHash ++ canonicalize payload)%string.

Definition createEventHashPayload (event : AuditEventInput) (createdAt : Z) : json :=
  JObj [ ("workspace_id", JStr (in_workspaceId event));
         ("agent_id", nullable_string (in_agentId event));
         ("tool", JStr (in_tool event));
         ("action", JStr (in_action event));
         ("resource", nullable_string (in_resource event));
         ("decision", JStr (Decision_string (in_decision event)));
         ("reason", JStr (in_reason event));
         ("metadata", JObj (nullish (in_metadata event) []));
         ("anomaly_flagged", JBool (nullish (in_anomalyFlagged event) false));
         ("created_at", JStr (toISOString createdAt)) ].

(** The two tables [appendAuditEvent] touches, and the next row id the
    store will issue. *)
Record Ledger : Type := {
  auditLogEvent : list AuditLogEvent;
  auditChainState : list AuditChainState;
  ledger_next_id : nat
}.

Definition empty_ledger : Ledger :=
  {| auditLogEvent := []; auditChainState := []; ledger_next_id := O |}.

(** [tx.auditChainState.findUnique({ where: { workspaceId } })] *)
Definition findChainState (l : Ledger) (ws : string) : option AuditChainState :=
  find (fun s => String.eqb (cs_workspaceId s) ws) (auditChainState l).

(** [tx.auditChainState.upsert] *)
Definition upsertChainState (states : list AuditChainState) (ws : string)
    (eventId : nat) (h : string) : list AuditChainState :=
  let row := {| cs_workspaceId := ws; lastEventId := eventId; lastHash := h |} in
  if existsb (fun s => String.eqb (cs_workspaceId s) ws) states
  then map (fun s => if String.eqb (cs_workspaceId s) ws then row else s) states
  else states ++ [row].

(** [appendAuditEvent], the body of the transaction; [now] is the reading
    of the clock used when the event carries no [createdAt]. *)
Definition appendAuditEvent (l : Ledger) (event : AuditEventInput) (now : Z)
  : Ledger * AuditLogEvent :=
  let state := findChainState l (in_workspaceId event) in
  let prevHash_ := match state with
                   | Some s => lastHash s
                   | None => "GENESIS"
                   end in
  let createdAt_ := nullish (in_createdAt event) now in
  let hashPayload := createEventHashPayload event createdAt_ in
  let hash_ := computeEventHash prevHash_ hashPayload in
  let createdEvent :=
    {| id := ledger_next_id l;
       workspaceId := in_workspaceId event;
       agentId := in_agentId event;
       tool := in_tool event;
       action := in_action event;
       resource := in_resource event;
       decision := in_decision event;
       reason := in_reason event;
       metadata := nullish (in_metadata event) [];
       anomalyFlagged := nullish (in_anomalyFlagged event) false;
       prevHash := prevHash_;
       hash := hash_;
       createdAt := createdAt_ |} in
  ({| auditLogEvent := auditLogEvent l ++ [createdEvent];
      auditChainState :=
        upsertChainState (auditChainState l) (in_workspaceId event)
                         (id createdEvent) hash_;
      ledger_next_id := S (ledger_next_id l) |},
   createdEvent).

(** The argument [verifyHashChain] rebuilds from a stored event. *)
Definition event_as_input (event : AuditLogEvent) : AuditEventInput :=
  {| in_workspaceId := workspaceId event;
     in_agentId := agentId event;
     in_tool := tool event;
     in_action := action event;
     in_resource := resource event;
     in_decision := decision event;
     in_reason := reason event;
     in_metadata := Some (metadata event);
     in_anomalyFlagged := Some (anomalyFlagged event);
     in_createdAt := None |}.

(** The loop of [verifyHashChain], from a given running hash. *)
Fixpoint verifyHashChain_from (lastHash_ : string) (events : list AuditLogEvent) : bool :=
  match events with
  | [] => true
  | event :: rest =>
      if negb (String.eqb (prevHash event) lastHash_) then false
      else
        let payload := createEventHashPayload (event_as_input event) (createdAt event) in
        let expected := computeEventHash (prevHash event) payload in
        if negb (String.eqb (hash event) expected) then false
        else verifyHashChain_from (hash event) rest
  end.

Definition verifyHashChain (events : list AuditLogEvent) : bool :=
  verifyHashChain_from "GENESIS" events.

End WithRuntime.

End HashChain.

(** ** routes/forensics.ts: GET /forensics/replay *)

Module Forensics.
Import HashChain.

Inductive Integrity : Type := OK | BROKEN.

Inductive ChainStatus : Type := HEALTHY | CHAIN_BROKEN.

Record TimelineEntry : Type := {
  entry : AuditLogEvent;
  chainIntegrity : Integrity
}.

Record Summary : Type := {
  totalEvents : nat;
  integrityFailures : nat;
  chainStatus : ChainStatus
}.

(** [event.prevHash === previousHash], or [true] before the first event. *)
Definition prevMatches (previousHash : option string) (event : AuditLogEvent) : bool :=
  match previousHash with
  | None => true
  | Some h => String.eqb (prevHash event) h
  end.

(** [events.map(...)], threading [previousHash]. *)
Fixpoint timeline_from (previousHash : option string) (events : list AuditLogEvent)
  : list TimelineEntry :=
  match events with
  | [] => []
  | event :: rest =>
      {| entry := event;
         chainIntegrity := if prevMatches previousHash event then OK else BROKEN |}
      :: timeline_from (Some (hash event)) rest
  end.

(** The counter [integrityFailures] the same callback increments. *)
Fixpoint failures_from (previousHash : option string) (events : list AuditLogEvent) : nat :=
  match events with
  | [] => O
  | event :: rest =>
      ((if prevMatches previousHash event then 0 else 1)
       + failures_from (Some (hash event)) rest)%nat
  end.

Definition timeline (events : list AuditLogEvent) : list TimelineEntry :=
  timeline_from None events.

Definition summary (events : list AuditLogEvent) : Summary :=
  let failures := failures_from None events in
  {| totalEvents := length (timeline events);
     integrityFailures := failures;
     chainStatus := if Nat.eqb failures 0 then HEALTHY else CHAIN_BROKEN |}.

End Forensics.

(** ** The store: the tables the action service and the playbooks use *)

Module Store.

Inductive AgentStatus : Type := ACTIVE | DISABLED.

Inductive PolicyStatus : Type :=
  POLICY_DRAFT | POLICY_PENDING_APPROVAL | POLICY_APPROVED | POLICY_REJECTED.

Inductive ApprovalStatus : Type := PENDING | APPROVED | REJECTED | EXPIRED.

Inductive ExecutionStatus : Type := SKIPPED | EXECUTED | FAILED.

Definition ApprovalStatus_eqb (a b : ApprovalStatus) : bool :=
  match a, b with
  | PENDING, PENDING | APPROVED, APPROVED | REJECTED, REJECTED | EXPIRED, EXPIRED => true
  | _, _ => false
  end.

(** A row of [agent_action_baselines], unique per (agent, tool, action). *)
Record AgentActionBaseline : Type := {
  b_workspaceId : string;
  b_agentId : string;
  b_tool : string;
  b_action : string;
  avgRiskScore : Q;
  avgPerMinute : Q;
  sampleCount : Z;
  lastSeenAt : option Z
}.

Record Policy : Type := {
  p_id : string;
  p_workspaceId : string;
  p_mode : PolicyMode;
  p_rules : PolicyEngine.RawRules;
  p_status : PolicyStatus
}.

(** A row of [action_approval_requests]. *)
Record ActionApprovalRequest : Type := {
  a_id : nat;
  a_workspaceId : string;
  a_agentId : string;
  a_tool : string;
  a_action : string;
  a_resource : option string;
  a_metadata : Obj.t;
  a_status : ApprovalStatus;
  a_riskScore : Z;
  requestedBy : string;
  requestedAt : Z;
  expiresAt : Z;
  resolvedByUserId : option string;
  resolvedAt : option Z;
  resolutionNote : option string;
  consumedAt : option Z
}.

Record WorkspacePlaybook : Type := {
  pb_id : string;
  pb_workspaceId : string;
  pb_name : string;
  enabled : bool;
  triggerDecision : option Decision;
  minRiskScore : Z;
  matchSignals : json;
  actionType : string;
  actionConfig : json;
  pb_createdAt : Z
}.

Record PlaybookExecution : Type := {
  ex_playbookId : string;
  ex_workspaceId : string;
  ex_agentId : option string;
  ex_eventId : nat;
  ex_status : ExecutionStatus;
  ex_message : string
}.

Record Agent : Type := {
  ag_id : string;
  ag_status : AgentStatus
}.

Record AgentApiKey : Type := {
  k_agentId : string;
  revokedAt : option Z
}.

(** A call [fetch(url, { method: 'POST', headers, body })]. *)
Record FetchCall : Type := {
  f_url : string;
  f_secret : option string;
  f_body : string
}.

(** The state one evaluation reads and writes: the tables, the next id the
    store issues for an approval request, and the HTTP calls made so far. *)
Record World : Type := {
  ledger : HashChain.Ledger;
  agentActionBaseline : list AgentActionBaseline;
  policy : list Policy;
  actionApprovalRequest : list ActionApprovalRequest;
  workspacePlaybook : list WorkspacePlaybook;
  playbookExecution : list PlaybookExecution;
  agent : list Agent;
  agentApiKey : list AgentApiKey;
  next_id : nat;
  fetched : list FetchCall
}.

Definition with_ledger (w : World) (l : HashChain.Ledger) : World :=
  {| ledger := l; agentActionBaseline := agentActionBaseline w; policy := policy w;
     actionApprovalRequest := actionApprovalRequest w;
     workspacePlaybook := workspacePlaybook w; playbookExecution := playbookExecution w;
     agent := agent w; agentApiKey := agentApiKey w; next_id := next_id w;
     fetched := fetched w |}.

Definition with_baselines (w : World) (bs : list AgentActionBaseline) : World :=
  {| ledger := ledger w; agentActionBaseline := bs; policy := policy w;
     actionApprovalRequest := actionApprovalRequest w;
     workspacePlaybook := workspacePlaybook w; playbookExecution := playbookExecution w;
     agent := agent w; agentApiKey := agentApiKey w; next_id := next_id w;
     fetched := fetched w |}.

Definition with_approvals (w : World) (rs : list ActionApprovalRequest) (next : nat)
  : World :=
  {| ledger := ledger w; agentActionBaseline := agentActionBaseline w; policy := policy w;
     actionApprovalRequest := rs;
     workspacePlaybook := workspacePlaybook w; playbookExecution := playbookExecution w;
     agent := agent w; agentApiKey := agentApiKey w; next_id := next;
     fetched := fetched w |}.

Definition with_executions (w : World) (es : list PlaybookExecution) : World :=
  {| ledger := ledger w; agentActionBaseline := agentActionBaseline w; policy := policy w;
     actionApprovalRequest := actionApprovalRequest w;
     workspacePlaybook := workspacePlaybook w; playbookExecution := es;
     agent := agent w; agentApiKey := agentApiKey w; next_id := next_id w;
     fetched := fetched w |}.

Definition with_agents (w : World) (ags : list Agent) : World :=
  {| ledger := ledger w; agentActionBaseline := agentActionBaseline w; policy := policy w;
     actionApprovalRequest := actionApprovalRequest w;
     workspacePlaybook := workspacePlaybook w; playbookExecution := playbookExecution w;
     agent := ags; agentApiKey := agentApiKey w; next_id := next_id w;
     fetched := fetched w |}.

Definition with_keys (w : World) (ks : list AgentApiKey) : World :=
  {| ledger := ledger w; agentActionBaseline := agentActionBaseline w; policy := policy w;
     actionApprovalRequest := actionApprovalRequest w;
     workspacePlaybook := workspacePlaybook w; playbookExecution := playbookExecution w;
     agent := agent w; agentApiKey := ks; next_id := next_id w;
     fetched := fetched w |}.

Definition with_fetched (w : World) (fs : list FetchCall) : World :=
  {| ledger := ledger w; agentActionBaseline := agentActionBaseline w; policy := policy w;
     actionApprovalRequest := actionApprovalRequest w;
     workspacePlaybook := workspacePlaybook w; playbookExecution := playbookExecution w;
     agent := agent w; agentApiKey := agentApiKey w; next_id := next_id w;
     fetched := fs |}.

(** [if (s)] on a [string | null | undefined]: the empty string is falsy. *)
Definition truthy (s : option string) : option string :=
  match s with
  | Some x => if String.eqb x "" then None else Some x
  | None => None
  end.

(** [{ ...src }] onto [acc]: each own property of [src] is defined on
    [acc], overwriting in place a property already there. *)
Definition define (acc : Obj.t) (key : string) (v : json) : Obj.t :=
  if Obj.has acc key then Obj.replace acc key v else acc ++ [(key, v)].

Definition spread (acc src : Obj.t) : Obj.t :=
  fold_left (fun o kv => define o (fst kv) (snd kv)) src acc.

(** A row id where the code embeds it in JSON. *)
Definition json_of_id (n : nat) : json := JNum (inject_Z (Z.of_nat n)).

End Store.

(** ** services/playbookService.ts *)

Module PlaybookService.
Import Store.

Record PlaybookInput : Type := {
  pi_workspaceId : string;
  pi_agentId : option string;
  pi_eventId : nat;
  pi_decision : Decision;
  pi_riskScore : Z;
  pi_signals : list string;
  pi_tool : string;
  pi_action : string;
  pi_resource : option string;
  pi_metadata : Obj.t
}.

Definition getSignalMatchers (value : json) : list string :=
  match value with
  | JArr items =>
      flat_map (fun item =>
                  match item with
                  | JStr s => if (0 <? String.length s)%nat then [s] else []
                  | _ => []
                  end) items
  | _ => []
  end.

(** [actionConfig.key] after [(playbook.actionConfig ?? {})]: a property of
    a JSON object, [undefined] on anything else. *)
Definition config_get (actionConfig : json) (key : string) : option json :=
  match actionConfig with
  | JObj props => Obj.get props key
  | _ => None
  end.

(** [typeof v === 'string' ? v : d] *)
Definition string_or (v : option json) (d : option string) : option string :=
  match v with
  | Some (JStr s) => Some s
  | _ => d
  end.

(** The message of the error Prisma raises when [update] finds no row. *)
Definition record_not_found : string := "Record to update not found".

(** [orderBy: { createdAt: 'asc' }] *)
Fixpoint insert_by_createdAt (p : WorkspacePlaybook) (l : list WorkspacePlaybook)
  : list WorkspacePlaybook :=
  match l with
  | [] => [p]
  | q :: rest =>
      if pb_createdAt q <=? pb_createdAt p then q :: insert_by_createdAt p rest
      else p :: l
  end.

Definition orderBy_createdAt (l : list WorkspacePlaybook) : list WorkspacePlaybook :=
  fold_left (fun acc p => insert_by_createdAt p acc) l [].

(** [new Date(t)] for a fractional time value: truncated to milliseconds. *)
Definition Date_of (t : Q) : Z := Z.quot (Qnum t) (Zpos (Qden t)).

Section WithRuntime.
Context {R : Runtime}.

Definition findPlaybooks (w : World) (ws : string) : list WorkspacePlaybook :=
  orderBy_createdAt
    (filter (fun p => andb (String.eqb (pb_workspaceId p) ws) (enabled p))
            (workspacePlaybook w)).

Definition record_execution (w : World) (input : PlaybookInput)
    (playbook : WorkspacePlaybook) (status : ExecutionStatus) (message : string)
  : World :=
  with_executions w
    (playbookExecution w ++
     [ {| ex_playbookId := pb_id playbook;
          ex_workspaceId := pi_workspaceId input;
          ex_agentId := pi_agentId input;
          ex_eventId := pi_eventId input;
          ex_status := status;
          ex_message := message |} ]).

Definition webhook_payload (input : PlaybookInput) (playbook : WorkspacePlaybook)
    (now : Z) : json :=
  JObj [ ("playbookId", JStr (pb_id playbook));
         ("workspaceId", JStr (pi_workspaceId input));
         ("agentId", HashChain.nullable_string (pi_agentId input));
         ("eventId", json_of_id (pi_eventId input));
         ("decision", JStr (HashChain.Decision_string (pi_decision input)));
         ("riskScore", JNum (inject_Z (pi_riskScore input)));
         ("signals", JArr (map JStr (pi_signals input)));
         ("tool", JStr (pi_tool input));
         ("action", JStr (pi_action input));
         ("resource", HashChain.nullable_string (pi_resource input));
         ("metadata", JObj (pi_metadata input));
         ("timestamp", JStr (toISOString now)) ].

(** [executeWebhook]: the call is made, then [fetch] resolves or rejects. *)
Definition executeWebhook (w : World) (url : string) (secret : option string)
    (payload : json) : World * outcome unit :=
  let call := {| f_url := url; f_secret := truthy secret;
                 f_body := JSON_stringify payload |} in
  let w' := with_fetched w (fetched w ++ [call]) in
  match fetch_rejects url with
  | Some msg => (w', Throw msg)
  | None => (w', Return tt)
  end.

(** The [switch] on [playbook.actionType], inside the [try]: the world
    after it and the [message] it leaves, or the error thrown. *)
Definition dispatch (w : World) (input : PlaybookInput) (playbook : WorkspacePlaybook)
    (now : Z) : World * outcome string :=
  let actionConfig_ := actionConfig playbook in
  if String.eqb (actionType playbook) "DISABLE_AGENT" then
    match truthy (pi_agentId input) with
    | None => (w, Return "No agent available to disable")
    | Some agentId =>
        if existsb (fun a => String.eqb (ag_id a) agentId) (agent w) then
          (with_agents w
             (map (fun a => if String.eqb (ag_id a) agentId
                            then {| ag_id := ag_id a; ag_status := DISABLED |}
                            else a) (agent w)),
           Return "Agent disabled by playbook")
        else (w, Throw record_not_found)
    end
  else if String.eqb (actionType playbook) "REVOKE_ACTIVE_KEYS" then
    match truthy (pi_agentId input) with
    | None => (w, Return "No agent available to revoke keys")
    | Some agentId =>
        (with_keys w
           (map (fun k =>
                   match revokedAt k with
                   | None => if String.eqb (k_agentId k) agentId
                             then {| k_agentId := k_agentId k; revokedAt := Some now |}
                             else k
                   | Some _ => k
                   end) (agentApiKey w)),
         Return "Active keys revoked by playbook")
    end
  else if String.eqb (actionType playbook) "CREATE_APPROVAL" then
    match truthy (pi_agentId input) with
    | None => (w, Return "No agent available for approval request")
    | Some agentId =>
        let ttlMinutesRaw :=
          match config_get actionConfig_ "ttlMinutes" with
          | None | Some JNull => Some 15%Q
          | Some v => Number_finite v
          end in
        let ttlMinutes :=
          match ttlMinutesRaw with
          | Some raw => Risk.Math_max 1 raw
          | None => 15%Q
          end in
        let request :=
          {| a_id := next_id w;
             a_workspaceId := pi_workspaceId input;
             a_agentId := agentId;
             a_tool := pi_tool input;
             a_action := pi_action input;
             a_resource := pi_resource input;
             a_metadata :=
               define (define (define (spread [] (pi_metadata input))
                                      "source" (JStr "playbook"))
                              "playbookId" (JStr (pb_id playbook)))
                      "eventId" (json_of_id (pi_eventId input));
             a_status := PENDING;
             a_riskScore := pi_riskScore input;
             requestedBy := ("PLAYBOOK:" ++ pb_name playbook)%string;
             requestedAt := now;
             expiresAt := Date_of (inject_Z now + ttlMinutes * 60000)%Q;
             resolvedByUserId := None;
             resolvedAt := None;
             resolutionNote := None;
             consumedAt := None |} in
        (with_approvals w (actionApprovalRequest w ++ [request]) (S (next_id w)),
         Return "Approval request created by playbook")
    end
  else if String.eqb (actionType playbook) "NOTIFY_WEBHOOK" then
    let url := nullish (string_or (config_get actionConfig_ "url") (Some "")) "" in
    let secret := string_or (config_get actionConfig_ "secret") None in
    if String.eqb url "" then
      (w, Return "Webhook URL missing in playbook actionConfig")
    else
      match executeWebhook w url secret (webhook_payload input playbook now) with
      | (w', Return _) => (w', Return "Webhook notification sent by playbook")
      | (w', Throw e) => (w', Throw e)
      end
  else
    (w, Return ("Unsupported action type " ++ actionType playbook)%string).

(** The three trigger conditions of one playbook. *)
Definition decisionMatch (input : PlaybookInput) (playbook : WorkspacePlaybook) : bool :=
  match triggerDecision playbook with
  | None => true
  | Some d => Decision_eqb d (pi_decision input)
  end.

Definition riskMatch (input : PlaybookInput) (playbook : WorkspacePlaybook) : bool :=
  minRiskScore playbook <=? pi_riskScore input.

Definition signalsMatch (input : PlaybookInput) (playbook : WorkspacePlaybook) : bool :=
  let requiredSignals := getSignalMatchers (matchSignals playbook) in
  orb (Nat.eqb (length requiredSignals) 0)
      (forallb (fun signal => includes (pi_signals input) signal) requiredSignals).

(** One iteration of the loop of [runPlaybooksForEvent]. *)
Definition run_playbook (input : PlaybookInput) (now : Z) (w : World)
    (playbook : WorkspacePlaybook) : World :=
  if orb (negb (decisionMatch input playbook))
         (orb (negb (riskMatch input playbook)) (negb (signalsMatch input playbook)))
  then
    record_execution w input playbook SKIPPED "Trigger conditions not met"
  else
    match dispatch w input playbook now with
    | (w', Return message) => record_execution w' input playbook EXECUTED message
    | (w', Throw e) => record_execution w' input playbook FAILED e
    end.

Definition runPlaybooksForEvent (w : World) (input : PlaybookInput) (now : Z) : World :=
  fold_left (run_playbook input now) (findPlaybooks w (pi_workspaceId input)) w.

End WithRuntime.

End PlaybookService.

(** ** services/actionService.ts *)

Module ActionService.
Import Store.

Record AgentRef : Type := {
  agent_id : string;
  agent_status : AgentStatus;
  activePolicyId : option string
}.

Record EvaluateAndLogInput : Type := {
  workspaceId : string;
  agent_ : AgentRef;
  tool : string;
  action : string;
  resource : option string;
  metadata : option Obj.t;
  forceBlockReason : option string;
  approvalRequestId : option nat;
  requestedBy_ : option string
}.

Record Evaluation : Type := {
  decision : Decision;
  reason : string;
  signals : list string;
  riskScore : Z;
  res_approvalRequestId : option nat;
  event : HashChain.AuditLogEvent
}.

Definition APPROVAL_TTL_MS : Z := 15 * 60 * 1000.

(** [date.getUTCHours()] of an epoch-millisecond time. *)
Definition getUTCHours (t : Z) : Z := (t / 3600000) mod 24.

(** [Number(x.toFixed(2))]: two decimals, ties away from zero. *)
Definition toFixed2 (x : Q) : Q :=
  if Qle_bool 0 x then (Qfloor (x * 100 + (1 # 2)) # 100)%Q
  else (- (Qfloor (- x * 100 + (1 # 2)) # 100))%Q.

(** The rule set in force when the agent has no usable policy. *)
Definition default_raw : PolicyEngine.RawRules :=
  {| PolicyEngine.raw_mode := Some BALANCED;
     PolicyEngine.raw_allow_actions := Some [];
     PolicyEngine.raw_deny_actions := Some [];
     PolicyEngine.raw_allow_tools := Some [];
     PolicyEngine.raw_deny_tools := Some [];
     PolicyEngine.raw_require_approval_actions := Some [] |}.

(** [{ ...policy.rules, mode: policy.mode }] *)
Definition rules_with_mode (r : PolicyEngine.RawRules) (m : PolicyMode)
  : PolicyEngine.RawRules :=
  {| PolicyEngine.raw_mode := Some m;
     PolicyEngine.raw_allow_actions := PolicyEngine.raw_allow_actions r;
     PolicyEngine.raw_deny_actions := PolicyEngine.raw_deny_actions r;
     PolicyEngine.raw_allow_tools := PolicyEngine.raw_allow_tools r;
     PolicyEngine.raw_deny_tools := PolicyEngine.raw_deny_tools r;
     PolicyEngine.raw_require_approval_actions :=
       PolicyEngine.raw_require_approval_actions r |}.

(** What lines 60 to 118 leave in [decision], [reason], [signals], [rules]. *)
Record Resolved : Type := {
  r_decision : Decision;
  r_reason : string;
  r_signals : list string;
  r_rules : PolicyEngine.PolicyRules
}.

(** [prisma.auditLogEvent.count] of the agent's events of the last minute. *)
Definition count_recent (w : World) (ws agentId : string) (oneMinuteAgo : Z) : Z :=
  Z.of_nat
    (length
       (filter (fun e =>
                  andb (String.eqb (HashChain.workspaceId e) ws)
                       (andb (match HashChain.agentId e with
                              | Some a => String.eqb a agentId
                              | None => false
                              end)
                             (oneMinuteAgo <=? HashChain.createdAt e)))
               (HashChain.auditLogEvent (ledger w)))).

(** [prisma.agentActionBaseline.findUnique] on (agentId, tool, action). *)
Definition baseline_matches (agentId tool_ action_ : string) (b : AgentActionBaseline)
  : bool :=
  andb (String.eqb (b_agentId b) agentId)
       (andb (String.eqb (b_tool b) tool_) (String.eqb (b_action b) action_)).

Definition findBaseline (w : World) (agentId tool_ action_ : string)
  : option AgentActionBaseline :=
  find (baseline_matches agentId tool_ action_) (agentActionBaseline w).

(** [prisma.policy.findFirst({ where: { id, workspaceId } })] *)
Definition findPolicy (w : World) (pid ws : string) : option Policy :=
  find (fun p => andb (String.eqb (p_id p) pid) (String.eqb (p_workspaceId p) ws))
       (policy w).

(** The decision before baselines and approval are looked at. *)
Definition resolve (w : World) (input : EvaluateAndLogInput) (burstRate : Z)
  : outcome Resolved :=
  rules0 <- PolicyEngine.normalizePolicyRules (Some default_raw) None ;;
  match truthy (forceBlockReason input) with
  | Some forced =>
      Return {| r_decision := BLOCK; r_reason := forced; r_signals := [];
                r_rules := rules0 |}
  | None =>
      match agent_status (agent_ input) with
      | DISABLED =>
          Return {| r_decision := BLOCK; r_reason := "agent_disabled"; r_signals := [];
                    r_rules := rules0 |}
      | ACTIVE =>
          pre <-
            match truthy (activePolicyId (agent_ input)) with
            | Some pid =>
                match findPolicy w pid (workspaceId input) with
                | Some policy_ =>
                    rules <- PolicyEngine.normalizePolicyRules
                               (Some (rules_with_mode (p_rules policy_) (p_mode policy_)))
                               (Some (p_mode policy_)) ;;
                    match p_status policy_ with
                    | POLICY_APPROVED =>
                        Return {| r_decision := ALLOW;
                                  r_reason := "allowed_by_policy_engine";
                                  r_signals := []; r_rules := rules |}
                    | _ =>
                        Return {| r_decision := BLOCK; r_reason := "policy_not_approved";
                                  r_signals := []; r_rules := rules |}
                    end
                | None =>
                    Return {| r_decision := ALLOW; r_reason := "allowed_by_policy_engine";
                              r_signals := []; r_rules := rules0 |}
                end
            | None =>
                Return {| r_decision := ALLOW; r_reason := "allowed_by_policy_engine";
                          r_signals := []; r_rules := rules0 |}
            end ;;
          match r_decision pre with
          | BLOCK => Return pre
          | ALLOW =>
              evaluated <-
                PolicyEngine.evaluatePolicy
                  (Some (PolicyEngine.as_unknown (r_rules pre)))
                  {| PolicyEngine.tool := tool input;
                     PolicyEngine.action := action input;
                     PolicyEngine.burstRate := Some burstRate |} ;;
              Return {| r_decision := PolicyEngine.decision evaluated;
                        r_reason := PolicyEngine.reason evaluated;
                        r_signals := PolicyEngine.signals evaluated;
                        r_rules := r_rules pre |}
          end
      end
  end.

(** [burstMultiplier] of lines 123 and 124. *)
Definition burstMultiplier (baselineAvgPerMinute : Q) (burstRate : Z) : Q :=
  if Risk.Qpositive baselineAvgPerMinute
  then (inject_Z burstRate / Risk.Math_max 1 baselineAvgPerMinute)%Q
  else 1%Q.

(** The signals of lines 126 to 136, pushed in this order. *)
Definition baseline_signals (baseline : option AgentActionBaseline) (burstRate : Z)
    (isOffHours : bool) (action_ : string) : list string :=
  let baselineAvgPerMinute :=
    match baseline with Some b => avgPerMinute b | None => 0%Q end in
  let baselineSampleCount :=
    match baseline with Some b => sampleCount b | None => 0 end in
  (if andb (5 <=? baselineSampleCount)
           (Risk.Qgeb (burstMultiplier baselineAvgPerMinute burstRate) 2)
   then ["behavior_drift"] else [])
  ++ (if baselineSampleCount <? 3 then ["new_action_pattern"] else [])
  ++ (if andb isOffHours
              (includes PolicyEngine.HIGH_RISK_ACTIONS (toLowerCase action_))
      then ["off_hours_execution"] else []).

(** The condition of the [findFirst] that looks for a usable approval. *)
Definition approved_for (ws agentId : string) (requestId : nat) (now : Z)
    (r : ActionApprovalRequest) : bool :=
  andb (Nat.eqb (a_id r) requestId)
  (andb (String.eqb (a_workspaceId r) ws)
  (andb (String.eqb (a_agentId r) agentId)
  (andb (ApprovalStatus_eqb (a_status r) APPROVED)
  (andb (match consumedAt r with None => true | Some _ => false end)
        (now <? expiresAt r))))).

Definition set_consumedAt (r : ActionApprovalRequest) (t : Z) : ActionApprovalRequest :=
  {| a_id := a_id r; a_workspaceId := a_workspaceId r; a_agentId := a_agentId r;
     a_tool := a_tool r; a_action := a_action r; a_resource := a_resource r;
     a_metadata := a_metadata r; a_status := a_status r; a_riskScore := a_riskScore r;
     requestedBy := requestedBy r; requestedAt := requestedAt r;
     expiresAt := expiresAt r; resolvedByUserId := resolvedByUserId r;
     resolvedAt := resolvedAt r; resolutionNote := resolutionNote r;
     consumedAt := Some t |}.

(** [prisma.actionApprovalRequest.update({ where: { id }, data: { consumedAt } })] *)
Definition consume (rs : list ActionApprovalRequest) (requestId : nat) (t : Z)
  : list ActionApprovalRequest :=
  map (fun r => if Nat.eqb (a_id r) requestId then set_consumedAt r t else r) rs.

(** What the approval gate (lines 138 to 196) leaves behind. *)
Record Gated : Type := {
  g_world : World;
  g_decision : Decision;
  g_reason : string;
  g_signals : list string;
  g_approvalId : option nat
}.

Definition approval_gate (w : World) (input : EvaluateAndLogInput) (now : Z)
    (decision_ : Decision) (reason_ : string) (signals_ : list string)
    (rules : PolicyEngine.PolicyRules) : Gated :=
  if andb (Decision_eqb decision_ ALLOW) (Risk.requiresHumanApproval (action input) rules)
  then
    let approvedRequest :=
      match approvalRequestId input with
      | Some requestId =>
          find (approved_for (workspaceId input) (agent_id (agent_ input)) requestId now)
               (actionApprovalRequest w)
      | None => None
      end in
    match approvedRequest with
    | Some found =>
        {| g_world := with_approvals w (consume (actionApprovalRequest w) (a_id found) now)
                                     (next_id w);
           g_decision := decision_;
           g_reason := reason_;
           g_signals := signals_ ++ ["human_approval_consumed"];
           g_approvalId := None |}
    | None =>
        let createdApproval :=
          {| a_id := next_id w;
             a_workspaceId := workspaceId input;
             a_agentId := agent_id (agent_ input);
             a_tool := tool input;
             a_action := action input;
             a_resource := resource input;
             a_metadata := nullish (metadata input) [];
             a_status := PENDING;
             a_riskScore := 0;
             requestedBy := nullish (requestedBy_ input) "SYSTEM";
             requestedAt := now;
             expiresAt := now + APPROVAL_TTL_MS;
             resolvedByUserId := None;
             resolvedAt := None;
             resolutionNote := None;
             consumedAt := None |} in
        {| g_world := with_approvals w (actionApprovalRequest w ++ [createdApproval])
                                     (S (next_id w));
           g_decision := BLOCK;
           g_reason := "approval_required";
           g_signals := signals_ ++ ["human_approval_required"];
           g_approvalId := Some (a_id createdApproval) |}
    end
  else
    {| g_world := w; g_decision := decision_; g_reason := reason_;
       g_signals := signals_; g_approvalId := None |}.

(** [prisma.agentActionBaseline.upsert] of lines 230 to 260. *)
Definition upsertBaseline (w : World) (input : EvaluateAndLogInput) (now : Z)
    (baseline : option AgentActionBaseline) (riskScore_ burstRate : Z) : World :=
  let agentId := agent_id (agent_ input) in
  let count := match baseline with Some b => sampleCount b | None => 0 end in
  let avgRisk := match baseline with Some b => avgRiskScore b | None => 0%Q end in
  let avgRate := match baseline with Some b => avgPerMinute b | None => 0%Q end in
  let nextSampleCount := count + 1 in
  let nextAverageRisk :=
    ((avgRisk * inject_Z count + inject_Z riskScore_) / inject_Z nextSampleCount)%Q in
  let nextAveragePerMinute :=
    ((avgRate * inject_Z count + inject_Z burstRate) / inject_Z nextSampleCount)%Q in
  if existsb (baseline_matches agentId (tool input) (action input)) (agentActionBaseline w)
  then
    with_baselines w
      (map (fun b =>
              if baseline_matches agentId (tool input) (action input) b
              then {| b_workspaceId := b_workspaceId b; b_agentId := b_agentId b;
                      b_tool := b_tool b; b_action := b_action b;
                      avgRiskScore := toFixed2 nextAverageRisk;
                      avgPerMinute := toFixed2 nextAveragePerMinute;
                      sampleCount := nextSampleCount;
                      lastSeenAt := Some now |}
              else b) (agentActionBaseline w))
  else
    with_baselines w
      (agentActionBaseline w ++
       [ {| b_workspaceId := workspaceId input; b_agentId := agentId;
            b_tool := tool input; b_action := action input;
            avgRiskScore := inject_Z riskScore_;
            avgPerMinute := inject_Z burstRate;
            sampleCount := 1;
            lastSeenAt := Some now |} ]).

Section WithRuntime.
Context {R : Runtime}.

(** The [metadata] of the audit event, lines 216 to 226. *)
Definition event_metadata (input : EvaluateAndLogInput) (uniqueSignals : list string)
    (riskScore_ : Z) (approvalId : option nat) (baseline : option AgentActionBaseline)
    (burstRate : Z) : Obj.t :=
  let avgRisk := match baseline with Some b => avgRiskScore b | None => 0%Q end in
  let avgRate := match baseline with Some b => avgPerMinute b | None => 0%Q end in
  define
    (define
       (define
          (define (spread [] (nullish (metadata input) []))
                  "signals" (JArr (map JStr uniqueSignals)))
          "risk_score" (JNum (inject_Z riskScore_)))
       "approval_request_id"
       (match approvalId with Some i => json_of_id i | None => JNull end))
    "risk_context"
    (JObj [ ("baseline_avg_risk", JNum avgRisk);
            ("baseline_avg_per_minute", JNum avgRate);
            ("burst_rate", JNum (inject_Z burstRate)) ]).

(** Lines 198 to 298: score the risk, append the audit event, update the
    baseline, run the playbooks, and build the result. *)
Definition record_outcome (input : EvaluateAndLogInput) (now : Z)
    (baseline : option AgentActionBaseline) (burstRate : Z) (isOffHours : bool)
    (gated : Gated) : World * Evaluation :=
  let agentId := agent_id (agent_ input) in
  let baselineAvgPerMinute :=
    match baseline with Some b => avgPerMinute b | None => 0%Q end in
  let baselineSampleCount :=
    match baseline with Some b => sampleCount b | None => 0 end in
  let anomalyFlagged := (0 <? length (g_signals gated))%nat in
  let uniqueSignals := unique (g_signals gated) in
  let riskScore_ :=
    Risk.computeRiskScore uniqueSignals (action input) (g_decision gated)
      {| Risk.baselineAvgRiskScore :=
           Some (match baseline with Some b => avgRiskScore b | None => 0%Q end);
         Risk.baselineAvgPerMinute := Some baselineAvgPerMinute;
         Risk.ctx_burstRate := Some (inject_Z burstRate);
         Risk.isOffHours := Some isOffHours;
         Risk.isNewPattern := Some (baselineSampleCount <? 3) |} in
  let w1 := g_world gated in
  let appended :=
    HashChain.appendAuditEvent (ledger w1)
      {| HashChain.in_workspaceId := workspaceId input;
         HashChain.in_agentId := Some agentId;
         HashChain.in_tool := tool input;
         HashChain.in_action := action input;
         HashChain.in_resource := resource input;
         HashChain.in_decision := g_decision gated;
         HashChain.in_reason := g_reason gated;
         HashChain.in_metadata :=
           Some (event_metadata input uniqueSignals riskScore_ (g_approvalId gated)
                                baseline burstRate);
         HashChain.in_anomalyFlagged := Some anomalyFlagged;
         HashChain.in_createdAt := None |} now in
  let event_ := snd appended in
  let w2 := with_ledger w1 (fst appended) in
  let w3 := upsertBaseline w2 input now baseline riskScore_ burstRate in
  let w4 :=
    PlaybookService.runPlaybooksForEvent w3
      {| PlaybookService.pi_workspaceId := workspaceId input;
         PlaybookService.pi_agentId := Some agentId;
         PlaybookService.pi_eventId := HashChain.id event_;
         PlaybookService.pi_decision := g_decision gated;
         PlaybookService.pi_riskScore := riskScore_;
         PlaybookService.pi_signals := uniqueSignals;
         PlaybookService.pi_tool := tool input;
         PlaybookService.pi_action := action input;
         PlaybookService.pi_resource := resource input;
         PlaybookService.pi_metadata := nullish (metadata input) [] |} now in
  (w4,
   {| decision := g_decision gated;
      reason := g_reason gated;
      signals := uniqueSignals;
      riskScore := riskScore_;
      res_approvalRequestId := g_approvalId gated;
      event := event_ |}).

(** [evaluateAndLogAction]. All the clock readings of one call are the one
    instant [now]. The forward to the SIEM integrations is detached from the
    call: it writes no table and does not reach the result, and is left out. *)
Definition evaluateAndLogAction (w : World) (input : EvaluateAndLogInput) (now : Z)
  : outcome (World * Evaluation) :=
  let oneMinuteAgo := now - 60000 in
  let agentId := agent_id (agent_ input) in
  let burstRate := count_recent w (workspaceId input) agentId oneMinuteAgo in
  let baseline := findBaseline w agentId (tool input) (action input) in
  resolved <- resolve w input burstRate ;;
  let isOffHours := orb (getUTCHours now <? 5) (20 <? getUTCHours now) in
  let signals_ :=
    r_signals resolved ++ baseline_signals baseline burstRate isOffHours (action input) in
  let gated := approval_gate w input now (r_decision resolved) (r_reason resolved)
                             signals_ (r_rules resolved) in
  Return (record_outcome input now baseline burstRate isOffHours gated).

End WithRuntime.

(** *** routes/approvals.ts: the two resolutions *)

Definition set_resolution (r : ActionApprovalRequest) (status : ApprovalStatus)
    (user : string) (now : Z) (note : option string) : ActionApprovalRequest :=
  {| a_id := a_id r; a_workspaceId := a_workspaceId r; a_agentId := a_agentId r;
     a_tool := a_tool r; a_action := a_action r; a_resource := a_resource r;
     a_metadata := a_metadata r; a_status := status; a_riskScore := a_riskScore r;
     requestedBy := requestedBy r; requestedAt := requestedAt r;
     expiresAt := expiresAt r; resolvedByUserId := Some user;
     resolvedAt := Some now; resolutionNote := note;
     consumedAt := consumedAt r |}.

(** POST /approvals/:id/approve and /reject, for a caller whose permission
    on the workspace is [authorized]: the request is updated only when it
    exists, the caller may manage approvals, and it is still PENDING. *)
Definition resolve_request (status : ApprovalStatus) (w : World) (requestId : nat)
    (authorized : bool) (user : string) (note : option string) (now : Z) : World :=
  match find (fun r => Nat.eqb (a_id r) requestId) (actionApprovalRequest w) with
  | None => w
  | Some approval =>
      if negb authorized then w
      else if negb (ApprovalStatus_eqb (a_status approval) PENDING) then w
      else
        with_approvals w
          (map (fun r => if Nat.eqb (a_id r) (a_id approval)
                         then set_resolution r status user now note else r)
               (actionApprovalRequest w))
          (next_id w)
  end.

Definition approve : World -> nat -> bool -> string -> option string -> Z -> World :=
  resolve_request APPROVED.

Definition reject : World -> nat -> bool -> string -> option string -> Z -> World :=
  resolve_request REJECTED.

(** *** Sequences of requests *)

(** The requests that reach the approval table: an action to evaluate, an
    approval, a rejection. *)
Inductive Request : Type :=
| Evaluate (input : EvaluateAndLogInput) (now : Z)
| Approve (requestId : nat) (authorized : bool) (user : string) (note : option string)
          (now : Z)
| Reject (requestId : nat) (authorized : bool) (user : string) (note : option string)
         (now : Z).

Section Runs.
Context {R : Runtime}.

(** One request served; an evaluation that throws leaves the store as it was
    (it throws before its first write). *)
Definition serve (w : World) (request : Request) : World :=
  match request with
  | Evaluate input now =>
      match evaluateAndLogAction w input now with
      | Return (w', _) => w'
      | Throw _ => w
      end
  | Approve requestId authorized user note now =>
      approve w requestId authorized user note now
  | Reject requestId authorized user note now =>
      reject w requestId authorized user note now
  end.

(** Requests served one after the other. *)
Definition run (w : World) (requests : list Request) : World :=
  fold_left serve requests w.

End Runs.

End ActionService.

(** ** Calls of [evaluateAndLogAction] that overlap *)

(** [evaluateAndLogAction] is an async function: at each [await] the event
    loop may run another call on the same store. A call is cut here at the
    await that matters to the approval table, the one between the answer of
    [findFirst] (line 142) and the write that follows it; each of the two
    parts runs in one go, with the clock read once. Before the cut the call
    only reads the store. *)
Module Interleaving.
Import Store ActionService.

(** What a call holds across the await: its arguments, the [now] of line
    40, what lines 41 to 136 computed, the test of line 138, and the id
    that [findFirst] selected. *)
Record Suspended : Type := {
  s_input : EvaluateAndLogInput;
  s_started : Z;
  s_baseline : option AgentActionBaseline;
  s_burstRate : Z;
  s_isOffHours : bool;
  s_decision : Decision;
  s_reason : string;
  s_signals : list string;
  s_approval_needed : bool;
  s_approvedRequest : option nat
}.

(** A call in flight: not yet started, awaiting its write, or settled. *)
Inductive Call : Type :=
| Arrived (input : EvaluateAndLogInput)
| Awaiting (s : Suspended)
| Returned (res : Evaluation)
| Thrown (msg : string).

(** Line 159, [update({ where: { id }, data: { consumedAt: new Date() } })]:
    the row is looked up by its id alone, and Prisma throws when no row
    bears it. *)
Definition update_consumedAt (w : World) (requestId : nat) (t : Z) : outcome World :=
  if existsb (fun r => Nat.eqb (a_id r) requestId) (actionApprovalRequest w)
  then Return (with_approvals w (consume (actionApprovalRequest w) requestId t)
                              (next_id w))
  else Throw PlaybookService.record_not_found.

(** Lines 158 to 196, from the answer of [findFirst] on. *)
Definition gate_after_findFirst (w : World) (s : Suspended) (now : Z) : outcome Gated :=
  let input := s_input s in
  if s_approval_needed s then
    match s_approvedRequest s with
    | Some requestId =>
        w' <- update_consumedAt w requestId now ;;
        Return {| g_world := w';
                  g_decision := s_decision s;
                  g_reason := s_reason s;
                  g_signals := s_signals s ++ ["human_approval_consumed"];
                  g_approvalId := None |}
    | None =>
        let createdApproval :=
          {| a_id := next_id w;
             a_workspaceId := workspaceId input;
             a_agentId := agent_id (agent_ input);
             a_tool := tool input;
             a_action := action input;
             a_resource := resource input;
             a_metadata := nullish (metadata input) [];
             a_status := PENDING;
             a_riskScore := 0;
             requestedBy := nullish (requestedBy_ input) "SYSTEM";
             requestedAt := now;
             expiresAt := now + APPROVAL_TTL_MS;
             resolvedByUserId := None;
             resolvedAt := None;
             resolutionNote := None;
             consumedAt := None |} in
        Return {| g_world := with_approvals w (actionApprovalRequest w ++ [createdApproval])
                                            (S (next_id w));
                  g_decision := BLOCK;
                  g_reason := "approval_required";
                  g_signals := s_signals s ++ ["human_approval_required"];
                  g_approvalId := Some (a_id createdApproval) |}
    end
  else
    Return {| g_world := w; g_decision := s_decision s; g_reason := s_reason s;
              g_signals := s_signals s; g_approvalId := None |}.

Section WithRuntime.
Context {R : Runtime}.

(** Lines 39 to 156: the reads, up to the answer of [findFirst]. *)
Definition until_findFirst (w : World) (input : EvaluateAndLogInput) (now : Z)
  : outcome Suspended :=
  let oneMinuteAgo := now - 60000 in
  let agentId := agent_id (agent_ input) in
  let burstRate := count_recent w (workspaceId input) agentId oneMinuteAgo in
  let baseline := findBaseline w agentId (tool input) (action input) in
  resolved <- resolve w input burstRate ;;
  let isOffHours := orb (getUTCHours now <? 5) (20 <? getUTCHours now) in
  let signals_ :=
    r_signals resolved ++ baseline_signals baseline burstRate isOffHours (action input) in
  let needed :=
    andb (Decision_eqb (r_decision resolved) ALLOW)
         (Risk.requiresHumanApproval (action input) (r_rules resolved)) in
  let approvedRequest :=
    if needed then
      match approvalRequestId input with
      | Some requestId =>
          find (approved_for (workspaceId input) agentId requestId now)
               (actionApprovalRequest w)
      | None => None
      end
    else None in
  Return {| s_input := input;
            s_started := now;
            s_baseline := baseline;
            s_burstRate := burstRate;
            s_isOffHours := isOffHours;
            s_decision := r_decision resolved;
            s_reason := r_reason resolved;
            s_signals := signals_;
            s_approval_needed := needed;
            s_approvedRequest := option_map a_id approvedRequest |}.

(** Lines 198 to 298, as [record_outcome] has them, with the two clocks
    apart: [lastSeenAt] is the [now] of line 40, the other times are read
    when the writes are made. *)
Definition outcome_after (s : Suspended) (now : Z) (gated : Gated) : World * Evaluation :=
  let input := s_input s in
  let baseline := s_baseline s in
  let burstRate := s_burstRate s in
  let agentId := agent_id (agent_ input) in
  let baselineAvgPerMinute :=
    match baseline with Some b => avgPerMinute b | None => 0%Q end in
  let baselineSampleCount :=
    match baseline with Some b => sampleCount b | None => 0 end in
  let anomalyFlagged := (0 <? length (g_signals gated))%nat in
  let uniqueSignals := unique (g_signals gated) in
  let riskScore_ :=
    Risk.computeRiskScore uniqueSignals (action input) (g_decision gated)
      {| Risk.baselineAvgRiskScore :=
           Some (match baseline with Some b => avgRiskScore b | None => 0%Q end);
         Risk.baselineAvgPerMinute := Some baselineAvgPerMinute;
         Risk.ctx_burstRate := Some (inject_Z burstRate);
         Risk.isOffHours := Some (s_isOffHours s);
         Risk.isNewPattern := Some (baselineSampleCount <? 3) |} in
  let w1 := g_world gated in
  let appended :=
    HashChain.appendAuditEvent (ledger w1)
      {| HashChain.in_workspaceId := workspaceId input;
         HashChain.in_agentId := Some agentId;
         HashChain.in_tool := tool input;
         HashChain.in_action := action input;
         HashChain.in_resource := resource input;
         HashChain.in_decision := g_decision gated;
         HashChain.in_reason := g_reason gated;
         HashChain.in_metadata :=
           Some (event_metadata input uniqueSignals riskScore_ (g_approvalId gated)
                                baseline burstRate);
         HashChain.in_anomalyFlagged := Some anomalyFlagged;
         HashChain.in_createdAt := None |} now in
  let event_ := snd appended in
  let w2 := with_ledger w1 (fst appended) in
  let w3 := upsertBaseline w2 input (s_started s) baseline riskScore_ burstRate in
  let w4 :=
    PlaybookService.runPlaybooksForEvent w3
      {| PlaybookService.pi_workspaceId := workspaceId input;
         PlaybookService.pi_agentId := Some agentId;
         PlaybookService.pi_eventId := HashChain.id event_;
         PlaybookService.pi_decision := g_decision gated;
         PlaybookService.pi_riskScore := riskScore_;
         PlaybookService.pi_signals := uniqueSignals;
         PlaybookService.pi_tool := tool input;
         PlaybookService.pi_action := action input;
         PlaybookService.pi_resource := resource input;
         PlaybookService.pi_metadata := nullish (metadata input) [] |} now in
  (w4,
   {| decision := g_decision gated;
      reason := g_reason gated;
      signals := uniqueSignals;
      riskScore := riskScore_;
      res_approvalRequestId := g_approvalId gated;
      event := event_ |}).

(** Lines 158 to 298: the writes. *)
Definition after_findFirst (w : World) (s : Suspended) (now : Z)
  : outcome (World * Evaluation) :=
  gated <- gate_after_findFirst w s now ;;
  Return (outcome_after s now gated).

(** The event loop resumes a call, which runs to its next await (or to its
    end) at the clock reading [now]. *)
Definition resume (w : World) (c : Call) (now : Z) : World * Call :=
  match c with
  | Arrived input =>
      match until_findFirst w input now with
      | Return s => (w, Awaiting s)
      | Throw e => (w, Thrown e)
      end
  | Awaiting s =>
      match after_findFirst w s now with
      | Return (w', res) => (w', Returned res)
      | Throw e => (w, Thrown e)
      end
  | Returned _ | Thrown _ => (w, c)
  end.

Fixpoint set_nth (i : nat) (c : Call) (calls : list Call) : list Call :=
  match calls, i with
  | [], _ => []
  | _ :: rest, O => c :: rest
  | c0 :: rest, S j => c0 :: set_nth j c rest
  end.

(** The calls in flight, run by a schedule: each entry names the call that
    is resumed next and the clock reading then. *)
Fixpoint interleave (w : World) (calls : list Call) (schedule : list (nat * Z))
  : World * list Call :=
  match schedule with
  | [] => (w, calls)
  | (i, now) :: rest =>
      match nth_error calls i with
      | Some c =>
          let (w', c') := resume w c now in
          interleave w' (set_nth i c' calls) rest
      | None => interleave w calls rest
      end
  end.

End WithRuntime.

End Interleaving.

(** ** lib/permissions.ts *)

Module Permissions.

Inductive Role : Type := OWNER | MEMBER.

(** [PermissionOverrideEffect], 'ALLOW' or 'DENY'. *)
Inductive PermissionOverrideEffect : Type := Allow | Deny.

Definition Role_eqb (a b : Role) : bool :=
  match a, b with
  | OWNER, OWNER | MEMBER, MEMBER => true
  | _, _ => false
  end.

(** A [WorkspacePermission] is one of these strings. *)
Definition ALL_WORKSPACE_PERMISSIONS : list string :=
  [ "workspace:create"; "workspace:manage_members"; "rbac:manage"; "identity:manage";
    "agents:read"; "agents:write"; "agents:rotate_keys"; "agents:kill_switch";
    "policies:read"; "policies:write"; "policies:approve"; "policy_sync:manage";
    "simulate:run"; "runtime:manage"; "audit:read"; "forensics:read";
    "approvals:read"; "approvals:manage"; "playbooks:read"; "playbooks:manage";
    "integrations:manage"; "compliance:read"; "compliance:generate" ].

Definition OWNER_PERMISSIONS : list string :=
  [ "workspace:create"; "workspace:manage_members"; "rbac:manage"; "identity:manage";
    "agents:read"; "agents:write"; "agents:rotate_keys"; "agents:kill_switch";
    "policies:read"; "policies:write"; "policies:approve"; "policy_sync:manage";
    "simulate:run"; "runtime:manage"; "audit:read"; "forensics:read";
    "approvals:read"; "approvals:manage"; "playbooks:read"; "playbooks:manage";
    "integrations:manage"; "compliance:read"; "compliance:generate" ].

Definition MEMBER_PERMISSIONS : list string :=
  [ "agents:read"; "policies:read"; "simulate:run"; "audit:read"; "forensics:read";
    "approvals:read"; "playbooks:read"; "compliance:read" ].

Definition ROLE_TO_PERMISSIONS (role : Role) : list string :=
  match role with
  | OWNER => OWNER_PERMISSIONS
  | MEMBER => MEMBER_PERMISSIONS
  end.

Definition hasWorkspacePermission (role : Role) (permission : string)
    (overrideEffect : option PermissionOverrideEffect) : bool :=
  match overrideEffect with
  | Some Allow => true
  | Some Deny => false
  | None => includes (ROLE_TO_PERMISSIONS role) permission
  end.

End Permissions.

(** ** lib/workspace.ts *)

Module Workspace.
Import Permissions.

(** A row of [workspace_members], unique per (workspace, user). *)
Record WorkspaceMember : Type := {
  m_workspaceId : string;
  m_userId : string;
  m_role : Role
}.

(** A row of [workspace_role_permissions], unique per
    (workspace, role, permission). *)
Record WorkspaceRolePermission : Type := {
  o_workspaceId : string;
  o_role : Role;
  o_permission : string;
  o_effect : PermissionOverrideEffect
}.

(** The two tables access control reads. *)
Record Directory : Type := {
  workspaceMember : list WorkspaceMember;
  workspaceRolePermission : list WorkspaceRolePermission
}.

Definition assertWorkspaceMember (db : Directory) (userId workspaceId : string)
  : option WorkspaceMember :=
  find (fun m => andb (String.eqb (m_workspaceId m) workspaceId)
                      (String.eqb (m_userId m) userId))
       (workspaceMember db).

(** The [where] of the lookups on [workspaceId_role_permission]. *)
Definition override_matches (workspaceId : string) (role : Role) (permission : string)
    (o : WorkspaceRolePermission) : bool :=
  andb (String.eqb (o_workspaceId o) workspaceId)
       (andb (Role_eqb (o_role o) role) (String.eqb (o_permission o) permission)).

Record Access : Type := {
  membership : WorkspaceMember;
  authorized : bool;
  overrideEffect : option PermissionOverrideEffect
}.

Definition assertWorkspacePermission (db : Directory) (userId workspaceId : string)
    (permission : string) : option Access :=
  match assertWorkspaceMember db userId workspaceId with
  | None => None
  | Some membership_ =>
      let override :=
        find (override_matches workspaceId (m_role membership_) permission)
             (workspaceRolePermission db) in
      let effect := option_map o_effect override in
      if negb (hasWorkspacePermission (m_role membership_) permission effect) then
        Some {| membership := membership_; authorized := false; overrideEffect := effect |}
      else
        Some {| membership := membership_; authorized := true; overrideEffect := effect |}
  end.

End Workspace.

(** ** What a route answers *)

(** [res.status(code).json(payload)], [res.status(code).json({ error })]
    with a message, and the 400 that carries [parsed.error.flatten()] when
    the request does not match the route's schema. *)
Inductive Reply (A : Type) : Type :=
| Json (status : Z) (payload : A)
| Failure (status : Z) (error : string)
| Invalid.

Arguments Json {A} status payload.
Arguments Failure {A} status error.
Arguments Invalid {A}.

(** ** routes/rbac.ts *)

Module Rbac.
Import Permissions Workspace.

Definition Role_string (role : Role) : string :=
  match role with
  | OWNER => "OWNER"
  | MEMBER => "MEMBER"
  end.

(** The key [`${role}:${permission}`] of [overrideMap]. *)
Definition override_key (role : Role) (permission : string) : string :=
  (Role_string role ++ ":" ++ permission)%string.

(** A [Map<string, 'ALLOW' | 'DENY'>], in insertion order. *)
Definition EffectMap : Type := list (string * PermissionOverrideEffect).

Definition Map_set (m : EffectMap) (key : string) (v : PermissionOverrideEffect)
  : EffectMap :=
  if existsb (fun kv => String.eqb (fst kv) key) m
  then map (fun kv => if String.eqb (fst kv) key then (key, v) else kv) m
  else m ++ [(key, v)].

Definition Map_get (m : EffectMap) (key : string) : option PermissionOverrideEffect :=
  option_map snd (find (fun kv => String.eqb (fst kv) key) m).

Record MatrixEntry : Type := {
  permission : string;
  effective : bool;
  e_overrideEffect : option PermissionOverrideEffect
}.

Record MatrixRow : Type := {
  role : Role;
  permissions : list MatrixEntry
}.

Record PermissionMatrix : Type := {
  matrix : list MatrixRow;
  overrides : list WorkspaceRolePermission
}.

Definition buildPermissionMatrix (db : Directory) (workspaceId : string)
  : PermissionMatrix :=
  let overrides_ :=
    filter (fun o => String.eqb (o_workspaceId o) workspaceId)
           (workspaceRolePermission db) in
  let overrideMap :=
    fold_left (fun m override =>
                 Map_set m (override_key (o_role override) (o_permission override))
                         (o_effect override))
              overrides_ [] in
  let roles := [OWNER; MEMBER] in
  let matrix_ :=
    map (fun role_ =>
           {| role := role_;
              permissions :=
                map (fun permission_ =>
                       let overrideEffect_ :=
                         Map_get overrideMap (override_key role_ permission_) in
                       {| permission := permission_;
                          effective :=
                            hasWorkspacePermission role_ permission_ overrideEffect_;
                          e_overrideEffect := overrideEffect_ |})
                    ALL_WORKSPACE_PERMISSIONS |})
        roles in
  {| matrix := matrix_; overrides := overrides_ |}.

(** An item of the body of PUT /rbac/permissions; [i_effect] is [None] for
    [null]. *)
Record OverrideItem : Type := {
  i_role : Role;
  i_permission : string;
  i_effect : option PermissionOverrideEffect
}.

(** What [updateOverridesSchema] checks on such items: at most 500 of them,
    no empty permission. *)
Definition updateOverridesSchema_ok (items : list OverrideItem) : bool :=
  andb (Nat.leb (length items) 500)
       (forallb (fun o => PolicyEngine.string_min1 (i_permission o)) items).

(** One turn of the loop in the transaction: [deleteMany] for a [null]
    effect, [upsert] otherwise. *)
Definition apply_override (workspaceId : string) (rows : list WorkspaceRolePermission)
    (override : OverrideItem) : list WorkspaceRolePermission :=
  let matches := override_matches workspaceId (i_role override) (i_permission override) in
  match i_effect override with
  | None => filter (fun o => negb (matches o)) rows
  | Some effect =>
      if existsb matches rows then
        map (fun o => if matches o
                      then {| o_workspaceId := o_workspaceId o; o_role := o_role o;
                              o_permission := o_permission o; o_effect := effect |}
                      else o) rows
      else
        rows ++ [ {| o_workspaceId := workspaceId; o_role := i_role override;
                     o_permission := i_permission override; o_effect := effect |} ]
  end.

(** PUT /rbac/permissions, for the authenticated user [userId];
    [workspaceId] is [parsed.data.workspaceId ?? resolveWorkspaceId(req)]. *)
Definition put_permissions (db : Directory) (userId : string)
    (workspaceId : option string) (items : list OverrideItem)
  : Directory * Reply PermissionMatrix :=
  if negb (updateOverridesSchema_ok items) then (db, Invalid)
  else
    match Store.truthy workspaceId with
    | None => (db, Failure 400 "workspaceId is required")
    | Some ws =>
        match assertWorkspacePermission db userId ws "rbac:manage" with
        | None => (db, Failure 403 "Workspace access denied")
        | Some access =>
            if negb (authorized access) then
              (db, Failure 403 "Insufficient role permissions")
            else
              match find (fun o => negb (includes ALL_WORKSPACE_PERMISSIONS
                                                  (i_permission o))) items with
              | Some unknown =>
                  (db, Failure 400 ("Unknown workspace permission: "
                                    ++ i_permission unknown)%string)
              | None =>
                  let db' :=
                    {| workspaceMember := workspaceMember db;
                       workspaceRolePermission :=
                         fold_left (apply_override ws) items
                                   (workspaceRolePermission db) |} in
                  (db', Json 200 (buildPermissionMatrix db' ws))
              end
        end
    end.

End Rbac.

(** ** routes/approvals.ts, as the routes are served *)

Module Approvals.
Import Store Workspace.

(** [resolutionSchema]: an optional note of at most 500 characters. *)
Definition resolutionSchema_ok (note : option string) : bool :=
  match note with
  | Some s => Nat.leb (String.length s) 500
  | None => true
  end.

(** POST /approvals/:id/approve and /reject for the authenticated user
    [userId]: the reply, and the store after it. *)
Definition post_resolution (status : ApprovalStatus) (db : Directory) (w : World)
    (userId : string) (approvalId : nat) (note : option string) (now : Z)
  : World * Reply ActionApprovalRequest :=
  if negb (resolutionSchema_ok note) then (w, Invalid)
  else
    match find (fun r => Nat.eqb (a_id r) approvalId) (actionApprovalRequest w) with
    | None => (w, Failure 404 "Approval request not found")
    | Some approval =>
        match assertWorkspacePermission db userId (a_workspaceId approval)
                                        "approvals:manage" with
        | None => (w, Failure 403 "Workspace access denied")
        | Some access =>
            if negb (authorized access) then
              (w, Failure 403 "Insufficient role permissions")
            else if negb (ApprovalStatus_eqb (a_status approval) PENDING) then
              (w, Failure 400 "Approval request is no longer pending")
            else
              (with_approvals w
                 (map (fun r => if Nat.eqb (a_id r) (a_id approval)
                                then ActionService.set_resolution r status userId now note
                                else r)
                      (actionApprovalRequest w))
                 (next_id w),
               Json 200 (ActionService.set_resolution approval status userId now note))
        end
    end.

Definition post_approve := post_resolution APPROVED.

Definition post_reject := post_resolution REJECTED.

(** The query of GET /approvals after [listSchema]: the filters, and the
    page and page size when the query string gives them. *)
Record ListQuery : Type := {
  q_status : option ApprovalStatus;
  q_agentId : option string;
  q_page : option Z;
  q_pageSize : option Z
}.

Record Pagination : Type := {
  page : Z;
  pageSize : Z;
  total : Z;
  totalPages : Z
}.

Record Listing : Type := {
  data : list ActionApprovalRequest;
  pagination : Pagination
}.

(** [orderBy: { requestedAt: 'desc' }]; rows requested at the same instant
    stay in table order. *)
Fixpoint insert_by_requestedAt (r : ActionApprovalRequest)
    (l : list ActionApprovalRequest) : list ActionApprovalRequest :=
  match l with
  | [] => [r]
  | q :: rest =>
      if requestedAt r <=? requestedAt q then q :: insert_by_requestedAt r rest
      else r :: l
  end.

Definition orderBy_requestedAt_desc (l : list ActionApprovalRequest)
  : list ActionApprovalRequest :=
  fold_left (fun acc r => insert_by_requestedAt r acc) l [].

(** The [where] of the listing. *)
Definition listed (workspaceId : string) (query : ListQuery) (r : ActionApprovalRequest)
  : bool :=
  andb (String.eqb (a_workspaceId r) workspaceId)
       (andb (match q_status query with
              | Some s => ApprovalStatus_eqb (a_status r) s
              | None => true
              end)
             (match truthy (q_agentId query) with
              | Some a => String.eqb (a_agentId r) a
              | None => true
              end)).

(** [findMany({ skip, take })] on rows already filtered and ordered. *)
Definition skip_take {A : Type} (skip take : Z) (rows : list A) : list A :=
  firstn (Z.to_nat take) (skipn (Z.to_nat skip) rows).

Definition Math_ceil (x : Q) : Z := Qceiling x.

(** GET /approvals; [workspaceId] is what [resolveWorkspaceId(req)] found. *)
Definition get_approvals (db : Directory) (w : World) (userId : string)
    (workspaceId : option string) (query : ListQuery) : Reply Listing :=
  match truthy workspaceId with
  | None => Failure 400 "workspaceId is required"
  | Some ws =>
      let page_ := nullish (q_page query) 1 in
      let pageSize_ := nullish (q_pageSize query) 25 in
      if negb (andb (1 <=? page_) (andb (1 <=? pageSize_) (pageSize_ <=? 100))) then Invalid
      else
        match assertWorkspacePermission db userId ws "approvals:read" with
        | None => Failure 403 "Workspace access denied"
        | Some access =>
            if negb (authorized access) then Failure 403 "Insufficient role permissions"
            else
              let matching := filter (listed ws query) (actionApprovalRequest w) in
              let skip := (page_ - 1) * pageSize_ in
              let total_ := Z.of_nat (length matching) in
              let approvals :=
                skip_take skip pageSize_ (orderBy_requestedAt_desc matching) in
              Json 200
                {| data := approvals;
                   pagination :=
                     {| page := page_; pageSize := pageSize_; total := total_;
                        totalPages := Math_ceil (inject_Z total_ / inject_Z pageSize_) |} |}
        end
  end.

End Approvals.

(** ** routes/auditLogs.ts: the cells of the CSV export *)

Module AuditLogs.

Definition double_quote : ascii := ascii_of_nat 34.

Definition comma : ascii := ascii_of_nat 44.

Definition newline : ascii := ascii_of_nat 10.

(** [s.includes(c)] for a one-character [c]. *)
Fixpoint includes_char (s : string) (c : ascii) : bool :=
  match s with
  | EmptyString => false
  | String a rest => if Ascii.eqb a c then true else includes_char rest c
  end.

(** The [replace] with the global pattern of one double quote: every
    double quote is written twice. *)
Fixpoint double_quotes (s : string) : string :=
  match s with
  | EmptyString => EmptyString
  | String a rest =>
      if Ascii.eqb a double_quote
      then String double_quote (String double_quote (double_quotes rest))
      else String a (double_quotes rest)
  end.

(** [csvEscape] on the text [String(value ?? '')] of a cell. *)
Definition csvEscape (asString : string) : string :=
  if orb (includes_char asString comma)
         (orb (includes_char asString double_quote) (includes_char asString newline))
  then String double_quote (double_quotes asString ++ String double_quote EmptyString)%string
  else asString.

End AuditLogs.

(** ** A platform for worked examples *)

Module Example.

Definition quote : string := String (ascii_of_nat 34) "".

Definition print_Z (z : Z) : string := DecimalString.NilZero.string_of_int (Z.to_int z).

(** A plain printer of JSON values: strings between quotes, unescaped, and
    a number that is not an integer as a fraction. *)
Fixpoint print (v : json) : string :=
  match v with
  | JNull => "null"
  | JBool true => "true"
  | JBool false => "false"
  | JNum n =>
      match Qden n with
      | xH => print_Z (Qnum n)
      | d => print_Z (Qnum n) ++ "/" ++ print_Z (Zpos d)
      end
  | JStr s => quote ++ s ++ quote
  | JArr items => "[" ++ String.concat "," (map print items) ++ "]"
  | JObj props =>
      "{" ++ String.concat ","
               (map (fun kv => match kv with
                               | (k, x) => quote ++ k ++ quote ++ ":" ++ print x
                               end) props)
          ++ "}"
  end%string.

(** The platform of the examples: the digest of a text is the text itself,
    times print as their millisecond count, only numbers coerce to numbers,
    and every [fetch] resolves. *)
Definition runtime : Runtime :=
  {| sha256_hex := fun s => s;
     JSON_stringify := print;
     toISOString := print_Z;
     Number_finite := fun v => match v with JNum q => Some q | _ => None end;
     fetch_rejects := fun _ => None |}.

End Example.

(** * Properties *)

Unset Implicit Arguments.

(** ** Membership and sets of signals *)

Lemma includes_In (xs : list string) (x : string) :
  includes xs x = true <-> In x xs.
Proof.
  unfold includes. rewrite existsb_exists. split.
  - intros [y [Hy Heq]]. apply String.eqb_eq in Heq. now subst.
  - intros H. exists x. split; [assumption | apply String.eqb_refl].
Qed.

Lemma Set_add_In (s : list string) (x y : string) :
  In y (Set_add s x) <-> In y s \/ y = x.
Proof.
  unfold Set_add. destruct (includes s x) eqn:E.
  - apply includes_In in E. split; [now left | intros [H | ->]; assumption].
  - rewrite in_app_iff. simpl. intuition.
Qed.

Lemma fold_Set_add_In (xs acc : list string) (y : string) :
  In y (fold_left Set_add xs acc) <-> In y acc \/ In y xs.
Proof.
  revert acc. induction xs as [| x xs IH]; intros acc; simpl.
  - intuition.
  - rewrite IH, Set_add_In. intuition.
Qed.

Lemma unique_In (xs : list string) (y : string) :
  In y (unique xs) <-> In y xs.
Proof.
  unfold unique. rewrite fold_Set_add_In. simpl. intuition.
Qed.

(** ** The policy evaluator *)

Module PolicyEngineFacts.
Import PolicyEngine.

Lemma evaluatePolicy_normalized raw ctx rules :
  normalizePolicyRules raw None = Return rules ->
  evaluatePolicy raw ctx =
  (let signals := detect_signals rules ctx in
   if includes (deny_actions rules) (action ctx) then
     Return {| decision := BLOCK; reason := "action_denied_by_policy"; signals := signals |}
   else if includes (deny_tools rules) (tool ctx) then
     Return {| decision := BLOCK; reason := "tool_denied_by_policy"; signals := signals |}
   else
     match mode rules with
     | STRICT =>
         if andb (0 <? Z.of_nat (length (allow_actions rules)))
                 (negb (includes (allow_actions rules) (action ctx))) then
           Return {| decision := BLOCK; reason := "action_not_allowlisted_strict";
                     signals := signals |}
         else if andb (0 <? Z.of_nat (length (allow_tools rules)))
                      (negb (includes (allow_tools rules) (tool ctx))) then
           Return {| decision := BLOCK; reason := "tool_not_allowlisted_strict";
                     signals := signals |}
         else
           Return {| decision := ALLOW; reason := "allowed_by_policy_engine";
                     signals := signals |}
     | BALANCED =>
         Return {| decision := ALLOW; reason := "allowed_by_policy_engine";
                   signals := signals |}
     end).
Proof.
  intros H. unfold evaluatePolicy. rewrite H. reflexivity.
Qed.

(** C1. Deny precedence: for a rule set [rules] (what [normalizePolicyRules]
    returns for the rules passed in) and any request context, an action
    listed in [deny_actions] is blocked with reason
    [action_denied_by_policy], whatever the mode and whatever
    [allow_actions] holds. *)
Theorem deny_precedence (raw : option RawRules) (ctx : PolicyEvaluationContext)
    (rules : PolicyRules) :
  normalizePolicyRules raw None = Return rules ->
  In (action ctx) (deny_actions rules) ->
  evaluatePolicy raw ctx =
  Return {| decision := BLOCK; reason := "action_denied_by_policy";
            signals := detect_signals rules ctx |}.
Proof.
  intros Hnorm Hdeny.
  rewrite (evaluatePolicy_normalized raw ctx rules Hnorm). cbv zeta.
  apply includes_In in Hdeny. rewrite Hdeny. reflexivity.
Qed.

(** Scenario A of the specification: strict mode, [delete] both allowed and
    denied. *)
Definition scenarioA : RawRules :=
  {| raw_mode := Some STRICT;
     raw_allow_actions := Some ["delete"];
     raw_deny_actions := Some ["delete"];
     raw_allow_tools := None; raw_deny_tools := None;
     raw_require_approval_actions := None |}.

Lemma deny_precedence_witness :
  evaluatePolicy (Some scenarioA) {| tool := "crm"; action := "delete"; burstRate := None |}
  = Return {| decision := BLOCK; reason := "action_denied_by_policy";
              signals := ["high_risk_action"] |}.
Proof.
  apply (@deny_precedence (Some scenarioA)
           {| tool := "crm"; action := "delete"; burstRate := None |}
           {| mode := STRICT; allow_actions := ["delete"]; deny_actions := ["delete"];
              allow_tools := []; deny_tools := [];
              require_approval_actions := Some [] |}).
  - reflexivity.
  - simpl. left. reflexivity.
Defined.

(** The deny rule compares the action as it was sent. *)
Lemma denied_iff_listed raw ctx rules :
  normalizePolicyRules raw None = Return rules ->
  ((exists sigs, evaluatePolicy raw ctx =
                 Return {| decision := BLOCK; reason := "action_denied_by_policy";
                           signals := sigs |})
   <-> In (action ctx) (deny_actions rules)).
Proof.
  intros Hnorm. split.
  - intros [sigs H]. rewrite (evaluatePolicy_normalized raw ctx rules Hnorm) in H. cbv zeta in H.
    destruct (includes (deny_actions rules) (action ctx)) eqn:E.
    + now apply includes_In.
    + exfalso.
      destruct (includes (deny_tools rules) (tool ctx)); [discriminate |].
      destruct (mode rules); [| discriminate].
      destruct (andb _ _); [discriminate |].
      destruct (andb _ _); discriminate.
  - intros H. eexists.
    rewrite (evaluatePolicy_normalized raw ctx rules Hnorm). cbv zeta.
    apply includes_In in H. rewrite H. reflexivity.
Qed.

Lemma high_risk_signal_iff rules ctx :
  In "high_risk_action" (detect_signals rules ctx)
  <-> In (toLowerCase (action ctx)) HIGH_RISK_ACTIONS.
Proof.
  unfold detect_signals.
  rewrite <- includes_In with (xs := HIGH_RISK_ACTIONS).
  destruct (includes HIGH_RISK_ACTIONS (toLowerCase (action ctx)));
    destruct (andb _ _); destruct (burstRate ctx) as [b |];
    try destruct (5 <=? b); cbn; intuition congruence.
Qed.

(** The scenarios of the specification and of the unit tests: strict
    allowlisting of actions, then of tools, and an unknown tool under
    balanced mode. *)
Theorem policy_scenarios :
  evaluatePolicy
    (Some {| raw_mode := Some STRICT; raw_allow_actions := Some ["read"];
             raw_deny_actions := None; raw_allow_tools := Some ["kb"];
             raw_deny_tools := None; raw_require_approval_actions := None |})
    {| tool := "x"; action := "write"; burstRate := None |}
  = Return {| decision := BLOCK; reason := "action_not_allowlisted_strict";
              signals := ["unknown_tool"] |}
  /\ evaluatePolicy
       (Some {| raw_mode := Some STRICT; raw_allow_actions := None;
                raw_deny_actions := None; raw_allow_tools := Some ["kb"];
                raw_deny_tools := None; raw_require_approval_actions := None |})
       {| tool := "unknown"; action := "read"; burstRate := None |}
     = Return {| decision := BLOCK; reason := "tool_not_allowlisted_strict";
                 signals := ["unknown_tool"] |}
  /\ evaluatePolicy
       (Some {| raw_mode := Some BALANCED; raw_allow_actions := None;
                raw_deny_actions := None; raw_allow_tools := Some ["kb"];
                raw_deny_tools := None; raw_require_approval_actions := None |})
       {| tool := "unknown"; action := "read"; burstRate := None |}
     = Return {| decision := ALLOW; reason := "allowed_by_policy_engine";
                 signals := ["unknown_tool"] |}.
Proof. repeat split. Qed.

(** Strict mode with both allowlists empty decides as balanced mode does. *)
Theorem strict_with_empty_allowlists (deny_a deny_t approval : option (list string))
    (ctx : PolicyEvaluationContext) :
  evaluatePolicy
    (Some {| raw_mode := Some STRICT; raw_allow_actions := Some [];
             raw_deny_actions := deny_a; raw_allow_tools := Some [];
             raw_deny_tools := deny_t; raw_require_approval_actions := approval |}) ctx
  = evaluatePolicy
      (Some {| raw_mode := Some BALANCED; raw_allow_actions := Some [];
               raw_deny_actions := deny_a; raw_allow_tools := Some [];
               raw_deny_tools := deny_t; raw_require_approval_actions := approval |}) ctx.
Proof.
  unfold evaluatePolicy, normalizePolicyRules, rulesSchema_parse. simpl.
  destruct (parse_string_array deny_a) as [da | e]; simpl; [| reflexivity].
  destruct (parse_string_array deny_t) as [dt | e]; simpl; [| reflexivity].
  destruct (parse_string_array approval) as [ra | e]; simpl; [| reflexivity].
  destruct (includes da (action ctx)); [reflexivity |].
  destruct (includes dt (tool ctx)); reflexivity.
Qed.

End PolicyEngineFacts.

(** ** The risk scorer *)

Module RiskFacts.
Import PolicyEngine Risk.

Lemma bonus_incl (signals signals' : list string) (name : string) (p : Z) :
  incl signals signals' -> 0 <= p ->
  bonus (includes signals name) p <= bonus (includes signals' name) p.
Proof.
  intros Hincl Hp. unfold bonus.
  destruct (includes signals name) eqn:E.
  - apply includes_In in E. apply Hincl in E. apply includes_In in E.
    rewrite E. lia.
  - destruct (includes signals' name); lia.
Qed.

(** A larger set of signals never scores lower. *)
Lemma computeRiskScore_incl signals signals' action decision context :
  incl signals signals' ->
  computeRiskScore signals action decision context
  <= computeRiskScore signals' action decision context.
Proof.
  intros Hincl. unfold computeRiskScore. cbv zeta.
  pose proof (bonus_incl signals signals' "unknown_tool" 20 Hincl ltac:(lia)).
  pose proof (bonus_incl signals signals' "burst_rate" 20 Hincl ltac:(lia)).
  pose proof (bonus_incl signals signals' "behavior_drift" 15 Hincl ltac:(lia)).
  pose proof (bonus_incl signals signals' "off_hours_execution" 10 Hincl ltac:(lia)).
  pose proof (bonus_incl signals signals' "new_action_pattern" 12 Hincl ltac:(lia)).
  lia.
Qed.

Lemma computeRiskScore_range signals action decision context :
  0 <= computeRiskScore signals action decision context <= 100.
Proof. unfold computeRiskScore. cbv zeta. lia. Qed.

(** C6. Risk monotonicity: with the action, the decision and the context
    fixed, a signal added to the signals (pushed onto the array, or added to
    the set the array is made from) never lowers the score, and the score
    always lies between 0 and 100. The signal may be any string, so any
    recognised one. *)
Theorem risk_monotone_and_bounded (signals : list string) (s : string)
    (action : string) (decision : Decision) (context : RiskScoreContext) :
  computeRiskScore signals action decision context
    <= computeRiskScore (signals ++ [s]) action decision context
  /\ computeRiskScore signals action decision context
       <= computeRiskScore (Set_add signals s) action decision context
  /\ 0 <= computeRiskScore signals action decision context <= 100.
Proof.
  split; [| split].
  - apply computeRiskScore_incl. intros x Hx. apply in_or_app. now left.
  - apply computeRiskScore_incl. intros x Hx. apply Set_add_In. now left.
  - apply computeRiskScore_range.
Qed.

(** The test of [risk.test.ts]: unknown tool and burst on a blocked
    high-risk action score at least 80. *)
Example risk_test_anomaly_signals :
  computeRiskScore ["unknown_tool"; "burst_rate"] "transfer_funds" BLOCK no_context = 100.
Proof. reflexivity. Qed.

Lemma requiresHumanApproval_iff action rules :
  requiresHumanApproval action rules = true
  <-> In (toLowerCase action) HIGH_RISK_ACTIONS
      \/ In action (nullish (require_approval_actions rules) []).
Proof.
  unfold requiresHumanApproval.
  rewrite <- !includes_In.
  destruct (includes HIGH_RISK_ACTIONS (toLowerCase action)); intuition congruence.
Qed.

(** [evaluatePolicy] decides [d] with the reason [why] on the raw rules. *)
Definition decided (raw : RawRules) (ctx : PolicyEvaluationContext) (d : Decision)
    (why : string) : Prop :=
  exists sigs,
    evaluatePolicy (Some raw) ctx
    = Return {| PolicyEngine.decision := d; reason := why; signals := sigs |}.

(** A stored rule object with the four lists given. *)
Definition rules_of (m : PolicyMode) (allow_a deny_a allow_t deny_t : list string)
  : RawRules :=
  {| raw_mode := Some m; raw_allow_actions := Some allow_a;
     raw_deny_actions := Some deny_a; raw_allow_tools := Some allow_t;
     raw_deny_tools := Some deny_t; raw_require_approval_actions := None |}.

Lemma includes_not_In (xs : list string) (x : string) :
  ~ In x xs -> includes xs x = false.
Proof.
  intros H. destruct (includes xs x) eqn:E; [| reflexivity].
  apply includes_In in E. contradiction.
Qed.

Lemma nonempty_length (l : list string) (x : string) :
  In x l -> (0 <? Z.of_nat (length l)) = true.
Proof. destruct l; [intros [] | reflexivity]. Qed.

(** Normalization hands the four lists on as they were stored. *)
Lemma normalize_keeps_lists (raw : RawRules) (m : option PolicyMode) (rules : PolicyRules) :
  normalizePolicyRules (Some raw) m = Return rules ->
  deny_actions rules = nullish (raw_deny_actions raw) []
  /\ allow_actions rules = nullish (raw_allow_actions raw) []
  /\ deny_tools rules = nullish (raw_deny_tools raw) []
  /\ allow_tools rules = nullish (raw_allow_tools raw) [].
Proof.
  unfold normalizePolicyRules, rulesSchema_parse, parse_string_array. cbn [nullish].
  destruct (raw_allow_actions raw) as [aa |]; [destruct (forallb string_min1 aa) |];
    cbn [bind]; try discriminate;
    (destruct (raw_deny_actions raw) as [da |]; [destruct (forallb string_min1 da) |];
     cbn [bind]; try discriminate;
     (destruct (raw_allow_tools raw) as [at_ |]; [destruct (forallb string_min1 at_) |];
      cbn [bind]; try discriminate;
      (destruct (raw_deny_tools raw) as [dt |]; [destruct (forallb string_min1 dt) |];
       cbn [bind]; try discriminate;
       (destruct (raw_require_approval_actions raw) as [ra |];
        [destruct (forallb string_min1 ra) |];
        cbn [bind]; try discriminate;
        intros H; injection H as <-; repeat split)))).
Qed.

Lemma nonempty_iff (l : list string) :
  (0 <? Z.of_nat (length l)) = true <-> l <> [].
Proof. destruct l; simpl; split; intros H; try discriminate; try reflexivity; congruence. Qed.

(** Which rule decides, read off the lists. *)
Lemma reason_by_membership (raw : option RawRules) (ctx : PolicyEvaluationContext)
    (rules : PolicyRules) :
  normalizePolicyRules raw None = Return rules ->
  exists res,
    evaluatePolicy raw ctx = Return res
    /\ (reason res = "action_denied_by_policy"
        <-> In (PolicyEngine.action ctx) (deny_actions rules))
    /\ (reason res = "tool_denied_by_policy"
        <-> ~ In (PolicyEngine.action ctx) (deny_actions rules)
            /\ In (tool ctx) (deny_tools rules))
    /\ (reason res = "action_not_allowlisted_strict"
        <-> ~ In (PolicyEngine.action ctx) (deny_actions rules)
            /\ ~ In (tool ctx) (deny_tools rules)
            /\ mode rules = STRICT
            /\ allow_actions rules <> []
            /\ ~ In (PolicyEngine.action ctx) (allow_actions rules))
    /\ (reason res = "tool_not_allowlisted_strict"
        <-> ~ In (PolicyEngine.action ctx) (deny_actions rules)
            /\ ~ In (tool ctx) (deny_tools rules)
            /\ mode rules = STRICT
            /\ (allow_actions rules = []
                \/ In (PolicyEngine.action ctx) (allow_actions rules))
            /\ allow_tools rules <> []
            /\ ~ In (tool ctx) (allow_tools rules)).
Proof.
  intros Hnorm. rewrite (PolicyEngineFacts.evaluatePolicy_normalized raw ctx rules Hnorm).
  cbv zeta.
  pose proof (includes_In (deny_actions rules) (PolicyEngine.action ctx)) as Hda.
  pose proof (includes_In (deny_tools rules) (tool ctx)) as Hdt.
  pose proof (includes_In (allow_actions rules) (PolicyEngine.action ctx)) as Haa.
  pose proof (includes_In (allow_tools rules) (tool ctx)) as Hat.
  pose proof (nonempty_iff (allow_actions rules)) as Haa0.
  pose proof (nonempty_iff (allow_tools rules)) as Hat0.
  assert ((0 <? Z.of_nat (length (allow_actions rules))) = false
          -> allow_actions rules = []) as Haa1
    by (destruct (allow_actions rules); [reflexivity | discriminate]).
  destruct (includes (deny_actions rules) (PolicyEngine.action ctx));
    [eexists; split; [reflexivity |]; cbn [reason];
     intuition (try discriminate; try congruence) |].
  destruct (includes (deny_tools rules) (tool ctx));
    [eexists; split; [reflexivity |]; cbn [reason];
     intuition (try discriminate; try congruence) |].
  destruct (mode rules);
    [| eexists; split; [reflexivity |]; cbn [reason];
       intuition (try discriminate; try congruence)].
  destruct (0 <? Z.of_nat (length (allow_actions rules)));
    destruct (includes (allow_actions rules) (PolicyEngine.action ctx));
    destruct (0 <? Z.of_nat (length (allow_tools rules)));
    destruct (includes (allow_tools rules) (tool ctx));
    cbn [andb negb];
    (eexists; split; [reflexivity |]; cbn [reason];
     intuition (try discriminate; try congruence)).
Qed.

(** The four list rules compare the value as it was sent with the entries
    as they were stored: a value on the list takes the rule, a value that is
    not on it, however close, does not. *)
Lemma list_rules_compare_exactly (l : list string) (listed sent other : string)
    (burst : option Z) :
  forallb string_min1 l = true -> In listed l -> ~ In sent l ->
  let ctx := fun tool_ action_ =>
    {| tool := tool_; PolicyEngine.action := action_; burstRate := burst |} in
  decided (rules_of BALANCED [] l [] []) (ctx other listed) BLOCK "action_denied_by_policy"
  /\ decided (rules_of BALANCED [] l [] []) (ctx other sent) ALLOW "allowed_by_policy_engine"
  /\ decided (rules_of BALANCED [] [] [] l) (ctx listed other) BLOCK "tool_denied_by_policy"
  /\ decided (rules_of BALANCED [] [] [] l) (ctx sent other) ALLOW "allowed_by_policy_engine"
  /\ decided (rules_of STRICT l [] [] []) (ctx other listed) ALLOW "allowed_by_policy_engine"
  /\ decided (rules_of STRICT l [] [] []) (ctx other sent)
             BLOCK "action_not_allowlisted_strict"
  /\ decided (rules_of STRICT [] [] l []) (ctx listed other) ALLOW "allowed_by_policy_engine"
  /\ decided (rules_of STRICT [] [] l []) (ctx sent other)
             BLOCK "tool_not_allowlisted_strict".
Proof.
  intros Hmin Hin Hout. cbv zeta.
  pose proof (proj2 (includes_In l listed) Hin) as Hyes.
  pose proof (includes_not_In l sent Hout) as Hno.
  pose proof (nonempty_length l listed Hin) as Hlen.
  unfold decided, evaluatePolicy, normalizePolicyRules, rulesSchema_parse, rules_of,
    parse_string_array.
  cbn [nullish raw_allow_actions raw_deny_actions raw_allow_tools raw_deny_tools
       raw_require_approval_actions raw_mode forallb bind].
  rewrite Hmin.
  cbn [bind mode allow_actions deny_actions allow_tools deny_tools tool
       PolicyEngine.action].
  rewrite ?Hyes, ?Hno, ?Hlen.
  change (0 <? Z.of_nat (length (@nil string))) with false.
  change (includes [] listed) with false. change (includes [] sent) with false.
  change (includes [] other) with false.
  cbn [andb negb].
  repeat split; eexists; reflexivity.
Qed.

(** C10. The action's case is treated asymmetrically. The signal
    [high_risk_action] and [requiresHumanApproval] test the lower-cased
    action against the high-risk vocabulary. The rules on [deny_actions],
    [allow_actions], [deny_tools] and [allow_tools] compare the action, or
    the tool, exactly as sent with the entries exactly as stored, which
    normalization hands on unchanged: whatever the list, a value that is on
    it is denied (or, under strict mode, let through), and a value that is
    not on it, be it an entry in another case, is not. So the action DELETE
    under rules that deny delete is allowed by the evaluator, carries the
    signal and requires approval; the action delete is blocked by them. *)
Theorem action_case_asymmetry :
  (forall rules ctx,
      In "high_risk_action" (detect_signals rules ctx)
      <-> In (toLowerCase (PolicyEngine.action ctx)) HIGH_RISK_ACTIONS)
  /\ (forall action rules,
         requiresHumanApproval action rules = true
         <-> In (toLowerCase action) HIGH_RISK_ACTIONS
             \/ In action (nullish (require_approval_actions rules) []))
  /\ (forall raw ctx rules,
         normalizePolicyRules raw None = Return rules ->
         ((exists sigs, evaluatePolicy raw ctx =
                        Return {| PolicyEngine.decision := BLOCK;
                                  reason := "action_denied_by_policy";
                                  signals := sigs |})
          <-> In (PolicyEngine.action ctx) (deny_actions rules)))
  /\ (forall raw m rules,
         normalizePolicyRules (Some raw) m = Return rules ->
         deny_actions rules = nullish (raw_deny_actions raw) []
         /\ allow_actions rules = nullish (raw_allow_actions raw) []
         /\ deny_tools rules = nullish (raw_deny_tools raw) []
         /\ allow_tools rules = nullish (raw_allow_tools raw) [])
  /\ (forall raw ctx rules,
         normalizePolicyRules raw None = Return rules ->
         exists res,
           evaluatePolicy raw ctx = Return res
           /\ (reason res = "action_denied_by_policy"
               <-> In (PolicyEngine.action ctx) (deny_actions rules))
           /\ (reason res = "tool_denied_by_policy"
               <-> ~ In (PolicyEngine.action ctx) (deny_actions rules)
                   /\ In (tool ctx) (deny_tools rules))
           /\ (reason res = "action_not_allowlisted_strict"
               <-> ~ In (PolicyEngine.action ctx) (deny_actions rules)
                   /\ ~ In (tool ctx) (deny_tools rules)
                   /\ mode rules = STRICT
                   /\ allow_actions rules <> []
                   /\ ~ In (PolicyEngine.action ctx) (allow_actions rules))
           /\ (reason res = "tool_not_allowlisted_strict"
               <-> ~ In (PolicyEngine.action ctx) (deny_actions rules)
                   /\ ~ In (tool ctx) (deny_tools rules)
                   /\ mode rules = STRICT
                   /\ (allow_actions rules = []
                       \/ In (PolicyEngine.action ctx) (allow_actions rules))
                   /\ allow_tools rules <> []
                   /\ ~ In (tool ctx) (allow_tools rules)))
  /\ (forall (l : list string) (listed sent other : string) (burst : option Z),
         forallb string_min1 l = true -> In listed l -> ~ In sent l ->
         let ctx := fun tool_ action_ =>
           {| tool := tool_; PolicyEngine.action := action_; burstRate := burst |} in
         decided (rules_of BALANCED [] l [] []) (ctx other listed)
                 BLOCK "action_denied_by_policy"
         /\ decided (rules_of BALANCED [] l [] []) (ctx other sent)
                    ALLOW "allowed_by_policy_engine"
         /\ decided (rules_of BALANCED [] [] [] l) (ctx listed other)
                    BLOCK "tool_denied_by_policy"
         /\ decided (rules_of BALANCED [] [] [] l) (ctx sent other)
                    ALLOW "allowed_by_policy_engine"
         /\ decided (rules_of STRICT l [] [] []) (ctx other listed)
                    ALLOW "allowed_by_policy_engine"
         /\ decided (rules_of STRICT l [] [] []) (ctx other sent)
                    BLOCK "action_not_allowlisted_strict"
         /\ decided (rules_of STRICT [] [] l []) (ctx listed other)
                    ALLOW "allowed_by_policy_engine"
         /\ decided (rules_of STRICT [] [] l []) (ctx sent other)
                    BLOCK "tool_not_allowlisted_strict")
  /\ (let raw := rules_of BALANCED [] ["delete"] [] [] in
      let sent := fun action_ =>
        {| tool := "crm"; PolicyEngine.action := action_; burstRate := None |} in
      toLowerCase "DELETE" = "delete"
      /\ evaluatePolicy (Some raw) (sent "DELETE") =
         Return {| PolicyEngine.decision := ALLOW;
                   reason := "allowed_by_policy_engine";
                   signals := ["high_risk_action"] |}
      /\ (forall rules, normalizePolicyRules (Some raw) None = Return rules ->
                        requiresHumanApproval "DELETE" rules = true)
      /\ evaluatePolicy (Some raw) (sent "delete") =
         Return {| PolicyEngine.decision := BLOCK;
                   reason := "action_denied_by_policy";
                   signals := ["high_risk_action"] |}).
Proof.
  split; [| split; [| split; [| split; [| split; [| split]]]]].
  - apply PolicyEngineFacts.high_risk_signal_iff.
  - apply requiresHumanApproval_iff.
  - apply PolicyEngineFacts.denied_iff_listed.
  - apply normalize_keeps_lists.
  - apply reason_by_membership.
  - apply list_rules_compare_exactly.
  - cbv zeta. split; [reflexivity |]. split; [reflexivity |]. split; [| reflexivity].
    intros rules _. reflexivity.
Qed.

(** At lists holding the one entry delete: the entry as stored takes the
    rule, the same word in capitals does not. *)
Lemma action_case_asymmetry_witness :
  decided (rules_of BALANCED [] ["delete"] [] [])
          {| tool := "crm"; PolicyEngine.action := "delete"; burstRate := None |}
          BLOCK "action_denied_by_policy"
  /\ decided (rules_of BALANCED [] ["delete"] [] [])
             {| tool := "crm"; PolicyEngine.action := "DELETE"; burstRate := None |}
             ALLOW "allowed_by_policy_engine"
  /\ decided (rules_of STRICT ["delete"] [] [] [])
             {| tool := "crm"; PolicyEngine.action := "DELETE"; burstRate := None |}
             BLOCK "action_not_allowlisted_strict"
  /\ decided (rules_of BALANCED [] [] [] ["delete"])
             {| tool := "DELETE"; PolicyEngine.action := "crm"; burstRate := None |}
             ALLOW "allowed_by_policy_engine"
  /\ decided (rules_of STRICT [] [] ["delete"] [])
             {| tool := "DELETE"; PolicyEngine.action := "crm"; burstRate := None |}
             BLOCK "tool_not_allowlisted_strict".
Proof.
  destruct action_case_asymmetry as (_ & _ & _ & _ & _ & Hlists & _).
  destruct (Hlists ["delete"] "delete" "DELETE" "crm" None)
    as (H1 & H2 & _ & H4 & _ & H6 & _ & H8).
  - reflexivity.
  - left. reflexivity.
  - intros [E | []]. discriminate.
  - repeat split; assumption.
Defined.

End RiskFacts.

(** ** Sorting keys *)

Module SortFacts.

Lemma leb_iff (a b : string) :
  String.leb a b = true <-> a = b \/ OrderedTypeEx.String_as_OT.lt a b.
Proof.
  unfold String.leb.
  destruct (String.compare a b) eqn:E.
  - apply OrderedTypeEx.String_as_OT.cmp_eq in E. intuition.
  - apply OrderedTypeEx.String_as_OT.cmp_lt in E. intuition.
  - split; [discriminate |].
    intros [-> | Hlt].
    + assert (String.compare b b = Eq) as Hb by now apply OrderedTypeEx.String_as_OT.cmp_eq.
      congruence.
    + apply OrderedTypeEx.String_as_OT.cmp_lt in Hlt. unfold OrderedTypeEx.String_as_OT.cmp in Hlt. congruence.
Qed.

Lemma leb_trans (a b c : string) :
  String.leb a b = true -> String.leb b c = true -> String.leb a c = true.
Proof.
  rewrite !leb_iff. intros [-> | Hab] [-> | Hbc]; auto.
  right. exact (OrderedTypeEx.String_as_OT.lt_trans _ _ _ Hab Hbc).
Qed.

Lemma leb_false (a b : string) :
  String.leb a b = false -> String.leb b a = true.
Proof.
  intros H. destruct (String.leb_total a b) as [H' | H']; congruence.
Qed.

Lemma sort_insert_comm (a b : string) (l : list string) :
  sort_insert a (sort_insert b l) = sort_insert b (sort_insert a l).
Proof.
  induction l as [| c l IH]; simpl.
  - destruct (String.leb a b) eqn:Eab, (String.leb b a) eqn:Eba; try reflexivity.
    + now rewrite (String.leb_antisym _ _ Eab Eba).
    + apply leb_false in Eab. congruence.
  - destruct (String.leb b c) eqn:Ebc, (String.leb a c) eqn:Eac;
      destruct (String.leb a b) eqn:Eab, (String.leb b a) eqn:Eba;
      simpl; rewrite ?Ebc, ?Eac, ?Eab, ?Eba; simpl; rewrite ?Ebc, ?Eac, ?Eab, ?Eba;
      try reflexivity;
      try (now rewrite (String.leb_antisym _ _ Eab Eba));
      try (apply leb_false in Eab; congruence);
      try (rewrite (leb_trans _ _ _ Eab Ebc) in Eac; discriminate);
      try (rewrite (leb_trans _ _ _ Eba Eac) in Ebc; discriminate);
      try (now rewrite IH).
Qed.

(** The sorted array depends only on which keys there are. *)
Lemma Array_sort_Permutation (l1 l2 : list string) :
  Permutation l1 l2 -> Array_sort l1 = Array_sort l2.
Proof.
  unfold Array_sort. induction 1; simpl.
  - reflexivity.
  - now rewrite IHPermutation.
  - apply sort_insert_comm.
  - congruence.
Qed.

Lemma sort_insert_In (x y : string) (l : list string) :
  In y (sort_insert x l) <-> y = x \/ In y l.
Proof.
  induction l as [| c l IH]; simpl.
  - intuition.
  - destruct (String.leb x c); simpl; rewrite ?IH; intuition.
Qed.

Lemma Array_sort_In (y : string) (l : list string) :
  In y (Array_sort l) <-> In y l.
Proof.
  unfold Array_sort. induction l as [| x l IH]; simpl.
  - reflexivity.
  - rewrite sort_insert_In, IH. intuition.
Qed.

End SortFacts.

(** ** Queries on tables *)

Lemma find_append {A : Type} (f : A -> bool) (l1 l2 : list A) :
  find f (l1 ++ l2) = match find f l1 with
                      | Some x => Some x
                      | None => find f l2
                      end.
Proof.
  induction l1 as [| a l1 IH]; simpl; [reflexivity |].
  destruct (f a); [reflexivity | exact IH].
Qed.

(** ** The audit ledger *)

Module HashChainFacts.
Import HashChain.

(** The events of one workspace, in append order. *)
Definition events_of (ws : string) (l : Ledger) : list AuditLogEvent :=
  filter (fun e => String.eqb (workspaceId e) ws) (auditLogEvent l).

(** The hash in front of position [i] of a chain that starts from [seed]:
    the seed, then the stored hash of the event before. *)
Definition running_hash (seed : string) (events : list AuditLogEvent) (i : nat) : string :=
  match i with
  | O => seed
  | S j => match nth_error events j with
           | Some p => hash p
           | None => seed
           end
  end.

Lemma running_hash_cons (seed : string) (e0 e : AuditLogEvent)
    (rest : list AuditLogEvent) (i : nat) :
  nth_error rest i = Some e ->
  running_hash seed (e0 :: rest) (S i) = running_hash (hash e0) rest i.
Proof.
  intros H. destruct i as [| j]; [reflexivity |].
  simpl. destruct (nth_error rest j) eqn:E; [reflexivity |].
  apply nth_error_None in E.
  assert (nth_error rest (S j) = None) as H' by (apply nth_error_None; lia).
  congruence.
Qed.

(** The events, with the one at position [i] changed by [f]. *)
Fixpoint mutate_at (i : nat) (f : AuditLogEvent -> AuditLogEvent)
    (events : list AuditLogEvent) : list AuditLogEvent :=
  match events, i with
  | [], _ => []
  | e :: rest, O => f e :: rest
  | e :: rest, S j => e :: mutate_at j f rest
  end.

(** The hash after the last event. *)
Definition tail_hash (seed : string) (events : list AuditLogEvent) : string :=
  running_hash seed events (length events).

Lemma tail_hash_cons (seed : string) (e : AuditLogEvent) (l : list AuditLogEvent) :
  tail_hash seed (e :: l) = tail_hash (hash e) l.
Proof.
  unfold tail_hash. destruct l as [| a l]; [reflexivity |].
  change (length (e :: a :: l)) with (S (S (length l))).
  change (length (a :: l)) with (S (length l)).
  unfold running_hash.
  change (nth_error (e :: a :: l) (S (length l))) with (nth_error (a :: l) (length l)).
  destruct (nth_error (a :: l) (length l)) eqn:E; [reflexivity |].
  apply nth_error_None in E. simpl in E. lia.
Qed.

Section WithRuntime.
Context {R : Runtime}.

(** The hash [verifyHashChain] recomputes for a stored event. *)
Definition expected_hash (e : AuditLogEvent) : string :=
  computeEventHash (prevHash e) (createEventHashPayload (event_as_input e) (createdAt e)).

(** Sequential appends, each with the clock reading of its call. *)
Definition append_all (l : Ledger) (calls : list (AuditEventInput * Z)) : Ledger :=
  fold_left (fun acc call => fst (appendAuditEvent acc (fst call) (snd call))) calls l.

(** The tail the chain state records for a workspace. *)
Definition recorded_tail (l : Ledger) (ws : string) : string :=
  match findChainState l ws with
  | Some s => lastHash s
  | None => "GENESIS"
  end.

Lemma verifyHashChain_from_cons (seed : string) (e : AuditLogEvent)
    (rest : list AuditLogEvent) :
  verifyHashChain_from seed (e :: rest) = true
  <-> prevHash e = seed /\ hash e = expected_hash e
      /\ verifyHashChain_from (hash e) rest = true.
Proof.
  simpl. fold (expected_hash e).
  destruct (String.eqb_spec (prevHash e) seed) as [Hp | Hp]; simpl.
  - destruct (String.eqb_spec (hash e) (expected_hash e)) as [Hh | Hh]; simpl.
    + intuition.
    + split; [discriminate | intuition].
  - split; [discriminate | intuition].
Qed.

(** [verifyHashChain] is true exactly when every event links to the hash in
    front of it and carries the hash recomputed from its own fields. *)
Lemma verifyHashChain_from_iff (events : list AuditLogEvent) (seed : string) :
  verifyHashChain_from seed events = true
  <-> forall i e, nth_error events i = Some e ->
                  prevHash e = running_hash seed events i /\ hash e = expected_hash e.
Proof.
  revert seed. induction events as [| e0 rest IH]; intros seed.
  - simpl. split; [| reflexivity]. intros _ [| i] e H; discriminate.
  - rewrite verifyHashChain_from_cons, IH. split.
    + intros (Hp & Hh & Hrest) [| i] e Hnth.
      * simpl in Hnth. injection Hnth as <-. now split.
      * simpl in Hnth. destruct (Hrest i e Hnth) as [H1 H2]. split; [| exact H2].
        rewrite H1. symmetry. exact (running_hash_cons seed e0 e rest i Hnth).
    + intros H. destruct (H O e0 eq_refl) as [Hp Hh].
      split; [exact Hp | split; [exact Hh |]].
      intros i e Hnth. destruct (H (S i) e Hnth) as [H1 H2]. split; [| exact H2].
      rewrite H1. exact (running_hash_cons seed e0 e rest i Hnth).
Qed.

Lemma verifyHashChain_from_app (l1 l2 : list AuditLogEvent) (seed : string) :
  verifyHashChain_from seed (l1 ++ l2) = true
  <-> verifyHashChain_from seed l1 = true
      /\ verifyHashChain_from (tail_hash seed l1) l2 = true.
Proof.
  revert seed. induction l1 as [| e l1 IH]; intros seed.
  - simpl. intuition.
  - rewrite <- app_comm_cons, !verifyHashChain_from_cons, IH, tail_hash_cons.
    intuition.
Qed.

Lemma tail_hash_app (l : list AuditLogEvent) (e : AuditLogEvent) (seed : string) :
  tail_hash seed (l ++ [e]) = hash e.
Proof.
  unfold tail_hash. rewrite length_app. simpl. rewrite Nat.add_comm. simpl.
  rewrite nth_error_app2 by lia. now rewrite Nat.sub_diag.
Qed.

(** The hash stamped on an appended event is the one the verifier
    recomputes from the stored row. *)
Lemma appended_event_hash (l : Ledger) (event : AuditEventInput) (now : Z) :
  let e := snd (appendAuditEvent l event now) in
  hash e = expected_hash e
  /\ prevHash e = recorded_tail l (in_workspaceId event)
  /\ workspaceId e = in_workspaceId event.
Proof.
  cbv zeta. unfold appendAuditEvent, expected_hash, recorded_tail. simpl.
  split; [| split]; try reflexivity.
Qed.

Lemma find_upsertChainState (states : list AuditChainState) (ws ws' : string)
    (eventId : nat) (h : string) :
  match find (fun s => String.eqb (cs_workspaceId s) ws')
             (upsertChainState states ws eventId h) with
  | Some s => lastHash s
  | None => "GENESIS"
  end
  = if String.eqb ws ws' then h
    else match find (fun s => String.eqb (cs_workspaceId s) ws') states with
         | Some s => lastHash s
         | None => "GENESIS"
         end.
Proof.
  unfold upsertChainState.
  destruct (existsb (fun s => String.eqb (cs_workspaceId s) ws) states) eqn:Ex.
  - induction states as [| s states IH]; [discriminate |].
    simpl in Ex. simpl.
    destruct (String.eqb_spec (cs_workspaceId s) ws) as [Hs | Hs].
    + simpl. destruct (String.eqb_spec ws ws') as [Hw | Hw].
      * reflexivity.
      * destruct (String.eqb_spec (cs_workspaceId s) ws') as [Hs' | Hs'];
          [congruence |].
        clear IH Ex. induction states as [| s2 states IH2]; simpl.
        -- reflexivity.
        -- destruct (String.eqb_spec (cs_workspaceId s2) ws) as [H2 | H2]; simpl.
           ++ destruct (String.eqb_spec ws ws'); [congruence |].
              destruct (String.eqb_spec (cs_workspaceId s2) ws'); [congruence |].
              exact IH2.
           ++ destruct (String.eqb (cs_workspaceId s2) ws'); [reflexivity | exact IH2].
    + simpl in Ex. specialize (IH Ex).
      destruct (String.eqb_spec (cs_workspaceId s) ws') as [Hs' | Hs'].
      * destruct (String.eqb_spec ws ws'); [congruence | reflexivity].
      * exact IH.
  - rewrite find_append.
    destruct (find (fun s => String.eqb (cs_workspaceId s) ws') states) as [s |] eqn:F.
    + destruct (String.eqb_spec ws ws') as [Hw | Hw]; [| reflexivity].
      exfalso. subst ws'. apply find_some in F. destruct F as [Hin Heq].
      assert (existsb (fun s => String.eqb (cs_workspaceId s) ws) states = true).
      { apply existsb_exists. now exists s. }
      congruence.
    + simpl. destruct (String.eqb ws ws'); reflexivity.
Qed.

Lemma recorded_tail_append (l : Ledger) (event : AuditEventInput) (now : Z) (ws : string) :
  recorded_tail (fst (appendAuditEvent l event now)) ws
  = if String.eqb (in_workspaceId event) ws
    then hash (snd (appendAuditEvent l event now))
    else recorded_tail l ws.
Proof.
  unfold recorded_tail, findChainState at 1. simpl.
  rewrite find_upsertChainState. reflexivity.
Qed.

Lemma events_of_append (l : Ledger) (event : AuditEventInput) (now : Z) (ws : string) :
  events_of ws (fst (appendAuditEvent l event now))
  = if String.eqb (in_workspaceId event) ws
    then events_of ws l ++ [snd (appendAuditEvent l event now)]
    else events_of ws l.
Proof.
  unfold events_of. simpl. rewrite filter_app. simpl.
  destruct (String.eqb (in_workspaceId event) ws); [reflexivity | apply app_nil_r].
Qed.

(** The invariant of the ledger: each workspace's events form a chain the
    verifier accepts, and the chain state records its last hash. *)
Definition chained (l : Ledger) : Prop :=
  forall ws,
    verifyHashChain (events_of ws l) = true
    /\ recorded_tail l ws = tail_hash "GENESIS" (events_of ws l).

Lemma chained_empty : chained empty_ledger.
Proof. intros ws. split; reflexivity. Qed.

Lemma chained_append (l : Ledger) (event : AuditEventInput) (now : Z) :
  chained l -> chained (fst (appendAuditEvent l event now)).
Proof.
  intros Hl ws. destruct (Hl ws) as [Hv Ht].
  rewrite events_of_append, recorded_tail_append.
  destruct (appended_event_hash l event now) as (Hh & Hp & Hw).
  destruct (String.eqb_spec (in_workspaceId event) ws) as [E | E].
  - split.
    + unfold verifyHashChain. apply verifyHashChain_from_app. split; [exact Hv |].
      apply verifyHashChain_from_cons. split; [| split; [exact Hh | reflexivity]].
      rewrite Hp, E. exact Ht.
    + now rewrite tail_hash_app.
  - now split.
Qed.

Lemma chained_append_all (calls : list (AuditEventInput * Z)) (l : Ledger) :
  chained l -> chained (append_all l calls).
Proof.
  revert l. induction calls as [| c calls IH]; intros l Hl; simpl.
  - exact Hl.
  - apply IH, chained_append, Hl.
Qed.

(** A chain built by sequential appends from the empty ledger, to any mix
    of workspaces: in each workspace the first event's [prevHash] is
    GENESIS, every later one's is the hash of the event before, and
    [verifyHashChain] accepts the workspace's events. *)
Lemma appended_chain_verifies (calls : list (AuditEventInput * Z)) (ws : string) :
  let events := events_of ws (append_all empty_ledger calls) in
  verifyHashChain events = true
  /\ forall i e, nth_error events i = Some e ->
                 prevHash e = running_hash "GENESIS" events i.
Proof.
  cbv zeta.
  destruct (chained_append_all calls empty_ledger chained_empty ws) as [Hv _].
  split; [exact Hv |].
  intros i e Hnth. unfold verifyHashChain in Hv.
  rewrite verifyHashChain_from_iff in Hv. exact (proj1 (Hv i e Hnth)).
Qed.

(** Chains built purely by [appendAuditEvent] verify: after any sequence of
    appends from the empty ledger, the events of each workspace start from
    GENESIS, each later event's [prevHash] is the [hash] of the event before
    it, and [verifyHashChain] returns true on them. *)
Theorem sequential_appends_verify (calls : list (AuditEventInput * Z)) (ws : string) :
  let events := events_of ws (append_all empty_ledger calls) in
  verifyHashChain events = true
  /\ (forall e, nth_error events 0 = Some e -> prevHash e = "GENESIS")
  /\ (forall i e1 e2, nth_error events i = Some e1 -> nth_error events (S i) = Some e2 ->
                      prevHash e2 = hash e1).
Proof.
  cbv zeta. destruct (appended_chain_verifies calls ws) as [Hv Hlink].
  split; [exact Hv | split].
  - intros e He. exact (Hlink O e He).
  - intros i e1 e2 H1 H2. rewrite (Hlink (S i) e2 H2). simpl. now rewrite H1.
Qed.

(** *** What the verifier notices *)

Lemma verifyHashChain_from_replaced (events : list AuditLogEvent) (seed : string)
    (i : nat) (e e' : AuditLogEvent) :
  verifyHashChain_from seed events = true ->
  nth_error events i = Some e ->
  (verifyHashChain_from seed (mutate_at i (fun _ => e') events) = true
   <-> prevHash e' = prevHash e /\ hash e' = expected_hash e'
       /\ verifyHashChain_from (hash e') (skipn (S i) events) = true).
Proof.
  revert seed i. induction events as [| e0 rest IH]; intros seed i Hok Hnth.
  - destruct i; discriminate.
  - apply verifyHashChain_from_cons in Hok. destruct Hok as (Hp & Hh & Hrest).
    destruct i as [| j].
    + simpl in Hnth. injection Hnth as ->.
      change (mutate_at 0 (fun _ => e') (e :: rest)) with (e' :: rest).
      change (skipn 1 (e :: rest)) with rest.
      rewrite verifyHashChain_from_cons. rewrite Hp. tauto.
    + simpl in Hnth.
      change (mutate_at (S j) (fun _ => e') (e0 :: rest))
        with (e0 :: mutate_at j (fun _ => e') rest).
      change (skipn (S (S j)) (e0 :: rest)) with (skipn (S j) rest).
      rewrite verifyHashChain_from_cons, (IH (hash e0) j Hrest Hnth). tauto.
Qed.

Lemma verifyHashChain_from_tail (events : list AuditLogEvent) (seed : string)
    (i : nat) (e : AuditLogEvent) :
  verifyHashChain_from seed events = true ->
  nth_error events i = Some e ->
  verifyHashChain_from (hash e) (skipn (S i) events) = true.
Proof.
  revert seed i. induction events as [| e0 rest IH]; intros seed i Hok Hnth.
  - destruct i; discriminate.
  - apply verifyHashChain_from_cons in Hok. destruct Hok as (_ & _ & Hrest).
    destruct i as [| j].
    + simpl in Hnth. injection Hnth as ->. exact Hrest.
    + simpl in Hnth. exact (IH (hash e0) j Hrest Hnth).
Qed.

(** On a chain that verifies, an event replaced by one whose [prevHash]
    differs, or whose stored [hash] is no longer the hash of its fields, is
    noticed: [verifyHashChain] returns false. *)
Theorem replaced_event_is_noticed (events : list AuditLogEvent) (i : nat)
    (e e' : AuditLogEvent) :
  verifyHashChain events = true ->
  nth_error events i = Some e ->
  prevHash e' <> prevHash e \/ hash e' <> expected_hash e' ->
  verifyHashChain (mutate_at i (fun _ => e') events) = false.
Proof.
  unfold verifyHashChain. intros Hok Hnth Hchanged.
  destruct (verifyHashChain_from "GENESIS" (mutate_at i (fun _ => e') events)) eqn:E;
    [| reflexivity].
  apply (verifyHashChain_from_replaced events "GENESIS" i e e' Hok Hnth) in E.
  destruct E as (Hp & Hh & _). tauto.
Qed.

(** On a chain that verifies, a change to the hashed fields of one event
    that leaves its [prevHash] and [hash] as stored goes unnoticed exactly
    when the hash recomputed from the changed fields is the stored one:
    detection of such a change is up to collisions of the hash. *)
Theorem changed_fields_noticed_up_to_collision (events : list AuditLogEvent) (i : nat)
    (e e' : AuditLogEvent) :
  verifyHashChain events = true ->
  nth_error events i = Some e ->
  prevHash e' = prevHash e ->
  hash e' = hash e ->
  (verifyHashChain (mutate_at i (fun _ => e') events) = true
   <-> expected_hash e' = expected_hash e).
Proof.
  unfold verifyHashChain. intros Hok Hnth Hp Hh.
  rewrite (verifyHashChain_from_replaced events "GENESIS" i e e' Hok Hnth).
  pose proof (verifyHashChain_from_tail events "GENESIS" i e Hok Hnth) as Htail.
  pose proof (proj1 (verifyHashChain_from_iff events "GENESIS") Hok) as Hall.
  destruct (Hall i e Hnth) as [_ Hstored].
  rewrite Hh. split.
  - intros (_ & Hexp & _). congruence.
  - intros Hexp. split; [exact Hp | split; [congruence | exact Htail]].
Qed.

(** After any sequence of appends from the empty ledger, the chain state
    of a workspace records the hash of its most recently appended event
    (GENESIS while it has none). *)
Theorem chain_state_records_last_hash (calls : list (AuditEventInput * Z)) (ws : string) :
  recorded_tail (append_all empty_ledger calls) ws
  = tail_hash "GENESIS" (events_of ws (append_all empty_ledger calls)).
Proof.
  exact (proj2 (chained_append_all calls empty_ledger chained_empty ws)).
Qed.

End WithRuntime.

End HashChainFacts.

(** ** Canonical form of payloads *)

Module CanonicalFacts.
Import HashChain.

Section JsonInduction.
Variable P : json -> Prop.
Hypothesis Hnull : P JNull.
Hypothesis Hbool : forall b, P (JBool b).
Hypothesis Hnum : forall n, P (JNum n).
Hypothesis Hstr : forall s, P (JStr s).
Hypothesis Harr : forall items, Forall P items -> P (JArr items).
Hypothesis Hobj : forall props, Forall (fun kv => P (snd kv)) props -> P (JObj props).

Fixpoint json_nested_ind (v : json) : P v :=
  match v with
  | JNull => Hnull
  | JBool b => Hbool b
  | JNum n => Hnum n
  | JStr s => Hstr s
  | JArr items =>
      Harr items ((fix go (l : list json) : Forall P l :=
               match l with
               | [] => Forall_nil P
               | x :: rest => Forall_cons x (json_nested_ind x) (go rest)
               end) items)
  | JObj props =>
      Hobj props ((fix go (l : list (string * json)) : Forall (fun kv => P (snd kv)) l :=
               match l with
               | [] => Forall_nil _
               | kv :: rest =>
                   Forall_cons kv
                     (match kv as p return P (snd p) with
                      | (_, x) => json_nested_ind x
                      end)
                     (go rest)
               end) props)
  end.

End JsonInduction.

(** Two values that are equal as key-value maps: the same scalars, arrays
    equal element by element in order, objects (each with distinct keys)
    holding the same keys with equal values, in whatever insertion order. *)
#[warnings="-register-all"]
Inductive same_map : json -> json -> Prop :=
| same_null : same_map JNull JNull
| same_bool (b : bool) : same_map (JBool b) (JBool b)
| same_num (n : Q) : same_map (JNum n) (JNum n)
| same_str (s : string) : same_map (JStr s) (JStr s)
| same_arr (l1 l2 : list json) :
    Forall2 same_map l1 l2 -> same_map (JArr l1) (JArr l2)
| same_obj (o1 o2 : Obj.t) :
    NoDup (Obj.keys o1) -> NoDup (Obj.keys o2) ->
    (forall k v1, In (k, v1) o1 -> exists v2, In (k, v2) o2 /\ same_map v1 v2) ->
    (forall k v2, In (k, v2) o2 -> exists v1, In (k, v1) o1 /\ same_map v1 v2) ->
    same_map (JObj o1) (JObj o2).

Definition sorted_values (obj : Obj.t) : Obj.t :=
  map (fun kv => match kv with (k, v) => (k, sortObject v) end) obj.

Definition copy_key (sorted : Obj.t) (acc : Obj.t) (key : string) : Obj.t :=
  match Obj.get sorted key with
  | Some v => Obj.set acc key v
  | None => acc
  end.

Lemma sortObject_obj (obj : Obj.t) :
  sortObject (JObj obj)
  = JObj (fold_left (copy_key (sorted_values obj)) (Array_sort (Obj.keys obj)) []).
Proof. reflexivity. Qed.

Lemma get_sorted_values (obj : Obj.t) (key : string) :
  Obj.get (sorted_values obj) key = option_map sortObject (Obj.get obj key).
Proof.
  induction obj as [| [k v] obj IH]; simpl; [reflexivity |].
  destruct (String.eqb k key); [reflexivity | exact IH].
Qed.

Lemma get_In (obj : Obj.t) (key : string) (v : json) :
  NoDup (Obj.keys obj) -> In (key, v) obj -> Obj.get obj key = Some v.
Proof.
  induction obj as [| [k w] obj IH]; simpl; intros Hnd Hin; [contradiction |].
  inversion Hnd as [| ? ? Hnotin Hnd']; subst.
  destruct Hin as [Heq | Hin].
  - injection Heq as -> ->. now rewrite String.eqb_refl.
  - destruct (String.eqb_spec k key) as [-> | Hne].
    + exfalso. apply Hnotin. unfold Obj.keys. apply in_map_iff.
      exists (key, v). now split.
    + now apply IH.
Qed.

Lemma in_keys (obj : Obj.t) (key : string) :
  In key (Obj.keys obj) <-> exists v, In (key, v) obj.
Proof.
  unfold Obj.keys. rewrite in_map_iff. split.
  - intros [[k v] [Hk Hin]]. simpl in Hk. subst. now exists v.
  - intros [v Hin]. exists (key, v). now split.
Qed.

Lemma fold_left_agree {A B : Type} (f g : A -> B -> A) (l : list B) (a : A) :
  (forall acc x, In x l -> f acc x = g acc x) ->
  fold_left f l a = fold_left g l a.
Proof.
  revert a. induction l as [| x l IH]; intros a H; simpl; [reflexivity |].
  rewrite (H a x (or_introl eq_refl)). apply IH.
  intros acc y Hy. apply H. now right.
Qed.

(** [sortObject] erases the insertion order of keys, at every depth. *)
Lemma sortObject_same_map (v1 v2 : json) :
  same_map v1 v2 -> sortObject v1 = sortObject v2.
Proof.
  revert v2. induction v1 as [| b | n | s | items IH | props IH] using json_nested_ind;
    intros v2 Hsame; inversion Hsame; subst; try reflexivity.
  - (* arrays *)
    simpl. f_equal.
    match goal with H : Forall2 same_map items _ |- _ => rename H into HF end.
    clear Hsame. induction HF as [| x y l l' Hxy HF IHF]; [reflexivity |].
    inversion IH; subst. simpl. f_equal; auto.
  - (* objects *)
    match goal with
    | H1 : NoDup (Obj.keys props), H2 : NoDup (Obj.keys ?o2),
      H3 : forall k v1, In (k, v1) props -> _,
      H4 : forall k v2, In (k, v2) ?o2 -> _ |- _ =>
        rename H1 into Hnd1; rename H2 into Hnd2; rename H3 into H12; rename H4 into H21;
        rename o2 into props2
    end.
    rewrite !sortObject_obj. f_equal.
    assert (Permutation (Obj.keys props) (Obj.keys props2)) as Hperm.
    { apply NoDup_Permutation; try assumption.
      intros k. rewrite !in_keys. split.
      - intros [v Hin]. destruct (H12 k v Hin) as (v2 & Hin2 & _). now exists v2.
      - intros [v Hin]. destruct (H21 k v Hin) as (v1 & Hin1 & _). now exists v1. }
    rewrite <- (SortFacts.Array_sort_Permutation _ _ Hperm).
    apply fold_left_agree. intros acc k Hk.
    apply SortFacts.Array_sort_In, in_keys in Hk. destruct Hk as [v1 Hin1].
    destruct (H12 k v1 Hin1) as (v2 & Hin2 & Hv).
    unfold copy_key. rewrite !get_sorted_values.
    rewrite (get_In props k v1 Hnd1 Hin1), (get_In props2 k v2 Hnd2 Hin2). simpl.
    rewrite Forall_forall in IH.
    f_equal. exact (IH (k, v1) Hin1 v2 Hv).
Qed.

(** *** Payloads without a key named [__proto__] *)

(** Values whose objects have distinct keys, none of them [__proto__], at
    every depth. *)
#[warnings="-register-all"]
Inductive plain : json -> Prop :=
| plain_null : plain JNull
| plain_bool (b : bool) : plain (JBool b)
| plain_num (n : Q) : plain (JNum n)
| plain_str (s : string) : plain (JStr s)
| plain_arr (items : list json) : Forall plain items -> plain (JArr items)
| plain_obj (props : Obj.t) :
    NoDup (Obj.keys props) ->
    ~ In "__proto__" (Obj.keys props) ->
    Forall (fun kv => plain (snd kv)) props ->
    plain (JObj props).

Lemma sort_insert_Permutation (x : string) (l : list string) :
  Permutation (sort_insert x l) (x :: l).
Proof.
  induction l as [| y l IH]; simpl; [reflexivity |].
  destruct (String.leb x y); [reflexivity |].
  rewrite IH. apply perm_swap.
Qed.

Lemma Array_sort_is_Permutation (l : list string) : Permutation (Array_sort l) l.
Proof.
  unfold Array_sort. induction l as [| x l IH]; simpl; [reflexivity |].
  rewrite sort_insert_Permutation. now constructor.
Qed.

Lemma has_app_other (acc : Obj.t) (k k' : string) (v : json) :
  Obj.has acc k' = false -> k <> k' -> Obj.has (acc ++ [(k, v)]) k' = false.
Proof.
  unfold Obj.has. induction acc as [| [a w] acc IH]; simpl; intros Hacc Hne.
  - destruct (String.eqb_spec k k'); [contradiction | reflexivity].
  - destruct (String.eqb a k'); [discriminate | now apply IH].
Qed.

(** Copying distinct keys, none of them [__proto__], appends them in order. *)
Lemma fold_copy_key_plain (sorted : Obj.t) (ks : list string) (acc : Obj.t) :
  NoDup ks -> ~ In "__proto__" ks ->
  (forall k, In k ks -> Obj.has acc k = false) ->
  (forall k, In k ks -> exists v, Obj.get sorted k = Some v) ->
  fold_left (copy_key sorted) ks acc
  = acc ++ map (fun k => (k, nullish (Obj.get sorted k) JNull)) ks.
Proof.
  revert acc. induction ks as [| k ks IH]; intros acc Hnd Hproto Hfresh Hget; simpl.
  - now rewrite app_nil_r.
  - inversion Hnd as [| ? ? Hnotin Hnd']; subst.
    destruct (Hget k (or_introl eq_refl)) as [v Hv].
    assert (copy_key sorted acc k = acc ++ [(k, v)]) as ->.
    { unfold copy_key, Obj.set. rewrite Hv, (Hfresh k (or_introl eq_refl)).
      destruct (String.eqb_spec k "__proto__") as [-> | _]; [| reflexivity].
      exfalso. apply Hproto. now left. }
    rewrite IH; try assumption.
    + rewrite Hv. simpl. now rewrite <- app_assoc.
    + intros Hin. apply Hproto. now right.
    + intros k' Hk'. apply has_app_other.
      * apply Hfresh. now right.
      * intros ->. contradiction.
    + intros k' Hk'. apply Hget. now right.
Qed.

Lemma sortObject_plain_obj (props : Obj.t) :
  NoDup (Obj.keys props) -> ~ In "__proto__" (Obj.keys props) ->
  sortObject (JObj props)
  = JObj (map (fun k => (k, nullish (Obj.get (sorted_values props) k) JNull))
              (Array_sort (Obj.keys props))).
Proof.
  intros Hnd Hproto. rewrite sortObject_obj. f_equal.
  rewrite fold_copy_key_plain; [reflexivity | | | |].
  - exact (Permutation_NoDup (Permutation_sym (Array_sort_is_Permutation _)) Hnd).
  - intros Hin. apply Hproto. now apply SortFacts.Array_sort_In.
  - reflexivity.
  - intros k Hk. apply SortFacts.Array_sort_In, in_keys in Hk. destruct Hk as [v Hin].
    rewrite get_sorted_values, (get_In props k v Hnd Hin). now eexists.
Qed.

Lemma map_key_fst (f : string -> json) (ks : list string) :
  map fst (map (fun k => (k, f k)) ks) = ks.
Proof.
  induction ks as [| k ks IH]; simpl; [reflexivity | now rewrite IH].
Qed.

Lemma map_key_values (f g : string -> json) (ks : list string) (k : string) :
  map (fun k => (k, f k)) ks = map (fun k => (k, g k)) ks -> In k ks -> f k = g k.
Proof.
  induction ks as [| a ks IH]; simpl; intros Heq Hin; [contradiction |].
  injection Heq as Hhead Htail. destruct Hin as [-> | Hin]; [exact Hhead | now apply IH].
Qed.

(** Apart from keys named [__proto__], [sortObject] forgets nothing but the
    insertion order: two plain values with the same sorted form are equal
    as key-value maps. *)
Lemma sortObject_injective_on_plain (v1 v2 : json) :
  plain v1 -> plain v2 -> sortObject v1 = sortObject v2 -> same_map v1 v2.
Proof.
  revert v2. induction v1 as [| b | n | s | items IH | props IH] using json_nested_ind;
    intros v2 Hp1 Hp2 Heq; destruct v2 as [| b2 | n2 | s2 | items2 | props2];
    try (simpl in Heq; discriminate).
  - constructor.
  - simpl in Heq. injection Heq as <-. constructor.
  - simpl in Heq. injection Heq as <-. constructor.
  - simpl in Heq. injection Heq as <-. constructor.
  - (* arrays *)
    simpl in Heq. injection Heq as Heq. constructor.
    inversion Hp1 as [| | | | ? Hf1 |]; subst.
    inversion Hp2 as [| | | | ? Hf2 |]; subst.
    clear Hp1 Hp2. revert items2 Heq Hf2.
    induction items as [| x items IHitems]; intros items2 Heq Hf2;
      destruct items2 as [| y items2]; try discriminate; [constructor |].
    simpl in Heq. injection Heq as Hx Hrest.
    inversion IH; subst. inversion Hf1; subst. inversion Hf2; subst.
    constructor; [auto | now apply IHitems].
  - (* objects *)
    inversion Hp1 as [| | | | | ? Hnd1 Hproto1 Hf1]; subst.
    inversion Hp2 as [| | | | | ? Hnd2 Hproto2 Hf2]; subst.
    rewrite (sortObject_plain_obj props Hnd1 Hproto1) in Heq.
    rewrite (sortObject_plain_obj props2 Hnd2 Hproto2) in Heq.
    injection Heq as Heq.
    assert (Array_sort (Obj.keys props) = Array_sort (Obj.keys props2)) as Hkeys.
    { apply (f_equal (map fst)) in Heq. now rewrite !map_key_fst in Heq. }
    rewrite <- Hkeys in Heq.
    assert (forall k, In k (Obj.keys props) <-> In k (Obj.keys props2)) as Hsame.
    { intros k. rewrite <- (SortFacts.Array_sort_In k (Obj.keys props)), Hkeys.
      apply SortFacts.Array_sort_In. }
    assert (forall k v1 v2, In (k, v1) props -> In (k, v2) props2 -> same_map v1 v2)
      as Hvalues.
    { intros k v1 v2 Hin1 Hin2.
      assert (In k (Array_sort (Obj.keys props))) as Hk.
      { apply SortFacts.Array_sort_In, in_keys. now exists v1. }
      pose proof (map_key_values _ _ _ k Heq Hk) as Hv. simpl in Hv.
      rewrite !get_sorted_values in Hv.
      rewrite (get_In props k v1 Hnd1 Hin1), (get_In props2 k v2 Hnd2 Hin2) in Hv.
      simpl in Hv.
      rewrite Forall_forall in IH, Hf1, Hf2.
      exact (IH (k, v1) Hin1 v2 (Hf1 (k, v1) Hin1) (Hf2 (k, v2) Hin2) Hv). }
    constructor; try assumption.
    + intros k v1 Hin1.
      assert (In k (Obj.keys props2)) as Hk2.
      { apply Hsame, in_keys. now exists v1. }
      apply in_keys in Hk2. destruct Hk2 as [v2 Hin2].
      exists v2. split; [exact Hin2 | exact (Hvalues k v1 v2 Hin1 Hin2)].
    + intros k v2 Hin2.
      assert (In k (Obj.keys props)) as Hk1.
      { apply Hsame, in_keys. now exists v2. }
      apply in_keys in Hk1. destruct Hk1 as [v1 Hin1].
      exists v1. split; [exact Hin1 | exact (Hvalues k v1 v2 Hin1 Hin2)].
Qed.

Section WithRuntime.
Context {R : Runtime}.

(** Payloads that are equal as key-value maps canonicalize, and so hash,
    identically: the insertion order of their keys does not matter. *)
Lemma computeEventHash_insertion_order (prevHash : string) (v1 v2 : json) :
  same_map v1 v2 ->
  canonicalize v1 = canonicalize v2
  /\ computeEventHash prevHash v1 = computeEventHash prevHash v2.
Proof.
  intros H. unfold computeEventHash, canonicalize.
  now rewrite (sortObject_same_map v1 v2 H).
Qed.

(** The same, as the property the ledger relies on: whatever the previous
    hash, payloads that are equal as key-value maps get one hash. *)
Theorem hash_ignores_key_insertion_order (prevHash : string) (v1 v2 : json) :
  same_map v1 v2 ->
  computeEventHash prevHash v1 = computeEventHash prevHash v2.
Proof.
  intros H. exact (proj2 (computeEventHash_insertion_order prevHash v1 v2 H)).
Qed.

End WithRuntime.

(** Two plain payloads that are not equal as key-value maps have different
    sorted forms: what is serialized and hashed for them differs. *)
Theorem distinct_payloads_distinct_sorted_forms (v1 v2 : json) :
  plain v1 -> plain v2 -> ~ same_map v1 v2 -> sortObject v1 <> sortObject v2.
Proof.
  intros Hp1 Hp2 Hdiff Heq. apply Hdiff.
  now apply sortObject_injective_on_plain.
Qed.

(** One object written with its keys in two orders, and a third whose
    nested value differs. *)
Definition written_ba : json :=
  JObj [("b", JNum 1); ("a", JObj [("y", JNull); ("x", JArr [JBool true; JStr "s"])])].

Definition written_ab : json :=
  JObj [("a", JObj [("x", JArr [JBool true; JStr "s"]); ("y", JNull)]); ("b", JNum 1)].

Definition written_other : json :=
  JObj [("a", JObj [("x", JArr [JStr "s"; JBool true]); ("y", JNull)]); ("b", JNum 1)].

Ltac prove_plain :=
  repeat (constructor; simpl; try (intuition discriminate)).

Lemma written_ba_plain : plain written_ba.
Proof. unfold written_ba. prove_plain. Qed.

Lemma written_ab_plain : plain written_ab.
Proof. unfold written_ab. prove_plain. Qed.

Lemma written_other_plain : plain written_other.
Proof. unfold written_other. prove_plain. Qed.

Lemma written_same_map : same_map written_ba written_ab.
Proof.
  apply sortObject_injective_on_plain;
    [apply written_ba_plain | apply written_ab_plain | reflexivity].
Qed.

Lemma hash_ignores_key_insertion_order_witness :
  computeEventHash (R := Example.runtime) "GENESIS" written_ba
  = computeEventHash (R := Example.runtime) "GENESIS" written_ab.
Proof.
  apply (@hash_ignores_key_insertion_order Example.runtime "GENESIS"
           written_ba written_ab written_same_map).
Defined.

Lemma distinct_payloads_witness : sortObject written_ab <> sortObject written_other.
Proof.
  apply (distinct_payloads_distinct_sorted_forms written_ab written_other
           written_ab_plain written_other_plain).
  intros H. apply sortObject_same_map in H. discriminate.
Defined.

End CanonicalFacts.

(** ** The forensic replay *)

Module ForensicsFacts.
Import HashChain Forensics.

Definition is_broken (t : TimelineEntry) : bool :=
  match chainIntegrity t with
  | BROKEN => true
  | OK => false
  end.

Lemma timeline_from_entries (events : list AuditLogEvent) (p : option string) :
  map entry (timeline_from p events) = events.
Proof.
  revert p. induction events as [| e rest IH]; intros p; simpl; [reflexivity |].
  now rewrite IH.
Qed.

Lemma failures_from_count (events : list AuditLogEvent) (p : option string) :
  failures_from p events = length (filter is_broken (timeline_from p events)).
Proof.
  revert p. induction events as [| e rest IH]; intros p; simpl; [reflexivity |].
  rewrite IH. unfold is_broken at 2. simpl.
  destruct (prevMatches p e); reflexivity.
Qed.

(** The verdict on the first event of a slice read after [p]. *)
Lemma timeline_from_head (e : AuditLogEvent) (rest : list AuditLogEvent)
    (p : option string) :
  map chainIntegrity (timeline_from p (e :: rest))
  = (if prevMatches p e then OK else BROKEN)
    :: map chainIntegrity (timeline_from (Some (hash e)) rest).
Proof. reflexivity. Qed.

(** An event after the first is BROKEN exactly when its [prevHash] differs
    from the stored hash of the event just before it. *)
Lemma timeline_from_verdict (events : list AuditLogEvent) (p : option string)
    (i : nat) (e : AuditLogEvent) :
  nth_error events i = Some e ->
  exists verdict,
    nth_error (map chainIntegrity (timeline_from p events)) i = Some verdict
    /\ (verdict = BROKEN
        <-> match i with
            | O => exists h, p = Some h /\ prevHash e <> h
            | S j => exists q, nth_error events j = Some q /\ prevHash e <> hash q
            end).
Proof.
  revert p i. induction events as [| e0 rest IH]; intros p i Hnth.
  - destruct i; discriminate.
  - destruct i as [| j].
    + simpl in Hnth. injection Hnth as ->.
      rewrite timeline_from_head. simpl.
      eexists. split; [reflexivity |].
      unfold prevMatches. destruct p as [h |].
      * destruct (String.eqb_spec (prevHash e) h) as [E | E].
        -- split; [discriminate |]. intros (h' & Hh & Hne). congruence.
        -- split; [| reflexivity]. intros _. now exists h.
      * split; [discriminate |]. intros (h' & Hh & _). discriminate.
    + simpl in Hnth. rewrite timeline_from_head.
      destruct (IH (Some (hash e0)) j Hnth) as (verdict & Hv & Hiff).
      exists verdict. split; [exact Hv |].
      rewrite Hiff. destruct j as [| k]; simpl.
      * split.
        -- intros (h & Hh & Hne). injection Hh as <-. now exists e0.
        -- intros (q & Hq & Hne). injection Hq as <-. now exists (hash e0).
      * reflexivity.
Qed.

Section WithRuntime.
Context {R : Runtime}.

(** The verdict on an event with an event before it depends on these two
    events only. *)
Lemma verdict_is_local (before after : list AuditLogEvent) (p e : AuditLogEvent) :
  nth_error (map chainIntegrity (timeline (before ++ p :: e :: after)))
            (S (length before))
  = Some (if String.eqb (prevHash e) (hash p) then OK else BROKEN).
Proof.
  unfold timeline. generalize (@None string).
  induction before as [| b before IH]; intros seed.
  - cbn [app length]. rewrite timeline_from_head. cbn [nth_error].
    rewrite timeline_from_head. reflexivity.
  - cbn [app length]. rewrite timeline_from_head. cbn [nth_error]. apply IH.
Qed.

(** The two checks of the verifier on the event at position [i]: its
    [prevHash] is the running hash (GENESIS, then the stored hash of the
    event before), and its [hash] is the one recomputed from its fields. *)
Definition passes (events : list AuditLogEvent) (i : nat) (e : AuditLogEvent) : Prop :=
  prevHash e = HashChainFacts.running_hash "GENESIS" events i
  /\ hash e = HashChainFacts.expected_hash e.

(** C7, as amended. [verifyHashChain] makes the two checks on each event
    and returns the aggregate pass or fail: true exactly when every event
    passes both. The ordered per-event verdicts and the count of breaks are
    those of the replay timeline: an event after the first whose [prevHash]
    differs from the running hash is marked BROKEN; an event that passes
    both checks is marked OK wherever it stands, so the events before the
    first mismatching one remain OK. An event after a BROKEN one is not
    BROKEN for that reason: the verdict on an event that has an event
    before it is the same in every slice where it follows that event,
    whatever comes earlier or later. [integrityFailures] counts the BROKEN
    entries and [chainStatus] is HEALTHY exactly when the count is 0.
    Nothing is said of an event that links but whose fields do not hash to
    its [hash], nor of a first event that does not start from GENESIS. *)
Theorem chain_verdicts_of_the_code (events : list AuditLogEvent) :
  (verifyHashChain events = true
   <-> forall i e, nth_error events i = Some e -> passes events i e)
  /\ map entry (timeline events) = events
  /\ (forall i e, nth_error events (S i) = Some e ->
        prevHash e <> HashChainFacts.running_hash "GENESIS" events (S i) ->
        nth_error (map chainIntegrity (timeline events)) (S i) = Some BROKEN)
  /\ (forall i e, nth_error events i = Some e -> passes events i e ->
        nth_error (map chainIntegrity (timeline events)) i = Some OK)
  /\ (forall before after p e,
        events = before ++ p :: e :: after ->
        forall before' after',
          nth_error (map chainIntegrity (timeline events)) (S (length before))
          = nth_error (map chainIntegrity (timeline (before' ++ p :: e :: after')))
                      (S (length before')))
  /\ integrityFailures (summary events) = length (filter is_broken (timeline events))
  /\ (chainStatus (summary events) = HEALTHY
      <-> integrityFailures (summary events) = 0%nat).
Proof.
  split; [| split; [| split; [| split; [| split; [| split]]]]].
  - apply HashChainFacts.verifyHashChain_from_iff.
  - apply timeline_from_entries.
  - intros i e Hnth Hne.
    destruct (timeline_from_verdict events None (S i) e Hnth) as (verdict & Hv & Hiff).
    unfold timeline. rewrite Hv. f_equal. apply Hiff.
    destruct (nth_error events i) as [q |] eqn:Hq.
    + exists q. split; [reflexivity |].
      unfold HashChainFacts.running_hash in Hne. now rewrite Hq in Hne.
    + exfalso. apply nth_error_None in Hq.
      assert (nth_error events (S i) <> None) as Hsome by congruence.
      apply nth_error_Some in Hsome. lia.
  - intros i e Hnth [Hlink _].
    destruct (timeline_from_verdict events None i e Hnth) as (verdict & Hv & Hiff).
    unfold timeline. rewrite Hv. f_equal. destruct verdict; [reflexivity | exfalso].
    pose proof (proj1 Hiff eq_refl) as Hx. destruct i as [| j].
    + destruct Hx as (h & Hx & _). discriminate.
    + destruct Hx as (q & Hq & Hne). unfold HashChainFacts.running_hash in Hlink.
      rewrite Hq in Hlink. contradiction.
  - intros before after p e -> before' after'. now rewrite !verdict_is_local.
  - apply failures_from_count.
  - unfold summary. cbn [chainStatus integrityFailures].
    destruct (failures_from None events); simpl; split; congruence.
Qed.

End WithRuntime.

(** Three stored events: the second does not link to the first, the third
    links to the second. *)
Definition stored (n : nat) (prev h : string) : AuditLogEvent :=
  {| id := n; workspaceId := "w1"; agentId := Some "a1"; tool := "kb";
     action := "read"; resource := None; decision := ALLOW; reason := "ok";
     metadata := []; anomalyFlagged := false; prevHash := prev; hash := h;
     createdAt := 0 |}.

Definition broken_slice : list AuditLogEvent :=
  [ stored 1 "GENESIS" "h1"; stored 2 "tampered" "h2"; stored 3 "h2" "h3" ].

(** C7 as stated fails: the second event's [prevHash] is not the hash in
    front of it, yet the event after it is marked OK, and the replay
    counts one break. *)
Lemma later_event_not_marked_broken :
  (exists e1 e2, nth_error broken_slice 0 = Some e1
                 /\ nth_error broken_slice 1 = Some e2
                 /\ prevHash e2 <> hash e1)
  /\ map chainIntegrity (timeline broken_slice) = [OK; BROKEN; OK]
  /\ integrityFailures (summary broken_slice) = 1%nat.
Proof.
  split; [| split]; try reflexivity.
  eexists. eexists. split; [reflexivity |]. split; [reflexivity |].
  simpl. discriminate.
Qed.

End ForensicsFacts.

(** ** Keys named [__proto__] escape the hash *)

Module ProtoKey.
Import HashChain.

(** An event whose metadata holds, under [cfg], an object with an own
    property named [__proto__] (as [JSON.parse] creates it) of value [n]. *)
Definition event_with (n : Z) : AuditEventInput :=
  {| in_workspaceId := "w1";
     in_agentId := Some "a1";
     in_tool := "kb";
     in_action := "read";
     in_resource := Some "doc:1";
     in_decision := ALLOW;
     in_reason := "ok";
     in_metadata := Some [("cfg", JObj [("__proto__", JNum (inject_Z n))])];
     in_anomalyFlagged := Some false;
     in_createdAt := Some 1772064000000 |}.

Definition plain_event (tool_ : string) (t : Z) : AuditEventInput :=
  {| in_workspaceId := "w1";
     in_agentId := Some "a1";
     in_tool := tool_;
     in_action := "read";
     in_resource := None;
     in_decision := ALLOW;
     in_reason := "ok";
     in_metadata := None;
     in_anomalyFlagged := None;
     in_createdAt := Some t |}.

(** The stored event with its [metadata] column overwritten. *)
Definition with_metadata (m : Obj.t) (e : AuditLogEvent) : AuditLogEvent :=
  {| id := id e; workspaceId := workspaceId e; agentId := agentId e; tool := tool e;
     action := action e; resource := resource e; decision := decision e;
     reason := reason e; metadata := m; anomalyFlagged := anomalyFlagged e;
     prevHash := prevHash e; hash := hash e; createdAt := createdAt e |}.

Lemma not_same_map_payloads (R : Runtime) (t : Z) :
  ~ CanonicalFacts.same_map (createEventHashPayload (event_with 1) t)
                            (createEventHashPayload (event_with 2) t).
Proof.
  intros H. inversion H as [| | | | | o1 o2 _ _ H12 _]; subst.
  destruct (H12 "metadata" (JObj [("cfg", JObj [("__proto__", JNum (inject_Z 1))])]))
    as (v2 & Hin & Hsame).
  { simpl. tauto. }
  simpl in Hin.
  repeat (destruct Hin as [Hin | Hin]; [try discriminate |]); try contradiction.
  injection Hin as <-.
  inversion Hsame as [| | | | | o3 o4 _ _ H34 _]; subst.
  destruct (H34 "cfg" (JObj [("__proto__", JNum (inject_Z 1))])) as (v3 & Hin3 & Hsame3).
  { simpl. tauto. }
  simpl in Hin3. destruct Hin3 as [Hin3 | []]. injection Hin3 as <-.
  inversion Hsame3 as [| | | | | o5 o6 _ _ H56 _]; subst.
  destruct (H56 "__proto__" (JNum (inject_Z 1))) as (v4 & Hin4 & Hsame4).
  { simpl. tauto. }
  simpl in Hin4. destruct Hin4 as [Hin4 | []]. injection Hin4 as <-.
  inversion Hsame4.
Qed.

Section WithRuntime.
Context {R : Runtime}.

(** C3 at the failing input. Two payloads that differ in the value stored
    under a key named [__proto__] are not equal as key-value maps, yet
    [sortObject] drops the key (the assignment [acc[key] = ...] reaches the
    setter of [Object.prototype] and creates no own property), so both have
    one canonical string and one hash, whatever SHA-256 does. *)
Theorem computeEventHash_blind_to_proto_key (prevHash : string) (t : Z) :
  let p1 := createEventHashPayload (event_with 1) t in
  let p2 := createEventHashPayload (event_with 2) t in
  p1 <> p2
  /\ ~ CanonicalFacts.same_map p1 p2
  /\ canonicalize p1 = canonicalize p2
  /\ computeEventHash prevHash p1 = computeEventHash prevHash p2.
Proof.
  cbv zeta. split; [| split; [| split]].
  - discriminate.
  - apply not_same_map_payloads.
  - reflexivity.
  - reflexivity.
Qed.

Lemma verifyHashChain_from_same_hashes (l1 l2 : list AuditLogEvent) (seed : string) :
  Forall2 (fun a b => prevHash a = prevHash b /\ hash a = hash b
                      /\ HashChainFacts.expected_hash a = HashChainFacts.expected_hash b)
          l1 l2 ->
  verifyHashChain_from seed l1 = verifyHashChain_from seed l2.
Proof.
  intros H. revert seed. induction H as [| a b l1 l2 (Hp & Hh & He) _ IH]; intros seed.
  - reflexivity.
  - simpl. fold (HashChainFacts.expected_hash a). fold (HashChainFacts.expected_hash b).
    rewrite Hp, Hh, He, IH. reflexivity.
Qed.

(** Three sequential appends to one workspace; the middle event carries the
    metadata of [event_with 1]. *)
Definition three_appends : list AuditLogEvent :=
  auditLogEvent
    (HashChainFacts.append_all empty_ledger
       [ (plain_event "kb" 1772064000000, 1772064000000);
         (event_with 1, 1772064000000);
         (plain_event "db" 1772064060000, 1772064060000) ]).

(** The same rows after the middle event's stored metadata was changed. *)
Definition tampered : list AuditLogEvent :=
  HashChainFacts.mutate_at 1 (with_metadata [("cfg", JObj [("__proto__", JNum (inject_Z 2))])])
            three_appends.

(** C2 at the failing input. The chain of three appended events verifies;
    after the stored [metadata] of the middle event is changed (the value
    under [cfg.__proto__] from 1 to 2) and nothing is recomputed,
    [verifyHashChain] still returns true. *)
Theorem tampered_metadata_still_verifies :
  verifyHashChain three_appends = true
  /\ map metadata tampered <> map metadata three_appends
  /\ map hash tampered = map hash three_appends
  /\ verifyHashChain tampered = true.
Proof.
  assert (verifyHashChain three_appends = true) as Hok.
  { exact (proj1 (HashChainFacts.appended_chain_verifies
                    [ (plain_event "kb" 1772064000000, 1772064000000);
                      (event_with 1, 1772064000000);
                      (plain_event "db" 1772064060000, 1772064060000) ] "w1")). }
  split; [exact Hok | split; [| split]].
  - discriminate.
  - reflexivity.
  - rewrite <- Hok. unfold verifyHashChain.
    apply verifyHashChain_from_same_hashes.
    repeat constructor.
Qed.

End WithRuntime.

End ProtoKey.

(** ** Playbooks *)

Module PlaybookFacts.
Import Store PlaybookService.

(** The URL the NOTIFY_WEBHOOK arm reads from [actionConfig]. *)
Definition webhook_url (actionConfig_ : json) : string :=
  nullish (string_or (config_get actionConfig_ "url") (Some "")) "".

Lemma webhook_url_missing (actionConfig_ : json) :
  config_get actionConfig_ "url" = None -> webhook_url actionConfig_ = "".
Proof. intros H. unfold webhook_url. now rewrite H. Qed.

Section WithRuntime.
Context {R : Runtime}.

Lemma dispatch_webhook_no_url (w : World) (input : PlaybookInput)
    (playbook : WorkspacePlaybook) (now : Z) :
  actionType playbook = "NOTIFY_WEBHOOK" ->
  webhook_url (actionConfig playbook) = "" ->
  dispatch w input playbook now
  = (w, Return "Webhook URL missing in playbook actionConfig").
Proof.
  intros Htype Hurl. unfold dispatch. rewrite Htype. simpl.
  fold (webhook_url (actionConfig playbook)). rewrite Hurl. reflexivity.
Qed.

(** C9, as the code has it. For a NOTIFY_WEBHOOK playbook whose three
    trigger conditions hold and whose [actionConfig] has no [url] (or one
    that is not a non-empty string), the iteration makes no HTTP call and
    records the execution with status EXECUTED and the message
    [Webhook URL missing in playbook actionConfig]. *)
Theorem webhook_without_url_is_recorded_executed (w : World) (input : PlaybookInput)
    (playbook : WorkspacePlaybook) (now : Z) :
  actionType playbook = "NOTIFY_WEBHOOK" ->
  decisionMatch input playbook = true ->
  riskMatch input playbook = true ->
  signalsMatch input playbook = true ->
  webhook_url (actionConfig playbook) = "" ->
  run_playbook input now w playbook
  = record_execution w input playbook EXECUTED
      "Webhook URL missing in playbook actionConfig"
  /\ fetched (run_playbook input now w playbook) = fetched w.
Proof.
  intros Htype Hd Hr Hs Hurl.
  assert (run_playbook input now w playbook
          = record_execution w input playbook EXECUTED
              "Webhook URL missing in playbook actionConfig") as Hrun.
  { unfold run_playbook. rewrite Hd, Hr, Hs. simpl.
    now rewrite (dispatch_webhook_no_url w input playbook now Htype Hurl). }
  split; [exact Hrun |]. rewrite Hrun. reflexivity.
Qed.

End WithRuntime.

(** A webhook playbook without URL, a blocked event of risk 90, and a world
    holding just that playbook. *)
Definition notify_playbook : WorkspacePlaybook :=
  {| pb_id := "pb1"; pb_workspaceId := "w1"; pb_name := "notify"; enabled := true;
     triggerDecision := Some BLOCK; minRiskScore := 50;
     matchSignals := JArr [JStr "burst_rate"];
     actionType := "NOTIFY_WEBHOOK";
     actionConfig := JObj [("secret", JStr "s3")];
     pb_createdAt := 0 |}.

Definition blocked_event : PlaybookInput :=
  {| pi_workspaceId := "w1"; pi_agentId := Some "a1"; pi_eventId := 7%nat;
     pi_decision := BLOCK; pi_riskScore := 90;
     pi_signals := ["burst_rate"; "unknown_tool"];
     pi_tool := "db"; pi_action := "drop"; pi_resource := None; pi_metadata := [] |}.

Definition playbook_world : World :=
  {| ledger := HashChain.empty_ledger; agentActionBaseline := []; policy := [];
     actionApprovalRequest := []; workspacePlaybook := [notify_playbook];
     playbookExecution := []; agent := []; agentApiKey := []; next_id := O;
     fetched := [] |}.

Lemma webhook_without_url_witness :
  run_playbook (R := Example.runtime) blocked_event 5 playbook_world notify_playbook
  = record_execution playbook_world blocked_event notify_playbook EXECUTED
      "Webhook URL missing in playbook actionConfig"
  /\ fetched (run_playbook (R := Example.runtime) blocked_event 5 playbook_world
                           notify_playbook)
     = fetched playbook_world.
Proof.
  apply (@webhook_without_url_is_recorded_executed Example.runtime
           playbook_world blocked_event notify_playbook 5); reflexivity.
Defined.

(** C9 as stated fails: the playbook is enabled, its conditions match the
    event and its [actionConfig] has no [url]; the whole run records one
    execution, whose status is EXECUTED and not FAILED, and calls nothing. *)
Lemma webhook_without_url_not_failed :
  config_get (actionConfig notify_playbook) "url" = None
  /\ map ex_status
         (playbookExecution
            (runPlaybooksForEvent (R := Example.runtime) playbook_world blocked_event 5))
     = [EXECUTED]
  /\ fetched (runPlaybooksForEvent (R := Example.runtime) playbook_world blocked_event 5)
     = [].
Proof. repeat split. Qed.

End PlaybookFacts.

(** ** The approval gate *)

Module ApprovalFacts.
Import Store ActionService.

(** Every approval request carries an id the store has already issued. *)
Definition ids_issued (w : World) : Prop :=
  Forall (fun r => (a_id r < next_id w)%nat) (actionApprovalRequest w).

(** The request [requestId] is used up: its id was issued, and every row
    that bears it has a [consumedAt]. *)
Definition spent (requestId : nat) (w : World) : Prop :=
  (requestId < next_id w)%nat
  /\ forall r, In r (actionApprovalRequest w) -> a_id r = requestId ->
               consumedAt r <> None.

(** From [w1] to [w2] the approval table only received new rows, under
    fresh ids. *)
Definition grows (w1 w2 : World) : Prop :=
  (next_id w1 <= next_id w2)%nat
  /\ exists extra,
       actionApprovalRequest w2 = actionApprovalRequest w1 ++ extra
       /\ Forall (fun r => (next_id w1 <= a_id r)%nat) extra.

Lemma grows_same (w1 w2 : World) :
  actionApprovalRequest w2 = actionApprovalRequest w1 ->
  next_id w2 = next_id w1 ->
  grows w1 w2.
Proof.
  intros Ha Hn. split; [lia |]. exists []. rewrite app_nil_r. now split.
Qed.

Lemma grows_refl (w : World) : grows w w.
Proof. now apply grows_same. Qed.

Lemma grows_trans (w1 w2 w3 : World) : grows w1 w2 -> grows w2 w3 -> grows w1 w3.
Proof.
  intros (Hn1 & x1 & Ha1 & Hf1) (Hn2 & x2 & Ha2 & Hf2).
  split; [lia |]. exists (x1 ++ x2). split.
  - rewrite Ha2, Ha1. now rewrite app_assoc.
  - apply Forall_app. split; [exact Hf1 |].
    eapply Forall_impl; [| exact Hf2]. intros r Hr. cbv beta in Hr. lia.
Qed.

Lemma grows_In (w1 w2 : World) (r : ActionApprovalRequest) :
  grows w1 w2 -> In r (actionApprovalRequest w1) -> In r (actionApprovalRequest w2).
Proof.
  intros (_ & extra & Ha & _) Hin. rewrite Ha. apply in_or_app. now left.
Qed.

Lemma grows_spent (w1 w2 : World) (requestId : nat) :
  grows w1 w2 -> spent requestId w1 -> spent requestId w2.
Proof.
  intros (Hn & extra & Ha & Hf) (Hlt & Hrows). split; [lia |].
  intros r Hin Hid. rewrite Ha in Hin. apply in_app_or in Hin.
  destruct Hin as [Hin | Hin].
  - now apply Hrows.
  - rewrite Forall_forall in Hf. specialize (Hf r Hin). lia.
Qed.

Section WithRuntime.
Context {R : Runtime}.

Lemma dispatch_grows (w : World) (input : PlaybookService.PlaybookInput)
    (playbook : WorkspacePlaybook) (now : Z) :
  grows w (fst (PlaybookService.dispatch w input playbook now)).
Proof.
  unfold PlaybookService.dispatch.
  destruct (String.eqb (actionType playbook) "DISABLE_AGENT").
  { destruct (truthy (PlaybookService.pi_agentId input)); [| apply grows_refl].
    destruct (existsb _ _); simpl; now apply grows_same. }
  destruct (String.eqb (actionType playbook) "REVOKE_ACTIVE_KEYS").
  { destruct (truthy (PlaybookService.pi_agentId input)); simpl; now apply grows_same. }
  destruct (String.eqb (actionType playbook) "CREATE_APPROVAL").
  { destruct (truthy (PlaybookService.pi_agentId input)); [| apply grows_refl].
    unfold grows. simpl. split; [lia |]. eexists. split; [reflexivity |].
    constructor; [simpl; lia | constructor]. }
  destruct (String.eqb (actionType playbook) "NOTIFY_WEBHOOK").
  { destruct (String.eqb _ ""); [apply grows_refl |].
    unfold PlaybookService.executeWebhook.
    destruct (fetch_rejects _); simpl; now apply grows_same. }
  apply grows_refl.
Qed.

Lemma run_playbook_grows (input : PlaybookService.PlaybookInput) (now : Z)
    (w : World) (playbook : WorkspacePlaybook) :
  grows w (PlaybookService.run_playbook input now w playbook).
Proof.
  unfold PlaybookService.run_playbook.
  destruct (orb _ _); [now apply grows_same |].
  pose proof (dispatch_grows w input playbook now) as Hd.
  destruct (PlaybookService.dispatch w input playbook now) as [w' [message | e]];
    simpl in Hd; (eapply grows_trans; [exact Hd | now apply grows_same]).
Qed.

Lemma fold_run_playbook_grows (input : PlaybookService.PlaybookInput) (now : Z)
    (playbooks : list WorkspacePlaybook) (w : World) :
  grows w (fold_left (PlaybookService.run_playbook input now) playbooks w).
Proof.
  revert w. induction playbooks as [| p playbooks IH]; intros w; simpl.
  - apply grows_refl.
  - eapply grows_trans; [apply run_playbook_grows | apply IH].
Qed.

Lemma runPlaybooksForEvent_grows (w : World) (input : PlaybookService.PlaybookInput)
    (now : Z) :
  grows w (PlaybookService.runPlaybooksForEvent w input now).
Proof. apply fold_run_playbook_grows. Qed.

Lemma upsertBaseline_approvals (w : World) (input : EvaluateAndLogInput) (now : Z)
    (baseline : option AgentActionBaseline) (riskScore_ burstRate : Z) :
  grows w (upsertBaseline w input now baseline riskScore_ burstRate).
Proof.
  unfold upsertBaseline. destruct (existsb _ _); now apply grows_same.
Qed.

(** After the gate, the store only adds approval requests. *)
Lemma record_outcome_grows (input : EvaluateAndLogInput) (now : Z)
    (baseline : option AgentActionBaseline) (burstRate : Z) (isOffHours : bool)
    (gated : Gated) :
  grows (g_world gated)
        (fst (record_outcome input now baseline burstRate isOffHours gated)).
Proof.
  unfold record_outcome. cbv zeta. simpl fst.
  eapply grows_trans; [| apply runPlaybooksForEvent_grows].
  eapply grows_trans; [| apply upsertBaseline_approvals].
  now apply grows_same.
Qed.


(** *** Where signals come from *)

Definition policy_signals : list string :=
  ["high_risk_action"; "unknown_tool"; "burst_rate"].

Definition baseline_signal_names : list string :=
  ["behavior_drift"; "new_action_pattern"; "off_hours_execution"].

Lemma detect_signals_vocabulary (rules : PolicyEngine.PolicyRules)
    (ctx : PolicyEngine.PolicyEvaluationContext) :
  incl (PolicyEngine.detect_signals rules ctx) policy_signals.
Proof.
  intros x Hx. unfold PolicyEngine.detect_signals in Hx. unfold policy_signals.
  destruct (includes PolicyEngine.HIGH_RISK_ACTIONS
                     (toLowerCase (PolicyEngine.action ctx)));
    destruct (andb _ _); destruct (PolicyEngine.burstRate ctx) as [b |];
    try destruct (5 <=? b);
    repeat rewrite Set_add_In in Hx; simpl in Hx; simpl; intuition.
Qed.

Lemma evaluatePolicy_signals (raw : option PolicyEngine.RawRules)
    (ctx : PolicyEngine.PolicyEvaluationContext)
    (result : PolicyEngine.PolicyEvaluationResult) :
  PolicyEngine.evaluatePolicy raw ctx = Return result ->
  incl (PolicyEngine.signals result) policy_signals.
Proof.
  unfold PolicyEngine.evaluatePolicy.
  destruct (PolicyEngine.normalizePolicyRules raw None) as [rules | e]; simpl;
    [| discriminate].
  intros H.
  assert (PolicyEngine.signals result = PolicyEngine.detect_signals rules ctx) as ->.
  { destruct (includes (PolicyEngine.deny_actions rules) _);
      [injection H as <-; reflexivity |].
    destruct (includes (PolicyEngine.deny_tools rules) _);
      [injection H as <-; reflexivity |].
    destruct (PolicyEngine.mode rules); [| injection H as <-; reflexivity].
    destruct (andb _ _); [injection H as <-; reflexivity |].
    destruct (andb _ _); injection H as <-; reflexivity. }
  apply detect_signals_vocabulary.
Qed.

Lemma resolve_signals (w : World) (input : EvaluateAndLogInput) (burstRate : Z)
    (resolved : Resolved) :
  resolve w input burstRate = Return resolved ->
  incl (r_signals resolved) policy_signals.
Proof.
  unfold resolve. simpl.
  destruct (truthy (forceBlockReason input)).
  { intros H. injection H as <-. simpl. intros x []. }
  destruct (agent_status (agent_ input)).
  2: { intros H. injection H as <-. simpl. intros x []. }
  match goal with
  | |- bind ?m _ = _ -> _ => destruct m as [pre | e] eqn:Hpre
  end; simpl; [| discriminate].
  assert (r_signals pre = []) as Hnil.
  { destruct (truthy (activePolicyId (agent_ input))) as [pid |];
      [| injection Hpre as <-; reflexivity].
    destruct (findPolicy w pid (workspaceId input)) as [policy_ |];
      [| injection Hpre as <-; reflexivity].
    destruct (PolicyEngine.normalizePolicyRules _ _) as [rules | e]; simpl in Hpre;
      [| discriminate].
    destruct (p_status policy_); injection Hpre as <-; reflexivity. }
  destruct (r_decision pre).
  - destruct (PolicyEngine.evaluatePolicy _ _) as [evaluated | e] eqn:Hev; simpl;
      [| discriminate].
    intros H. injection H as <-. simpl.
    exact (evaluatePolicy_signals _ _ _ Hev).
  - intros H. injection H as <-. rewrite Hnil. intros x [].
Qed.

Lemma baseline_signals_vocabulary (baseline : option AgentActionBaseline)
    (burstRate : Z) (isOffHours : bool) (action_ : string) :
  incl (baseline_signals baseline burstRate isOffHours action_) baseline_signal_names.
Proof.
  intros x Hx. unfold baseline_signals in Hx. unfold baseline_signal_names.
  destruct (andb (5 <=? _) _); destruct (_ <? 3); destruct (andb isOffHours _);
    simpl in Hx; simpl; intuition.
Qed.

(** *** The gate *)

Lemma approved_for_true (ws agentId : string) (requestId : nat) (now : Z)
    (r : ActionApprovalRequest) :
  approved_for ws agentId requestId now r = true
  <-> a_id r = requestId /\ a_workspaceId r = ws /\ a_agentId r = agentId
      /\ a_status r = APPROVED /\ consumedAt r = None /\ now < expiresAt r.
Proof.
  unfold approved_for. rewrite !andb_true_iff.
  rewrite Nat.eqb_eq, !String.eqb_eq, Z.ltb_lt.
  assert (ApprovalStatus_eqb (a_status r) APPROVED = true <-> a_status r = APPROVED)
    as Hstatus.
  { destruct (a_status r); simpl; split; congruence. }
  assert (match consumedAt r with None => true | Some _ => false end = true
          <-> consumedAt r = None) as Hconsumed.
  { destruct (consumedAt r); split; congruence. }
  tauto.
Qed.

(** The three ways through the gate. *)
Inductive GateCase (w : World) (input : EvaluateAndLogInput) (now : Z)
    (decision_ : Decision) (reason_ : string) (signals_ : list string)
    (rules : PolicyEngine.PolicyRules) (gated : Gated) : Prop :=
| gate_skipped :
    andb (Decision_eqb decision_ ALLOW)
         (Risk.requiresHumanApproval (action input) rules) = false ->
    gated = {| g_world := w; g_decision := decision_; g_reason := reason_;
               g_signals := signals_; g_approvalId := None |} ->
    GateCase w input now decision_ reason_ signals_ rules gated
| gate_consumed (requestId : nat) (found : ActionApprovalRequest) :
    decision_ = ALLOW ->
    Risk.requiresHumanApproval (action input) rules = true ->
    approvalRequestId input = Some requestId ->
    find (approved_for (workspaceId input) (agent_id (agent_ input)) requestId now)
         (actionApprovalRequest w) = Some found ->
    gated = {| g_world := with_approvals w
                            (consume (actionApprovalRequest w) (a_id found) now)
                            (next_id w);
               g_decision := ALLOW; g_reason := reason_;
               g_signals := signals_ ++ ["human_approval_consumed"];
               g_approvalId := None |} ->
    GateCase w input now decision_ reason_ signals_ rules gated
| gate_required (created : ActionApprovalRequest) :
    decision_ = ALLOW ->
    Risk.requiresHumanApproval (action input) rules = true ->
    match approvalRequestId input with
    | Some requestId =>
        find (approved_for (workspaceId input) (agent_id (agent_ input)) requestId now)
             (actionApprovalRequest w) = None
    | None => True
    end ->
    a_id created = next_id w ->
    a_status created = PENDING ->
    consumedAt created = None ->
    expiresAt created = now + APPROVAL_TTL_MS ->
    gated = {| g_world := with_approvals w (actionApprovalRequest w ++ [created])
                                         (S (next_id w));
               g_decision := BLOCK; g_reason := "approval_required";
               g_signals := signals_ ++ ["human_approval_required"];
               g_approvalId := Some (next_id w) |} ->
    GateCase w input now decision_ reason_ signals_ rules gated.

Lemma approval_gate_cases (w : World) (input : EvaluateAndLogInput) (now : Z)
    (decision_ : Decision) (reason_ : string) (signals_ : list string)
    (rules : PolicyEngine.PolicyRules) :
  GateCase w input now decision_ reason_ signals_ rules
           (approval_gate w input now decision_ reason_ signals_ rules).
Proof.
  unfold approval_gate.
  destruct (andb (Decision_eqb decision_ ALLOW)
                 (Risk.requiresHumanApproval (action input) rules)) eqn:Hcond.
  2: { now apply gate_skipped. }
  apply andb_true_iff in Hcond. destruct Hcond as [Hd Hreq].
  assert (decision_ = ALLOW) as -> by (destruct decision_; [reflexivity | discriminate]).
  destruct (approvalRequestId input) as [requestId |] eqn:Hid.
  - destruct (find _ (actionApprovalRequest w)) as [found |] eqn:Hfind.
    + eapply gate_consumed; [reflexivity | exact Hreq | exact Hid | exact Hfind |].
      reflexivity.
    + eapply gate_required;
        [reflexivity | exact Hreq | rewrite Hid; exact Hfind | | | | | reflexivity];
        reflexivity.
  - eapply gate_required;
      [reflexivity | exact Hreq | rewrite Hid; exact I | | | | | reflexivity];
      reflexivity.
Qed.


(** *** One evaluation, taken apart *)

(** [burstRate] and [isOffHours] as the evaluation computes them. *)
Definition burst_of (w : World) (input : EvaluateAndLogInput) (now : Z) : Z :=
  count_recent w (workspaceId input) (agent_id (agent_ input)) (now - 60000).

Definition off_hours (now : Z) : bool :=
  orb (getUTCHours now <? 5) (20 <? getUTCHours now).

Definition baseline_of (w : World) (input : EvaluateAndLogInput)
  : option AgentActionBaseline :=
  findBaseline w (agent_id (agent_ input)) (tool input) (action input).

(** The gate as the evaluation calls it, given what [resolve] returned. *)
Definition gate_of (w : World) (input : EvaluateAndLogInput) (now : Z)
    (resolved : Resolved) : Gated :=
  approval_gate w input now (r_decision resolved) (r_reason resolved)
    (r_signals resolved
     ++ baseline_signals (baseline_of w input) (burst_of w input now) (off_hours now)
                         (action input))
    (r_rules resolved).

Lemma evaluate_resolved (w : World) (input : EvaluateAndLogInput) (now : Z)
    (resolved : Resolved) :
  resolve w input (burst_of w input now) = Return resolved ->
  evaluateAndLogAction w input now
  = Return (record_outcome input now (baseline_of w input) (burst_of w input now)
                           (off_hours now) (gate_of w input now resolved)).
Proof.
  intros H. unfold evaluateAndLogAction. cbv zeta.
  fold (burst_of w input now). rewrite H. reflexivity.
Qed.

Lemma evaluate_inv (w : World) (input : EvaluateAndLogInput) (now : Z)
    (w' : World) (res : Evaluation) :
  evaluateAndLogAction w input now = Return (w', res) ->
  exists resolved,
    resolve w input (burst_of w input now) = Return resolved
    /\ (w', res) = record_outcome input now (baseline_of w input) (burst_of w input now)
                                  (off_hours now) (gate_of w input now resolved).
Proof.
  intros H.
  destruct (resolve w input (burst_of w input now)) as [resolved | e] eqn:Hres.
  - exists resolved. split; [reflexivity |].
    rewrite (evaluate_resolved w input now resolved Hres) in H. congruence.
  - exfalso. unfold evaluateAndLogAction in H. cbv zeta in H.
    fold (burst_of w input now) in H. rewrite Hres in H. discriminate.
Qed.

Lemma evaluate_result (w : World) (input : EvaluateAndLogInput) (now : Z)
    (w' : World) (res : Evaluation) :
  evaluateAndLogAction w input now = Return (w', res) ->
  exists resolved,
    resolve w input (burst_of w input now) = Return resolved
    /\ decision res = g_decision (gate_of w input now resolved)
    /\ reason res = g_reason (gate_of w input now resolved)
    /\ signals res = unique (g_signals (gate_of w input now resolved))
    /\ res_approvalRequestId res = g_approvalId (gate_of w input now resolved)
    /\ grows (g_world (gate_of w input now resolved)) w'.
Proof.
  intros H. destruct (evaluate_inv w input now w' res H) as (resolved & Hres & Hout).
  exists resolved. split; [exact Hres |].
  pose proof (record_outcome_grows input now (baseline_of w input) (burst_of w input now)
                (off_hours now) (gate_of w input now resolved)) as Hg.
  rewrite <- Hout in Hg. simpl in Hg.
  assert (res = snd (record_outcome input now (baseline_of w input)
                       (burst_of w input now) (off_hours now)
                       (gate_of w input now resolved))) as ->
    by now rewrite <- Hout.
  repeat split; try reflexivity; apply Hg.
Qed.

(** The signals in front of the gate never include an approval signal. *)
Lemma no_approval_signal_before_gate (w : World) (input : EvaluateAndLogInput) (now : Z)
    (resolved : Resolved) (name : string) :
  resolve w input (burst_of w input now) = Return resolved ->
  ~ In name policy_signals -> ~ In name baseline_signal_names ->
  ~ In name (r_signals resolved
             ++ baseline_signals (baseline_of w input) (burst_of w input now)
                                 (off_hours now) (action input)).
Proof.
  intros Hres Hp Hb Hin. apply in_app_or in Hin. destruct Hin as [Hin | Hin].
  - apply Hp. exact (resolve_signals w input _ resolved Hres name Hin).
  - apply Hb. exact (baseline_signals_vocabulary _ _ _ _ name Hin).
Qed.

(** *** A request that was consumed stays consumed *)

Lemma consume_rows (rs : list ActionApprovalRequest) (requestId : nat) (t : Z)
    (r' : ActionApprovalRequest) :
  In r' (consume rs requestId t) ->
  exists r, In r rs /\ a_id r' = a_id r
            /\ (r' = r /\ a_id r <> requestId
                \/ r' = set_consumedAt r t /\ a_id r = requestId).
Proof.
  unfold consume. rewrite in_map_iff. intros (r & Heq & Hin). exists r.
  split; [exact Hin |]. destruct (Nat.eqb_spec (a_id r) requestId) as [E | E]; subst r'.
  - split; [reflexivity |]. right. now split.
  - split; [reflexivity |]. left. now split.
Qed.

Lemma spent_after_consume (w : World) (found : ActionApprovalRequest) (now : Z) :
  ids_issued w -> In found (actionApprovalRequest w) ->
  spent (a_id found)
        (with_approvals w (consume (actionApprovalRequest w) (a_id found) now)
                        (next_id w)).
Proof.
  intros Hids Hin. split; simpl.
  - unfold ids_issued in Hids. rewrite Forall_forall in Hids. exact (Hids found Hin).
  - intros r' Hin' Hid.
    destruct (consume_rows _ _ _ _ Hin') as (r & _ & Hsame & [[-> Hne] | [-> _]]).
    + congruence.
    + simpl. discriminate.
Qed.

Lemma spent_find_none (w : World) (ws agentId : string) (requestId : nat) (now : Z) :
  spent requestId w ->
  find (approved_for ws agentId requestId now) (actionApprovalRequest w) = None.
Proof.
  intros [_ Hrows].
  destruct (find _ _) as [found |] eqn:Hfind; [| reflexivity].
  apply find_some in Hfind. destruct Hfind as [Hin Hok].
  apply approved_for_true in Hok. destruct Hok as (Hid & _ & _ & _ & Hnone & _).
  exfalso. exact (Hrows found Hin Hid Hnone).
Qed.

Lemma spent_through_gate (w : World) (input : EvaluateAndLogInput) (now : Z)
    (decision_ : Decision) (reason_ : string) (signals_ : list string)
    (rules : PolicyEngine.PolicyRules) (requestId : nat) :
  spent requestId w ->
  spent requestId (g_world (approval_gate w input now decision_ reason_ signals_ rules)).
Proof.
  intros Hspent. destruct Hspent as [Hlt Hrows].
  destruct (approval_gate_cases w input now decision_ reason_ signals_ rules)
    as [_ -> | id found _ _ _ _ -> | created _ _ _ Hcid _ _ _ ->]; simpl.
  - now split.
  - split; [exact Hlt |]. simpl. intros r' Hin' Hid.
    destruct (consume_rows _ _ _ _ Hin') as (r & Hin & Hsame & [[-> Hne] | [-> _]]).
    + now apply Hrows.
    + simpl. discriminate.
  - split; simpl; [lia |]. intros r Hin Hid.
    apply in_app_or in Hin. destruct Hin as [Hin | [<- | []]].
    + now apply Hrows.
    + lia.
Qed.

Lemma spent_through_evaluation (w : World) (input : EvaluateAndLogInput) (now : Z)
    (w' : World) (res : Evaluation) (requestId : nat) :
  evaluateAndLogAction w input now = Return (w', res) ->
  spent requestId w -> spent requestId w'.
Proof.
  intros H Hspent.
  destruct (evaluate_result w input now w' res H) as (resolved & _ & _ & _ & _ & _ & Hg).
  apply (grows_spent _ _ _ Hg). unfold gate_of. now apply spent_through_gate.
Qed.

Lemma spent_through_resolution (status : ApprovalStatus) (w : World) (target : nat)
    (authorized : bool) (user : string) (note : option string) (now : Z)
    (requestId : nat) :
  spent requestId w ->
  spent requestId (resolve_request status w target authorized user note now).
Proof.
  intros [Hlt Hrows]. unfold resolve_request.
  destruct (find _ _) as [approval |]; [| now split].
  destruct authorized; simpl; [| now split].
  destruct (negb _); [now split |].
  split; [exact Hlt |]. simpl. intros r' Hin' Hid.
  apply in_map_iff in Hin'. destruct Hin' as (r & Heq & Hin).
  destruct (Nat.eqb (a_id r) (a_id approval)); subst r'.
  - simpl in *. now apply (Hrows r Hin).
  - now apply Hrows.
Qed.

Lemma spent_through_serve (w : World) (request : Request) (requestId : nat) :
  spent requestId w -> spent requestId (serve w request).
Proof.
  intros Hspent. destruct request as [input now | | ]; simpl.
  - destruct (evaluateAndLogAction w input now) as [[w' res] | e] eqn:H.
    + exact (spent_through_evaluation w input now w' res requestId H Hspent).
    + exact Hspent.
  - now apply spent_through_resolution.
  - now apply spent_through_resolution.
Qed.

Lemma spent_through_run (requests : list Request) (w : World) (requestId : nat) :
  spent requestId w -> spent requestId (run w requests).
Proof.
  revert w. induction requests as [| q requests IH]; intros w Hspent; simpl.
  - exact Hspent.
  - apply IH. now apply spent_through_serve.
Qed.

(** Nothing is consumed from a spent request. *)
Lemma spent_not_consumed (w : World) (input : EvaluateAndLogInput) (now : Z)
    (w' : World) (res : Evaluation) (requestId : nat) :
  spent requestId w ->
  approvalRequestId input = Some requestId ->
  evaluateAndLogAction w input now = Return (w', res) ->
  ~ In "human_approval_consumed" (signals res).
Proof.
  intros Hspent Hid H Hin.
  destruct (evaluate_result w input now w' res H)
    as (resolved & Hres & _ & _ & Hsig & _ & _).
  rewrite Hsig, unique_In in Hin. unfold gate_of in Hin.
  pose proof (no_approval_signal_before_gate w input now resolved
                "human_approval_consumed" Hres) as Hbefore.
  destruct (approval_gate_cases w input now (r_decision resolved) (r_reason resolved)
              (r_signals resolved
               ++ baseline_signals (baseline_of w input) (burst_of w input now)
                    (off_hours now) (action input))
              (r_rules resolved))
    as [_ Hg | id found _ _ Hid' Hfind Hg | created _ _ _ _ _ _ _ Hg];
    rewrite Hg in Hin; simpl in Hin.
  - apply Hbefore; [| | exact Hin]; simpl; intuition discriminate.
  - rewrite Hid in Hid'. injection Hid' as <-.
    rewrite (spent_find_none w _ _ requestId now Hspent) in Hfind. discriminate.
  - apply in_app_or in Hin. destruct Hin as [Hin | [Hin | []]]; [| discriminate].
    apply Hbefore; [| | exact Hin]; simpl; intuition discriminate.
Qed.


(** Calls served one after the other consume an approved request at most
    once (calls that overlap do not: see [OverlappingCalls]). Whenever an
    evaluation emits [human_approval_consumed], its decision is ALLOW and
    the supplied id names a request of the same workspace and agent that was
    APPROVED, not yet consumed and not yet expired ([now] before
    [expiresAt]); that request is stored with [consumedAt] set to [now];
    and after any further requests (evaluations, approvals, rejections) no
    evaluation bearing the same id consumes it again. The ids in the table
    are ids the store has issued. *)
Theorem approval_consumed_at_most_once (w : World) (input : EvaluateAndLogInput)
    (now : Z) (w' : World) (res : Evaluation) :
  ids_issued w ->
  evaluateAndLogAction w input now = Return (w', res) ->
  In "human_approval_consumed" (signals res) ->
  decision res = ALLOW
  /\ exists requestId r,
       approvalRequestId input = Some requestId
       /\ In r (actionApprovalRequest w)
       /\ a_id r = requestId
       /\ a_workspaceId r = workspaceId input
       /\ a_agentId r = agent_id (agent_ input)
       /\ a_status r = APPROVED
       /\ consumedAt r = None
       /\ now < expiresAt r
       /\ In (set_consumedAt r now) (actionApprovalRequest w')
       /\ forall (later : list Request) (input2 : EvaluateAndLogInput) (now2 : Z)
                 (w2 : World) (res2 : Evaluation),
            approvalRequestId input2 = Some requestId ->
            evaluateAndLogAction (run w' later) input2 now2 = Return (w2, res2) ->
            ~ In "human_approval_consumed" (signals res2).
Proof.
  intros Hids H Hin.
  destruct (evaluate_result w input now w' res H)
    as (resolved & Hres & Hdec & _ & Hsig & _ & Hg).
  rewrite Hsig, unique_In in Hin. unfold gate_of in *.
  pose proof (no_approval_signal_before_gate w input now resolved
                "human_approval_consumed" Hres) as Hbefore.
  destruct (approval_gate_cases w input now (r_decision resolved) (r_reason resolved)
              (r_signals resolved
               ++ baseline_signals (baseline_of w input) (burst_of w input now)
                    (off_hours now) (action input))
              (r_rules resolved))
    as [_ Hgate | requestId found _ _ Hid Hfind Hgate | created _ _ _ _ _ _ _ Hgate];
    rewrite Hgate in *; simpl in Hin, Hdec, Hg.
  - exfalso. apply Hbefore; [| | exact Hin]; simpl; intuition discriminate.
  - split; [exact Hdec |].
    apply find_some in Hfind. destruct Hfind as [Hfound Hok].
    apply approved_for_true in Hok.
    destruct Hok as (Hfid & Hws & Hag & Hst & Hnone & Hexp).
    exists requestId, found. repeat (split; [assumption |]). split.
    + apply (grows_In _ _ _ Hg). simpl. unfold consume. apply in_map_iff.
      exists found. split; [| exact Hfound]. now rewrite Nat.eqb_refl.
    + intros later input2 now2 w2 res2 Hid2 H2.
      apply (spent_not_consumed (run w' later) input2 now2 w2 res2 requestId);
        [| exact Hid2 | exact H2].
      apply spent_through_run. apply (grows_spent _ _ _ Hg).
      rewrite <- Hfid. now apply spent_after_consume.
  - exfalso. apply in_app_or in Hin. destruct Hin as [Hin | [Hin | []]];
      [| discriminate].
    apply Hbefore; [| | exact Hin]; simpl; intuition discriminate.
Qed.


(** *** An approved request that has expired *)

(** The same input, with no approval id supplied. *)
Definition without_approval (input : EvaluateAndLogInput) : EvaluateAndLogInput :=
  {| workspaceId := workspaceId input;
     agent_ := agent_ input;
     tool := tool input;
     action := action input;
     resource := resource input;
     metadata := metadata input;
     forceBlockReason := forceBlockReason input;
     approvalRequestId := None;
     requestedBy_ := requestedBy_ input |}.

Lemma NoDup_map_injective {A B : Type} (f : A -> B) (l : list A) (x y : A) :
  NoDup (map f l) -> In x l -> In y l -> f x = f y -> x = y.
Proof.
  induction l as [| a l IH]; simpl; intros Hnd Hx Hy Hf; [contradiction |].
  inversion Hnd as [| ? ? Hnotin Hnd']; subst.
  destruct Hx as [-> | Hx], Hy as [-> | Hy].
  - reflexivity.
  - exfalso. apply Hnotin. rewrite Hf. now apply in_map.
  - exfalso. apply Hnotin. rewrite <- Hf. now apply in_map.
  - now apply IH.
Qed.

Lemma expired_find_none (w : World) (ws agentId : string) (requestId : nat) (now : Z)
    (r : ActionApprovalRequest) :
  NoDup (map a_id (actionApprovalRequest w)) ->
  In r (actionApprovalRequest w) -> a_id r = requestId -> expiresAt r <= now ->
  find (approved_for ws agentId requestId now) (actionApprovalRequest w) = None.
Proof.
  intros Hnd Hin Hid Hexp.
  destruct (find _ _) as [found |] eqn:Hfind; [| reflexivity].
  apply find_some in Hfind. destruct Hfind as [Hfound Hok].
  apply approved_for_true in Hok. destruct Hok as (Hfid & _ & _ & _ & _ & Hlt).
  assert (found = r) as ->.
  { apply (NoDup_map_injective a_id (actionApprovalRequest w)); congruence. }
  lia.
Qed.

Lemma gate_without_usable_approval (w : World) (input : EvaluateAndLogInput) (now : Z)
    (decision_ : Decision) (reason_ : string) (signals_ : list string)
    (rules : PolicyEngine.PolicyRules) (requestId : nat) :
  approvalRequestId input = Some requestId ->
  find (approved_for (workspaceId input) (agent_id (agent_ input)) requestId now)
       (actionApprovalRequest w) = None ->
  approval_gate w input now decision_ reason_ signals_ rules
  = approval_gate w (without_approval input) now decision_ reason_ signals_ rules.
Proof.
  intros Hid Hfind. unfold approval_gate. rewrite Hid, Hfind. reflexivity.
Qed.

Lemma evaluate_without_usable_approval (w : World) (input : EvaluateAndLogInput)
    (now : Z) (requestId : nat) :
  approvalRequestId input = Some requestId ->
  find (approved_for (workspaceId input) (agent_id (agent_ input)) requestId now)
       (actionApprovalRequest w) = None ->
  evaluateAndLogAction w input now
  = evaluateAndLogAction w (without_approval input) now.
Proof.
  intros Hid Hfind.
  change (resolve w (without_approval input)) with (resolve w input).
  destruct (resolve w input (burst_of w input now)) as [resolved | e] eqn:Hres.
  - rewrite (evaluate_resolved w input now resolved Hres).
    rewrite (evaluate_resolved w (without_approval input) now resolved Hres).
    unfold gate_of.
    rewrite (gate_without_usable_approval w input now _ _ _ _ requestId Hid Hfind).
    reflexivity.
  - unfold evaluateAndLogAction. cbv zeta.
    change (resolve w (without_approval input)) with (resolve w input).
    fold (burst_of w input now).
    change (count_recent w (workspaceId (without_approval input))
              (agent_id (agent_ (without_approval input))) (now - 60000))
      with (burst_of w input now).
    rewrite Hres. reflexivity.
Qed.

(** C5. An APPROVED request whose [expiresAt] is not after [now] is never
    consumed by an evaluation bearing its id ([id] is the key of the table):
    the evaluation is the one the same input yields with no id supplied,
    emits no [human_approval_consumed], and leaves the expired request as it
    was, still APPROVED. Where the action is otherwise allowed and requires
    approval, the result is BLOCK with reason [approval_required] and the
    signal [human_approval_required], and a fresh PENDING request, whose id
    is returned, expires [APPROVAL_TTL_MS] from now. *)
Theorem expired_approval_not_consumable (w : World) (input : EvaluateAndLogInput)
    (now : Z) (requestId : nat) (r : ActionApprovalRequest) :
  NoDup (map a_id (actionApprovalRequest w)) ->
  In r (actionApprovalRequest w) ->
  a_id r = requestId ->
  a_status r = APPROVED ->
  expiresAt r <= now ->
  approvalRequestId input = Some requestId ->
  evaluateAndLogAction w input now = evaluateAndLogAction w (without_approval input) now
  /\ (forall w' res,
         evaluateAndLogAction w input now = Return (w', res) ->
         ~ In "human_approval_consumed" (signals res)
         /\ In r (actionApprovalRequest w'))
  /\ (forall resolved,
         resolve w input
                 (count_recent w (workspaceId input) (agent_id (agent_ input))
                               (now - 60000))
         = Return resolved ->
         r_decision resolved = ALLOW ->
         Risk.requiresHumanApproval (action input) (r_rules resolved) = true ->
         exists w' res,
           evaluateAndLogAction w input now = Return (w', res)
           /\ decision res = BLOCK
           /\ reason res = "approval_required"
           /\ In "human_approval_required" (signals res)
           /\ res_approvalRequestId res = Some (next_id w)
           /\ exists created,
                In created (actionApprovalRequest w')
                /\ a_id created = next_id w
                /\ a_status created = PENDING
                /\ consumedAt created = None
                /\ expiresAt created = now + APPROVAL_TTL_MS).
Proof.
  intros Hnd Hin Hid Hst Hexp Hsup.
  pose proof (expired_find_none w (workspaceId input) (agent_id (agent_ input))
                requestId now r Hnd Hin Hid Hexp) as Hfind.
  split; [| split].
  - exact (evaluate_without_usable_approval w input now requestId Hsup Hfind).
  - intros w' res H.
    destruct (evaluate_result w input now w' res H)
      as (resolved & Hres & _ & _ & Hsig & _ & Hg).
    unfold gate_of in *.
    pose proof (no_approval_signal_before_gate w input now resolved
                  "human_approval_consumed" Hres) as Hbefore.
    destruct (approval_gate_cases w input now (r_decision resolved) (r_reason resolved)
                (r_signals resolved
                 ++ baseline_signals (baseline_of w input) (burst_of w input now)
                      (off_hours now) (action input))
                (r_rules resolved))
      as [_ Hgate | id found _ _ Hid' Hfind' Hgate | created _ _ _ _ _ _ _ Hgate];
      rewrite Hgate in *; simpl in Hsig, Hg.
    + split.
      * rewrite Hsig, unique_In. intros Hc.
        apply Hbefore; [| | exact Hc]; simpl; intuition discriminate.
      * now apply (grows_In _ _ _ Hg).
    + exfalso. rewrite Hsup in Hid'. injection Hid' as <-. congruence.
    + split.
      * rewrite Hsig, unique_In. intros Hc.
        apply in_app_or in Hc. destruct Hc as [Hc | [Hc | []]]; [| discriminate].
        apply Hbefore; [| | exact Hc]; simpl; intuition discriminate.
      * apply (grows_In _ _ _ Hg). simpl. apply in_or_app. now left.
  - intros resolved Hres Hallow Hreq. fold (burst_of w input now) in Hres.
    pose proof (evaluate_resolved w input now resolved Hres) as Hev.
    destruct (record_outcome input now (baseline_of w input) (burst_of w input now)
                (off_hours now) (gate_of w input now resolved)) as [w' res] eqn:Hout.
    exists w', res. split; [exact Hev |].
    destruct (evaluate_result w input now w' res Hev)
      as (resolved' & Hres' & Hdec & Hreason & Hsig & Happ & Hg).
    assert (resolved' = resolved) as -> by congruence.
    unfold gate_of in *.
    destruct (approval_gate_cases w input now (r_decision resolved) (r_reason resolved)
                (r_signals resolved
                 ++ baseline_signals (baseline_of w input) (burst_of w input now)
                      (off_hours now) (action input))
                (r_rules resolved))
      as [Hskip Hgate | id found _ _ Hid' Hfind' Hgate
          | created _ _ _ Hcid Hcst Hcc Hcexp Hgate].
    + rewrite Hallow, Hreq in Hskip. discriminate.
    + exfalso. rewrite Hsup in Hid'. injection Hid' as <-. congruence.
    + rewrite Hgate in *. simpl in Hdec, Hreason, Hsig, Happ, Hg.
      repeat (split; [assumption |]). split.
      * rewrite Hsig, unique_In. apply in_or_app. right. now left.
      * split; [exact Happ |]. exists created.
        split; [| now repeat split].
        apply (grows_In _ _ _ Hg). simpl. apply in_or_app. right. now left.
Qed.

(** *** When [behavior_drift] is emitted *)

Lemma Qpositive_iff (a : Q) : Risk.Qpositive a = true <-> (0 < a)%Q.
Proof.
  unfold Risk.Qpositive. rewrite negb_true_iff. split.
  - intros H. apply Qnot_le_lt. intros Hle. apply Qle_bool_iff in Hle. congruence.
  - intros H. destruct (Qle_bool a 0) eqn:E; [| reflexivity].
    apply Qle_bool_iff in E. exfalso. exact (Qlt_not_le _ _ H E).
Qed.

Lemma baseline_drift_iff (baseline : option AgentActionBaseline) (burstRate : Z)
    (isOffHours : bool) (action_ : string) :
  In "behavior_drift" (baseline_signals baseline burstRate isOffHours action_)
  <-> exists b,
        baseline = Some b
        /\ 5 <= sampleCount b
        /\ (0 < avgPerMinute b)%Q
        /\ (2 <= inject_Z burstRate / Risk.Math_max 1 (avgPerMinute b))%Q.
Proof.
  unfold baseline_signals.
  set (avg := match baseline with Some b => avgPerMinute b | None => 0%Q end).
  set (count := match baseline with Some b => sampleCount b | None => 0 end).
  assert (In "behavior_drift"
             ((if andb (5 <=? count) (Risk.Qgeb (burstMultiplier avg burstRate) 2)
               then ["behavior_drift"] else [])
              ++ (if count <? 3 then ["new_action_pattern"] else [])
              ++ (if andb isOffHours
                          (includes PolicyEngine.HIGH_RISK_ACTIONS (toLowerCase action_))
                  then ["off_hours_execution"] else []))
          <-> andb (5 <=? count) (Risk.Qgeb (burstMultiplier avg burstRate) 2) = true)
    as Hin.
  { destruct (andb (5 <=? count) _); destruct (count <? 3); destruct (andb isOffHours _);
      simpl; intuition discriminate. }
  rewrite Hin, andb_true_iff, Z.leb_le. unfold Risk.Qgeb, burstMultiplier.
  split.
  - intros [Hcount Hm]. destruct baseline as [b |]; [| simpl in count; lia].
    exists b. split; [reflexivity |]. split; [exact Hcount |].
    subst avg. destruct (Risk.Qpositive (avgPerMinute b)) eqn:Hpos.
    + split; [now apply Qpositive_iff | now apply Qle_bool_iff].
    + discriminate.
  - intros (b & -> & Hcount & Hpos & Hm). subst avg count. split; [exact Hcount |].
    apply Qpositive_iff in Hpos. rewrite Hpos. now apply Qle_bool_iff.
Qed.

(** C8, as the code has it. An evaluation emits [behavior_drift] exactly
    when the baseline read before the update exists with [sampleCount] at
    least 5, its [avgPerMinute] is positive, and [burstRate] divided by
    [max(1, avgPerMinute)] is at least 2. With an average of zero the
    multiplier is taken to be 1 and the signal is not emitted. *)
Theorem behavior_drift_iff (w : World) (input : EvaluateAndLogInput) (now : Z)
    (w' : World) (res : Evaluation) :
  evaluateAndLogAction w input now = Return (w', res) ->
  (In "behavior_drift" (signals res)
   <-> exists b,
         findBaseline w (agent_id (agent_ input)) (tool input) (action input) = Some b
         /\ 5 <= sampleCount b
         /\ (0 < avgPerMinute b)%Q
         /\ (2 <= inject_Z (count_recent w (workspaceId input) (agent_id (agent_ input))
                                         (now - 60000))
                  / Risk.Math_max 1 (avgPerMinute b))%Q).
Proof.
  intros H.
  destruct (evaluate_result w input now w' res H)
    as (resolved & Hres & _ & _ & Hsig & _ & _).
  rewrite Hsig, unique_In.
  rewrite <- (baseline_drift_iff (baseline_of w input) (burst_of w input now)
                (off_hours now) (action input)).
  assert (~ In "behavior_drift" (r_signals resolved)) as Hpolicy.
  { intros Hin. apply (resolve_signals w input _ resolved Hres) in Hin.
    simpl in Hin. intuition discriminate. }
  unfold gate_of.
  destruct (approval_gate_cases w input now (r_decision resolved) (r_reason resolved)
              (r_signals resolved
               ++ baseline_signals (baseline_of w input) (burst_of w input now)
                    (off_hours now) (action input))
              (r_rules resolved))
    as [_ Hgate | id found _ _ _ _ Hgate | created _ _ _ _ _ _ _ Hgate];
    rewrite Hgate; simpl; rewrite ?in_app_iff; simpl; intuition discriminate.
Qed.

End WithRuntime.


Section Consumption.
Context {R : Runtime}.

Lemma find_finds {A : Type} (f : A -> bool) (l : list A) (x : A) :
  In x l -> f x = true -> exists y, find f l = Some y.
Proof.
  induction l as [| a l IH]; simpl; intros Hin Hf; [contradiction |].
  destruct (f a) eqn:E; [now exists a |].
  destruct Hin as [-> | Hin]; [congruence | now apply IH].
Qed.

(** The gate lets a valid approval through: when the action is otherwise
    allowed and requires approval, and the supplied id names a request of
    the same workspace and agent that is APPROVED, unconsumed and unexpired,
    the evaluation returns ALLOW with the reason it had, emits
    [human_approval_consumed] and creates no new request. *)
Theorem valid_approval_is_consumed (w : World) (input : EvaluateAndLogInput) (now : Z)
    (requestId : nat) (r : ActionApprovalRequest) (resolved : Resolved) :
  resolve w input
          (count_recent w (workspaceId input) (agent_id (agent_ input)) (now - 60000))
  = Return resolved ->
  r_decision resolved = ALLOW ->
  Risk.requiresHumanApproval (action input) (r_rules resolved) = true ->
  approvalRequestId input = Some requestId ->
  In r (actionApprovalRequest w) ->
  a_id r = requestId ->
  a_workspaceId r = workspaceId input ->
  a_agentId r = agent_id (agent_ input) ->
  a_status r = APPROVED ->
  consumedAt r = None ->
  now < expiresAt r ->
  exists w' res,
    evaluateAndLogAction w input now = Return (w', res)
    /\ decision res = ALLOW
    /\ reason res = r_reason resolved
    /\ In "human_approval_consumed" (signals res)
    /\ res_approvalRequestId res = None
    /\ length (actionApprovalRequest (g_world (gate_of w input now resolved)))
       = length (actionApprovalRequest w).
Proof.
  intros Hres Hallow Hreq Hid Hin Hrid Hws Hag Hst Hnone Hexp.
  fold (burst_of w input now) in Hres.
  pose proof (evaluate_resolved w input now resolved Hres) as Hev.
  destruct (record_outcome input now (baseline_of w input) (burst_of w input now)
              (off_hours now) (gate_of w input now resolved)) as [w' res] eqn:Hout.
  exists w', res. split; [exact Hev |].
  destruct (evaluate_result w input now w' res Hev)
    as (resolved' & Hres' & Hdec & Hreason & Hsig & Happ & _).
  assert (resolved' = resolved) as -> by congruence.
  assert (approved_for (workspaceId input) (agent_id (agent_ input)) requestId now r
          = true) as Hok.
  { apply approved_for_true. repeat split; assumption. }
  destruct (find_finds _ _ r Hin Hok) as [found Hfound].
  unfold gate_of in *.
  destruct (approval_gate_cases w input now (r_decision resolved) (r_reason resolved)
              (r_signals resolved
               ++ baseline_signals (baseline_of w input) (burst_of w input now)
                    (off_hours now) (action input))
              (r_rules resolved))
    as [Hskip Hgate | id found' _ _ Hid' Hfind' Hgate | created _ _ Hnone' _ _ _ _ Hgate].
  - rewrite Hallow, Hreq in Hskip. discriminate.
  - rewrite Hgate in *. simpl in Hdec, Hreason, Hsig, Happ. simpl.
    repeat (split; [assumption |]). split.
    + rewrite Hsig, unique_In. apply in_or_app. right. now left.
    + split; [exact Happ |]. unfold consume. apply length_map.
  - exfalso. rewrite Hid in Hnone'. congruence.
Qed.

End Consumption.

(** *** Worked examples *)

Definition agent_a1 : AgentRef :=
  {| agent_id := "a1"; agent_status := ACTIVE; activePolicyId := None |}.

(** The agent a1 of workspace w1 asks to run [action_] on the tool db. *)
Definition act (action_ : string) (approval : option nat) : EvaluateAndLogInput :=
  {| workspaceId := "w1"; agent_ := agent_a1; tool := "db"; action := action_;
     resource := None; metadata := None; forceBlockReason := None;
     approvalRequestId := approval; requestedBy_ := None |}.

(** An APPROVED, unconsumed request of that agent to delete. *)
Definition approved_request (n : nat) (expires : Z) : ActionApprovalRequest :=
  {| a_id := n; a_workspaceId := "w1"; a_agentId := "a1"; a_tool := "db";
     a_action := "delete"; a_resource := None; a_metadata := [];
     a_status := APPROVED; a_riskScore := 0; requestedBy := "SYSTEM";
     requestedAt := 0; expiresAt := expires; resolvedByUserId := Some "u1";
     resolvedAt := Some 10; resolutionNote := None; consumedAt := None |}.

Definition empty_world : World :=
  {| ledger := HashChain.empty_ledger; agentActionBaseline := []; policy := [];
     actionApprovalRequest := []; workspacePlaybook := []; playbookExecution := [];
     agent := []; agentApiKey := []; next_id := O; fetched := [] |}.

Definition world_with_request (r : ActionApprovalRequest) : World :=
  with_approvals empty_world [r] (S (a_id r)).

Lemma approval_consumed_witness :
  exists w' res,
    evaluateAndLogAction (R := Example.runtime)
      (world_with_request (approved_request 0 2000)) (act "delete" (Some 0%nat)) 1000
    = Return (w', res)
    /\ decision res = ALLOW
    /\ In (set_consumedAt (approved_request 0 2000) 1000) (actionApprovalRequest w')
    /\ forall w2 res2,
         evaluateAndLogAction (R := Example.runtime) w' (act "delete" (Some 0%nat)) 1001
         = Return (w2, res2) ->
         ~ In "human_approval_consumed" (signals res2).
Proof.
  destruct (evaluateAndLogAction (R := Example.runtime)
              (world_with_request (approved_request 0 2000))
              (act "delete" (Some 0%nat)) 1000) as [[w' res] | e] eqn:H;
    [| vm_compute in H; discriminate].
  assert (In "human_approval_consumed" (signals res)) as Hin.
  { pose proof H as H0. vm_compute in H0. injection H0 as _ <-. simpl. tauto. }
  assert (ids_issued (world_with_request (approved_request 0 2000))) as Hids.
  { repeat constructor. }
  destruct (@approval_consumed_at_most_once Example.runtime
              (world_with_request (approved_request 0 2000))
              (act "delete" (Some 0%nat)) 1000 w' res Hids H Hin)
    as (Hdec & requestId & r & Hid & Hr & _ & _ & _ & _ & _ & _ & Hstored & Hlater).
  exists w', res. split; [reflexivity |]. split; [exact Hdec |].
  injection Hid as <-. destruct Hr as [<- | []]. split; [exact Hstored |].
  intros w2 res2 H2. exact (Hlater [] (act "delete" (Some 0%nat)) 1001 w2 res2 eq_refl H2).
Defined.

Lemma expired_approval_witness :
  evaluateAndLogAction (R := Example.runtime)
    (world_with_request (approved_request 0 500)) (act "delete" (Some 0%nat)) 1000
  = evaluateAndLogAction (R := Example.runtime)
      (world_with_request (approved_request 0 500)) (act "delete" None) 1000
  /\ exists w' res,
       evaluateAndLogAction (R := Example.runtime)
         (world_with_request (approved_request 0 500)) (act "delete" (Some 0%nat)) 1000
       = Return (w', res)
       /\ decision res = BLOCK
       /\ reason res = "approval_required"
       /\ res_approvalRequestId res = Some 1%nat
       /\ In (approved_request 0 500) (actionApprovalRequest w').
Proof.
  destruct (@expired_approval_not_consumable Example.runtime
              (world_with_request (approved_request 0 500))
              (act "delete" (Some 0%nat)) 1000 0%nat (approved_request 0 500))
    as (Hsame & Hnot & Hblock).
  - simpl. repeat constructor. simpl. tauto.
  - simpl. tauto.
  - reflexivity.
  - reflexivity.
  - simpl. lia.
  - reflexivity.
  - split; [exact Hsame |].
    destruct (Hblock {| r_decision := ALLOW; r_reason := "allowed_by_policy_engine";
                        r_signals := ["high_risk_action"];
                        r_rules := {| PolicyEngine.mode := BALANCED;
                                      PolicyEngine.allow_actions := [];
                                      PolicyEngine.deny_actions := [];
                                      PolicyEngine.allow_tools := [];
                                      PolicyEngine.deny_tools := [];
                                      PolicyEngine.require_approval_actions := Some [] |}
                     |})
      as (w' & res & H & Hdec & Hreason & _ & Hid & _).
    + reflexivity.
    + reflexivity.
    + reflexivity.
    + exists w', res. repeat (split; [assumption |]).
      exact (proj2 (Hnot w' res H)).
Defined.

(** A baseline of five samples averaging one call a minute, and two events
    of the agent within the last minute. *)
Definition recent_event (n : nat) (t : Z) : HashChain.AuditLogEvent :=
  {| HashChain.id := n; HashChain.workspaceId := "w1"; HashChain.agentId := Some "a1";
     HashChain.tool := "db"; HashChain.action := "read"; HashChain.resource := None;
     HashChain.decision := ALLOW; HashChain.reason := "allowed_by_policy_engine";
     HashChain.metadata := []; HashChain.anomalyFlagged := false;
     HashChain.prevHash := "GENESIS"; HashChain.hash := "h"; HashChain.createdAt := t |}.

Definition world_with_baseline (avg : Q) : World :=
  with_baselines
    (with_ledger empty_world
       {| HashChain.auditLogEvent := [recent_event 0 990000; recent_event 1 995000];
          HashChain.auditChainState := [];
          HashChain.ledger_next_id := 2%nat |})
    [ {| b_workspaceId := "w1"; b_agentId := "a1"; b_tool := "db"; b_action := "read";
         avgRiskScore := 5; avgPerMinute := avg; sampleCount := 5;
         lastSeenAt := Some 0 |} ].

Lemma behavior_drift_witness :
  exists w' res,
    evaluateAndLogAction (R := Example.runtime) (world_with_baseline 1) (act "read" None)
                         1000000
    = Return (w', res)
    /\ In "behavior_drift" (signals res).
Proof.
  destruct (evaluateAndLogAction (R := Example.runtime) (world_with_baseline 1)
              (act "read" None) 1000000) as [[w' res] | e] eqn:H;
    [| vm_compute in H; discriminate].
  exists w', res. split; [reflexivity |].
  apply (@behavior_drift_iff Example.runtime (world_with_baseline 1) (act "read" None)
           1000000 w' res H).
  eexists. split; [reflexivity |]. simpl.
  split; [lia |]. split; [reflexivity |]. apply Qle_bool_iff. reflexivity.
Defined.

(** C8 as stated fails where the baseline's average is zero: the baseline
    has five samples and [burstRate / max(1, 0)] is 2, yet the evaluation
    emits no [behavior_drift]. *)
Lemma drift_not_emitted_at_zero_average :
  exists b w' res,
    findBaseline (world_with_baseline 0) "a1" "db" "read" = Some b
    /\ 5 <= sampleCount b
    /\ (avgPerMinute b == 0)%Q
    /\ (2 <= inject_Z (count_recent (world_with_baseline 0) "w1" "a1" (1000000 - 60000))
             / Risk.Math_max 1 (avgPerMinute b))%Q
    /\ evaluateAndLogAction (R := Example.runtime) (world_with_baseline 0)
                            (act "read" None) 1000000
       = Return (w', res)
    /\ ~ In "behavior_drift" (signals res).
Proof.
  eexists. eexists. eexists.
  split; [reflexivity |]. split; [simpl; lia |]. split; [reflexivity |].
  split; [apply Qle_bool_iff; reflexivity |].
  split; [vm_compute; reflexivity |].
  simpl. intuition discriminate.
Qed.

Lemma valid_approval_witness :
  exists w' res,
    evaluateAndLogAction (R := Example.runtime)
      (world_with_request (approved_request 0 2000)) (act "delete" (Some 0%nat)) 1000
    = Return (w', res)
    /\ decision res = ALLOW
    /\ In "human_approval_consumed" (signals res).
Proof.
  destruct (@valid_approval_is_consumed Example.runtime
              (world_with_request (approved_request 0 2000))
              (act "delete" (Some 0%nat)) 1000 0%nat (approved_request 0 2000)
              {| r_decision := ALLOW; r_reason := "allowed_by_policy_engine";
                 r_signals := ["high_risk_action"];
                 r_rules := {| PolicyEngine.mode := BALANCED;
                               PolicyEngine.allow_actions := [];
                               PolicyEngine.deny_actions := [];
                               PolicyEngine.allow_tools := [];
                               PolicyEngine.deny_tools := [];
                               PolicyEngine.require_approval_actions := Some [] |} |})
    as (w' & res & H & Hdec & _ & Hin & _);
    try reflexivity.
  - simpl. tauto.
  - exists w', res. now repeat split.
Defined.

End ApprovalFacts.

(** ** Overlapping evaluations and the approval they share *)

Module OverlappingCalls.
Import Store ActionService Interleaving.

Section WithRuntime.
Context {R : Runtime}.

Lemma outcome_after_same_clock (s : Suspended) (now : Z) (gated : Gated) :
  s_started s = now ->
  outcome_after s now gated
  = record_outcome (s_input s) now (s_baseline s) (s_burstRate s) (s_isOffHours s) gated.
Proof. intros <-. reflexivity. Qed.

Lemma update_consumedAt_found (w : World) (requestId : nat) (t : Z) :
  (exists r, In r (actionApprovalRequest w) /\ a_id r = requestId) ->
  update_consumedAt w requestId t
  = Return (with_approvals w (consume (actionApprovalRequest w) requestId t) (next_id w)).
Proof.
  intros (r & Hin & Hid). unfold update_consumedAt.
  assert (existsb (fun r0 => Nat.eqb (a_id r0) requestId) (actionApprovalRequest w) = true)
    as ->; [| reflexivity].
  apply existsb_exists. exists r. split; [exact Hin | now apply Nat.eqb_eq].
Qed.

(** A call that nothing interrupts is the call [evaluateAndLogAction]
    describes: the two parts, run one after the other at one instant. *)
Lemma uninterrupted_call (w : World) (input : EvaluateAndLogInput) (now : Z) :
  evaluateAndLogAction w input now
  = (s <- until_findFirst w input now ;; after_findFirst w s now).
Proof.
  unfold evaluateAndLogAction, until_findFirst. cbv zeta.
  destruct (resolve w input _) as [resolved | e]; [| reflexivity].
  cbn [bind]. unfold after_findFirst, gate_after_findFirst, approval_gate. cbv zeta.
  cbn [s_approval_needed s_approvedRequest s_input s_decision s_reason s_signals].
  destruct (andb (Decision_eqb (r_decision resolved) ALLOW) _); [| reflexivity].
  destruct (approvalRequestId input) as [requestId |]; [| reflexivity].
  destruct (find _ (actionApprovalRequest w)) as [found |] eqn:Hfind; [| reflexivity].
  cbn [option_map]. apply find_some in Hfind.
  rewrite update_consumedAt_found by (exists found; split; [apply Hfind | reflexivity]).
  reflexivity.
Qed.

(** What the answer of [findFirst] tells. *)
Lemma findFirst_answer (w : World) (input : EvaluateAndLogInput) (now : Z)
    (s : Suspended) (found : nat) :
  until_findFirst w input now = Return s ->
  s_approvedRequest s = Some found ->
  s_approval_needed s = true
  /\ s_decision s = ALLOW
  /\ approvalRequestId input = Some found
  /\ exists r, In r (actionApprovalRequest w) /\ a_id r = found.
Proof.
  unfold until_findFirst. cbv zeta.
  destruct (resolve w input _) as [resolved | e]; [| discriminate].
  cbn [bind]. intros H. injection H as <-.
  cbn [s_approvedRequest s_approval_needed s_decision].
  destruct (andb (Decision_eqb (r_decision resolved) ALLOW) _) eqn:Hneeded;
    [| discriminate].
  destruct (approvalRequestId input) as [requestId |]; [| discriminate].
  destruct (find _ (actionApprovalRequest w)) as [r |] eqn:Hfind; [| discriminate].
  cbn [option_map]. intros Hid. injection Hid as <-.
  apply find_some in Hfind. destruct Hfind as [Hin Hfor].
  apply ApprovalFacts.approved_for_true in Hfor. destruct Hfor as (Hid & _).
  apply andb_true_iff in Hneeded. destruct Hneeded as [Hd _].
  split; [reflexivity |]. split; [destruct (r_decision resolved); [reflexivity | discriminate] |].
  split; [now rewrite Hid |]. now exists r.
Qed.

(** A call that would consume an approval when served alone is one whose
    [findFirst] selects the request. *)
Lemma consuming_call_found_it (w : World) (input : EvaluateAndLogInput) (now : Z)
    (w' : World) (res : Evaluation) :
  evaluateAndLogAction w input now = Return (w', res) ->
  In "human_approval_consumed" (signals res) ->
  exists s found,
    until_findFirst w input now = Return s /\ s_approvedRequest s = Some found.
Proof.
  intros H Hin.
  destruct (ApprovalFacts.evaluate_result w input now w' res H)
    as (resolved & Hres & _ & _ & Hsig & _ & _).
  pose proof (ApprovalFacts.no_approval_signal_before_gate w input now resolved
                "human_approval_consumed" Hres) as Hfront.
  unfold until_findFirst. cbv zeta.
  unfold ApprovalFacts.burst_of in Hres. rewrite Hres. cbn [bind].
  rewrite Hsig, unique_In in Hin. unfold ApprovalFacts.gate_of, approval_gate in Hin.
  destruct (andb (Decision_eqb (r_decision resolved) ALLOW) _).
  - destruct (approvalRequestId input) as [requestId |].
    + destruct (find _ (actionApprovalRequest w)) as [r |].
      * eexists. eexists. split; reflexivity.
      * exfalso. cbn [g_signals] in Hin. apply in_app_or in Hin.
        destruct Hin as [Hin | [E | []]]; [| discriminate].
        revert Hin. apply Hfront; simpl; intuition discriminate.
    + exfalso. cbn [g_signals] in Hin. apply in_app_or in Hin.
      destruct Hin as [Hin | [E | []]]; [| discriminate].
      revert Hin. apply Hfront; simpl; intuition discriminate.
  - exfalso. cbn [g_signals] in Hin.
    revert Hin. apply Hfront; simpl; intuition discriminate.
Qed.

Lemma outcome_after_grows (s : Suspended) (now : Z) (gated : Gated) :
  ApprovalFacts.grows (g_world gated) (fst (outcome_after s now gated)).
Proof.
  unfold outcome_after. cbv zeta. cbn [fst].
  eapply ApprovalFacts.grows_trans; [| apply ApprovalFacts.runPlaybooksForEvent_grows].
  eapply ApprovalFacts.grows_trans; [| apply ApprovalFacts.upsertBaseline_approvals].
  now apply ApprovalFacts.grows_same.
Qed.

(** The write does not look again: whatever became of the request while
    the call was waiting, a call whose [findFirst] selected it stamps it and
    returns as a call that consumed it. *)
Lemma stale_answer_consumes (w : World) (s : Suspended) (now : Z) (found : nat) :
  s_approval_needed s = true ->
  s_approvedRequest s = Some found ->
  (exists r, In r (actionApprovalRequest w) /\ a_id r = found) ->
  exists w' res,
    after_findFirst w s now = Return (w', res)
    /\ decision res = s_decision s
    /\ In "human_approval_consumed" (signals res)
    /\ res_approvalRequestId res = None
    /\ (forall r, In r (actionApprovalRequest w) -> a_id r = found ->
                  In (set_consumedAt r now) (actionApprovalRequest w')).
Proof.
  intros Hneeded Hfound Hrow.
  unfold after_findFirst, gate_after_findFirst. cbv zeta.
  rewrite Hneeded, Hfound, (update_consumedAt_found w found now Hrow). cbn [bind].
  match goal with
  | |- exists w' res, Return (outcome_after s now ?g) = _ /\ _ =>
      set (gated := g);
      exists (fst (outcome_after s now gated)), (snd (outcome_after s now gated))
  end.
  split; [now destruct (outcome_after s now gated) |].
  split; [reflexivity |]. split; [| split; [reflexivity |]].
  - unfold outcome_after. cbv zeta. cbn [snd signals]. rewrite unique_In.
    subst gated. cbn [g_signals]. apply in_or_app. right. now left.
  - intros r Hin Hid.
    apply (ApprovalFacts.grows_In _ _ _ (outcome_after_grows s now gated)).
    subst gated. cbn [g_world actionApprovalRequest with_approvals]. unfold consume.
    apply in_map_iff. exists r. split; [| exact Hin].
    apply Nat.eqb_eq in Hid. now rewrite Hid.
Qed.

(** C4 fails when two calls overlap. Take two evaluations that bear the
    id of the same approval request, each of which would consume it if it
    were served alone from the store [w]. Let both reach the answer of
    their [findFirst] before either makes its [update]. Then both return
    ALLOW with the signal [human_approval_consumed] and no approval request
    of their own: one approval let two actions through, and the second
    [update] overwrote the time of consumption written by the first. *)
Theorem overlapping_calls_consume_one_approval_twice (w : World)
    (input1 input2 : EvaluateAndLogInput) (requestId : nat) (t1 t2 t3 t4 : Z)
    (w1 w2 : World) (res1 res2 : Evaluation) :
  approvalRequestId input1 = Some requestId ->
  approvalRequestId input2 = Some requestId ->
  evaluateAndLogAction w input1 t1 = Return (w1, res1) ->
  In "human_approval_consumed" (signals res1) ->
  evaluateAndLogAction w input2 t2 = Return (w2, res2) ->
  In "human_approval_consumed" (signals res2) ->
  exists w' out1 out2,
    interleave w [Arrived input1; Arrived input2]
               [(0%nat, t1); (1%nat, t2); (0%nat, t3); (1%nat, t4)]
    = (w', [Returned out1; Returned out2])
    /\ decision out1 = ALLOW /\ In "human_approval_consumed" (signals out1)
    /\ res_approvalRequestId out1 = None
    /\ decision out2 = ALLOW /\ In "human_approval_consumed" (signals out2)
    /\ res_approvalRequestId out2 = None
    /\ exists r, In r (actionApprovalRequest w') /\ a_id r = requestId
                 /\ consumedAt r = Some t4.
Proof.
  intros Hid1 Hid2 H1 Hc1 H2 Hc2.
  destruct (consuming_call_found_it w input1 t1 w1 res1 H1 Hc1) as (s1 & f1 & Hs1 & Hf1).
  destruct (consuming_call_found_it w input2 t2 w2 res2 H2 Hc2) as (s2 & f2 & Hs2 & Hf2).
  destruct (findFirst_answer w input1 t1 s1 f1 Hs1 Hf1) as (Hn1 & Hd1 & Hi1 & Hrow1).
  destruct (findFirst_answer w input2 t2 s2 f2 Hs2 Hf2) as (Hn2 & Hd2 & Hi2 & Hrow2).
  assert (f1 = requestId) as -> by congruence.
  assert (f2 = requestId) as -> by congruence.
  destruct (stale_answer_consumes w s1 t3 requestId Hn1 Hf1 Hrow1)
    as (wa & out1 & Ha & Hda & Hca & Hna & Hstamp1).
  assert (exists r, In r (actionApprovalRequest wa) /\ a_id r = requestId) as Hrowa.
  { destruct Hrow1 as (r & Hin & Hid). exists (set_consumedAt r t3).
    split; [now apply Hstamp1 | exact Hid]. }
  destruct (stale_answer_consumes wa s2 t4 requestId Hn2 Hf2 Hrowa)
    as (wb & out2 & Hb & Hdb & Hcb & Hnb & Hstamp2).
  exists wb, out1, out2.
  split.
  { cbn [interleave nth_error resume set_nth]. rewrite Hs1.
    cbn [interleave nth_error resume set_nth]. rewrite Hs2.
    cbn [interleave nth_error resume set_nth]. rewrite Ha.
    cbn [interleave nth_error resume set_nth]. rewrite Hb. reflexivity. }
  split; [congruence |]. split; [exact Hca |]. split; [exact Hna |].
  split; [congruence |]. split; [exact Hcb |]. split; [exact Hnb |].
  destruct Hrowa as (r & Hin & Hid). exists (set_consumedAt r t4).
  split; [now apply Hstamp2 |]. split; [exact Hid | reflexivity].
Qed.

End WithRuntime.

(** Two requests of the agent a1 to delete, both bearing the id of the one
    approval it holds, in flight together. *)
Lemma overlapping_calls_witness :
  exists w' out1 out2,
    interleave (R := Example.runtime)
      (ApprovalFacts.world_with_request (ApprovalFacts.approved_request 0 2000))
      [Arrived (ApprovalFacts.act "delete" (Some 0%nat));
       Arrived (ApprovalFacts.act "delete" (Some 0%nat))]
      [(0%nat, 1000); (1%nat, 1001); (0%nat, 1002); (1%nat, 1003)]
    = (w', [Returned out1; Returned out2])
    /\ decision out1 = ALLOW /\ In "human_approval_consumed" (signals out1)
    /\ decision out2 = ALLOW /\ In "human_approval_consumed" (signals out2).
Proof.
  destruct (evaluateAndLogAction (R := Example.runtime)
              (ApprovalFacts.world_with_request (ApprovalFacts.approved_request 0 2000))
              (ApprovalFacts.act "delete" (Some 0%nat)) 1000)
    as [[w1 res1] | e] eqn:H1; [| vm_compute in H1; discriminate].
  destruct (evaluateAndLogAction (R := Example.runtime)
              (ApprovalFacts.world_with_request (ApprovalFacts.approved_request 0 2000))
              (ApprovalFacts.act "delete" (Some 0%nat)) 1001)
    as [[w2 res2] | e] eqn:H2; [| vm_compute in H2; discriminate].
  assert (In "human_approval_consumed" (signals res1)) as Hc1.
  { pose proof H1 as H0. vm_compute in H0. injection H0 as _ <-. simpl. tauto. }
  assert (In "human_approval_consumed" (signals res2)) as Hc2.
  { pose proof H2 as H0. vm_compute in H0. injection H0 as _ <-. simpl. tauto. }
  destruct (@overlapping_calls_consume_one_approval_twice Example.runtime
              (ApprovalFacts.world_with_request (ApprovalFacts.approved_request 0 2000))
              (ApprovalFacts.act "delete" (Some 0%nat))
              (ApprovalFacts.act "delete" (Some 0%nat))
              0%nat 1000 1001 1002 1003 w1 w2 res1 res2
              eq_refl eq_refl H1 Hc1 H2 Hc2)
    as (w' & out1 & out2 & Hrun & Hd1 & Hs1 & _ & Hd2 & Hs2 & _).
  exists w', out1, out2. repeat split; assumption.
Defined.

End OverlappingCalls.

(** ** The verifier on a tampered chain, worked out *)

Module LedgerExamples.
Import HashChain.

(** The chain of three appended events, on the platform of the examples,
    and its middle event. *)
Definition chain : list AuditLogEvent := ProtoKey.three_appends (R := Example.runtime).

Definition middle : AuditLogEvent := nth 1 chain (ForensicsFacts.stored 0 "" "").

(** The middle event re-linked to another predecessor. *)
Definition relinked : AuditLogEvent :=
  {| id := id middle; workspaceId := workspaceId middle; agentId := agentId middle;
     tool := tool middle; action := action middle; resource := resource middle;
     decision := decision middle; reason := reason middle; metadata := metadata middle;
     anomalyFlagged := anomalyFlagged middle; prevHash := "elsewhere";
     hash := hash middle; createdAt := createdAt middle |}.

(** The middle event with a note added to its metadata. *)
Definition annotated : AuditLogEvent :=
  ProtoKey.with_metadata [("note", JStr "edited")] middle.

Lemma replaced_event_witness :
  verifyHashChain (R := Example.runtime)
    (HashChainFacts.mutate_at 1 (fun _ => relinked) chain) = false.
Proof.
  apply (@HashChainFacts.replaced_event_is_noticed Example.runtime chain 1%nat
           middle relinked).
  - vm_compute. reflexivity.
  - reflexivity.
  - left. vm_compute. discriminate.
Defined.

Lemma changed_fields_witness :
  verifyHashChain (R := Example.runtime)
    (HashChainFacts.mutate_at 1 (fun _ => annotated) chain) = true
  <-> HashChainFacts.expected_hash (R := Example.runtime) annotated
      = HashChainFacts.expected_hash (R := Example.runtime) middle.
Proof.
  apply (@HashChainFacts.changed_fields_noticed_up_to_collision Example.runtime chain
           1%nat middle annotated).
  - vm_compute. reflexivity.
  - reflexivity.
  - reflexivity.
  - reflexivity.
Defined.

End LedgerExamples.

(** ** Prefixes and windows of a chain *)

Module ChainWindows.
Import HashChain Forensics.

Section WithRuntime.
Context {R : Runtime}.

(** A chain the verifier accepts from [seed] replays without a break,
    whether the replay starts with no previous hash or with [seed]. *)
Lemma accepted_from_replays (events : list AuditLogEvent) (seed : string)
    (p : option string) :
  verifyHashChain_from seed events = true ->
  p = None \/ p = Some seed ->
  failures_from p events = 0%nat
  /\ Forall (fun t => chainIntegrity t = OK) (timeline_from p events).
Proof.
  revert seed p. induction events as [| e rest IH]; intros seed p Hok Hp.
  - split; [reflexivity | constructor].
  - apply HashChainFacts.verifyHashChain_from_cons in Hok.
    destruct Hok as (Hprev & _ & Hrest).
    assert (prevMatches p e = true) as Hm.
    { destruct Hp as [-> | ->]; simpl; [reflexivity |]. now apply String.eqb_eq. }
    destruct (IH (hash e) (Some (hash e)) Hrest (or_intror eq_refl)) as [Hf Hall].
    simpl. rewrite Hm. split; [exact Hf |].
    constructor; [reflexivity | exact Hall].
Qed.

(** The verifier accepts every prefix of a list it accepts: it reads no
    chain state, so events dropped from the end are not missed. *)
Theorem verifier_accepts_every_prefix (kept dropped : list AuditLogEvent) :
  verifyHashChain (kept ++ dropped) = true ->
  verifyHashChain kept = true.
Proof.
  unfold verifyHashChain. intros H.
  apply HashChainFacts.verifyHashChain_from_app in H. exact (proj1 H).
Qed.

(** Every run of consecutive events of a list the verifier accepts replays
    as healthy: each entry of its timeline is OK, no failure is counted. *)
Theorem accepted_chain_replays_healthy (before window after : list AuditLogEvent) :
  verifyHashChain (before ++ window ++ after) = true ->
  Forall (fun t => chainIntegrity t = OK) (timeline window)
  /\ integrityFailures (summary window) = 0%nat
  /\ chainStatus (summary window) = HEALTHY.
Proof.
  unfold verifyHashChain. intros H.
  apply HashChainFacts.verifyHashChain_from_app in H. destruct H as [_ H].
  apply HashChainFacts.verifyHashChain_from_app in H. destruct H as [H _].
  destruct (accepted_from_replays window _ None H (or_introl eq_refl)) as [Hf Hall].
  split; [exact Hall |]. unfold summary. simpl. rewrite Hf. split; reflexivity.
Qed.

End WithRuntime.

Lemma verifier_accepts_every_prefix_witness :
  verifyHashChain (R := Example.runtime) (firstn 2 LedgerExamples.chain) = true.
Proof.
  apply (@verifier_accepts_every_prefix Example.runtime
           (firstn 2 LedgerExamples.chain) (skipn 2 LedgerExamples.chain)).
  vm_compute. reflexivity.
Defined.

Lemma accepted_chain_replays_healthy_witness :
  Forall (fun t => chainIntegrity t = OK) (timeline (skipn 1 LedgerExamples.chain))
  /\ integrityFailures (summary (skipn 1 LedgerExamples.chain)) = 0%nat
  /\ chainStatus (summary (skipn 1 LedgerExamples.chain)) = HEALTHY.
Proof.
  apply (@accepted_chain_replays_healthy Example.runtime
           (firstn 1 LedgerExamples.chain) (skipn 1 LedgerExamples.chain) []).
  vm_compute. reflexivity.
Defined.

End ChainWindows.

(** ** What the policy engine decides, and what the scorer reads *)

Module PolicyDecisions.
Import PolicyEngine.

Lemma parse_string_array_kept (field : option (list string)) (xs : list string) :
  parse_string_array field = Return xs -> forallb string_min1 xs = true.
Proof.
  destruct field as [ys |]; simpl.
  - destruct (forallb string_min1 ys) eqn:E; [| discriminate].
    intros H. injection H as <-. exact E.
  - intros H. injection H as <-. reflexivity.
Qed.

(** Normalizing is idempotent: rules that [normalizePolicyRules] returned
    pass through it again unchanged, but for the mode when one is imposed.
    The second normalization [evaluatePolicy] applies to the rules the
    action service hands it therefore changes nothing and cannot throw. *)
Theorem normalize_is_idempotent (raw : option RawRules) (m m' : option PolicyMode)
    (rules : PolicyRules) :
  normalizePolicyRules raw m = Return rules ->
  normalizePolicyRules (Some (as_unknown rules)) m'
  = Return {| mode := nullish m' (mode rules);
              allow_actions := allow_actions rules;
              deny_actions := deny_actions rules;
              allow_tools := allow_tools rules;
              deny_tools := deny_tools rules;
              require_approval_actions := require_approval_actions rules |}.
Proof.
  unfold normalizePolicyRules, rulesSchema_parse.
  destruct (parse_string_array (raw_allow_actions (nullish raw empty_raw)))
    as [aa | e] eqn:Haa; simpl; [| discriminate].
  destruct (parse_string_array (raw_deny_actions (nullish raw empty_raw)))
    as [da | e] eqn:Hda; simpl; [| discriminate].
  destruct (parse_string_array (raw_allow_tools (nullish raw empty_raw)))
    as [at_ | e] eqn:Hat; simpl; [| discriminate].
  destruct (parse_string_array (raw_deny_tools (nullish raw empty_raw)))
    as [dt | e] eqn:Hdt; simpl; [| discriminate].
  destruct (parse_string_array (raw_require_approval_actions (nullish raw empty_raw)))
    as [ra | e] eqn:Hra; simpl; [| discriminate].
  intros H. injection H as <-. simpl.
  rewrite (parse_string_array_kept _ _ Haa), (parse_string_array_kept _ _ Hda),
    (parse_string_array_kept _ _ Hat), (parse_string_array_kept _ _ Hdt),
    (parse_string_array_kept _ _ Hra).
  reflexivity.
Qed.

Lemma normalize_is_idempotent_witness :
  normalizePolicyRules
    (Some (as_unknown {| mode := STRICT; allow_actions := ["delete"];
                         deny_actions := ["delete"]; allow_tools := [];
                         deny_tools := []; require_approval_actions := Some [] |}))
    (Some BALANCED)
  = Return {| mode := BALANCED; allow_actions := ["delete"];
              deny_actions := ["delete"]; allow_tools := [];
              deny_tools := []; require_approval_actions := Some [] |}.
Proof.
  apply (normalize_is_idempotent (Some PolicyEngineFacts.scenarioA) None (Some BALANCED)
           {| mode := STRICT; allow_actions := ["delete"];
              deny_actions := ["delete"]; allow_tools := [];
              deny_tools := []; require_approval_actions := Some [] |}).
  reflexivity.
Defined.

Lemma nonempty_and_missing (xs : list string) (x : string) :
  andb (0 <? Z.of_nat (length xs)) (negb (includes xs x)) = false
  <-> xs = [] \/ In x xs.
Proof.
  rewrite <- includes_In. destruct xs as [| y ys].
  - simpl. split; [now left | reflexivity].
  - change (0 <? Z.of_nat (length (y :: ys))) with true.
    destruct (includes (y :: ys) x); simpl; split; try intuition congruence.
Qed.

(** The decision of [evaluatePolicy], in full. For rules that normalize,
    the call returns; it allows exactly when the action is on no deny list,
    the tool is on no deny list, and, under strict mode only, each
    allowlist is empty or holds the value; an allowed request carries the
    reason [allowed_by_policy_engine], and the signals do not depend on the
    decision. *)
Theorem policy_allows_iff (raw : option RawRules) (ctx : PolicyEvaluationContext)
    (rules : PolicyRules) :
  normalizePolicyRules raw None = Return rules ->
  exists res,
    evaluatePolicy raw ctx = Return res
    /\ (decision res = ALLOW
        <-> ~ In (action ctx) (deny_actions rules)
            /\ ~ In (tool ctx) (deny_tools rules)
            /\ (mode rules = STRICT ->
                (allow_actions rules = [] \/ In (action ctx) (allow_actions rules))
                /\ (allow_tools rules = [] \/ In (tool ctx) (allow_tools rules))))
    /\ (decision res = ALLOW -> reason res = "allowed_by_policy_engine")
    /\ signals res = detect_signals rules ctx.
Proof.
  intros Hnorm.
  rewrite (PolicyEngineFacts.evaluatePolicy_normalized raw ctx rules Hnorm). cbv zeta.
  pose proof (includes_In (deny_actions rules) (action ctx)) as Hda.
  pose proof (includes_In (deny_tools rules) (tool ctx)) as Hdt.
  pose proof (nonempty_and_missing (allow_actions rules) (action ctx)) as Haa.
  pose proof (nonempty_and_missing (allow_tools rules) (tool ctx)) as Hat.
  destruct (includes (deny_actions rules) (action ctx)).
  { eexists. split; [reflexivity |]. simpl.
    split; [| split; [discriminate | reflexivity]].
    split; [discriminate |]. intros (H & _). exfalso. apply H, Hda. reflexivity. }
  destruct (includes (deny_tools rules) (tool ctx)).
  { eexists. split; [reflexivity |]. simpl.
    split; [| split; [discriminate | reflexivity]].
    split; [discriminate |]. intros (_ & H & _). exfalso. apply H, Hdt. reflexivity. }
  assert (~ In (action ctx) (deny_actions rules)) as Hna
    by (intros H; apply Hda in H; discriminate).
  assert (~ In (tool ctx) (deny_tools rules)) as Hnt
    by (intros H; apply Hdt in H; discriminate).
  destruct (mode rules).
  - destruct (andb (0 <? Z.of_nat (length (allow_actions rules))) _).
    { eexists. split; [reflexivity |]. simpl.
      split; [| split; [discriminate | reflexivity]].
      split; [discriminate |]. intros (_ & _ & H).
      destruct (H eq_refl) as [H1 _]. apply Haa in H1. discriminate. }
    destruct (andb (0 <? Z.of_nat (length (allow_tools rules))) _).
    { eexists. split; [reflexivity |]. simpl.
      split; [| split; [discriminate | reflexivity]].
      split; [discriminate |]. intros (_ & _ & H).
      destruct (H eq_refl) as [_ H2]. apply Hat in H2. discriminate. }
    eexists. split; [reflexivity |]. simpl.
    split; [| split; reflexivity].
    split; [| reflexivity]. intros _. split; [exact Hna | split; [exact Hnt |]].
    intros _. split; [now apply Haa | now apply Hat].
  - eexists. split; [reflexivity |]. simpl.
    split; [| split; reflexivity].
    split; [| reflexivity]. intros _. split; [exact Hna | split; [exact Hnt |]].
    discriminate.
Qed.

Lemma policy_allows_iff_witness :
  exists res,
    evaluatePolicy (Some PolicyEngineFacts.scenarioA)
                   {| tool := "crm"; action := "read"; burstRate := Some 7 |}
    = Return res
    /\ decision res = BLOCK /\ signals res = ["burst_rate"].
Proof.
  destruct (policy_allows_iff (Some PolicyEngineFacts.scenarioA)
              {| tool := "crm"; action := "read"; burstRate := Some 7 |}
              {| mode := STRICT; allow_actions := ["delete"];
                 deny_actions := ["delete"]; allow_tools := [];
                 deny_tools := []; require_approval_actions := Some [] |}
              eq_refl) as (res & Hres & Hiff & _ & Hsig).
  exists res. split; [exact Hres |]. split; [| exact Hsig].
  destruct (decision res); [| reflexivity].
  exfalso. destruct (proj1 Hiff eq_refl) as (_ & _ & H).
  destruct (proj1 (H eq_refl)) as [E | [E | []]]; discriminate.
Defined.

End PolicyDecisions.

Module RiskSignals.
Import Risk.

(** The five signal names [computeRiskScore] looks for. *)
Definition scored_signals : list string :=
  ["unknown_tool"; "burst_rate"; "behavior_drift"; "off_hours_execution";
   "new_action_pattern"].

Lemma includes_agree (s1 s2 : list string) (name : string) :
  (In name s1 <-> In name s2) -> includes s1 name = includes s2 name.
Proof.
  rewrite <- !includes_In.
  destruct (includes s1 name); destruct (includes s2 name); intuition congruence.
Qed.

(** The score reads the signal list only through the presence of five
    names: two lists that agree on those get the same score, whatever
    their order, their duplicates and their other entries. The signals
    [high_risk_action], [human_approval_required] and
    [human_approval_consumed] add nothing by themselves. *)
Theorem risk_reads_five_signals (s1 s2 : list string) (action : string)
    (decision : Decision) (context : RiskScoreContext) :
  (forall name, In name scored_signals -> (In name s1 <-> In name s2)) ->
  computeRiskScore s1 action decision context
  = computeRiskScore s2 action decision context.
Proof.
  intros H. unfold computeRiskScore.
  rewrite (includes_agree s1 s2 "unknown_tool"),
          (includes_agree s1 s2 "burst_rate"),
          (includes_agree s1 s2 "behavior_drift"),
          (includes_agree s1 s2 "off_hours_execution"),
          (includes_agree s1 s2 "new_action_pattern");
    try reflexivity; apply H; simpl; tauto.
Qed.

Lemma risk_reads_five_signals_witness :
  computeRiskScore ["high_risk_action"; "unknown_tool"; "human_approval_required"]
                   "delete" BLOCK no_context
  = computeRiskScore ["unknown_tool"; "unknown_tool"] "delete" BLOCK no_context.
Proof.
  apply (risk_reads_five_signals
           ["high_risk_action"; "unknown_tool"; "human_approval_required"]
           ["unknown_tool"; "unknown_tool"] "delete" BLOCK no_context).
  intros name Hname. simpl in Hname. simpl.
  repeat (destruct Hname as [<- | Hname]; [split; intros H;
    repeat (destruct H as [H | H]; try discriminate H; try tauto) |]).
  destruct Hname.
Defined.

End RiskSignals.

(** ** One evaluation and the audit trail *)

Module EvaluationFacts.
Import Store ActionService.

(** What the playbooks leave alone: the ledger, the baselines, the
    policies and the playbooks themselves. *)
Definition same_core (w1 w2 : World) : Prop :=
  ledger w2 = ledger w1
  /\ agentActionBaseline w2 = agentActionBaseline w1
  /\ policy w2 = policy w1
  /\ workspacePlaybook w2 = workspacePlaybook w1.

Lemma same_core_refl (w : World) : same_core w w.
Proof. repeat split. Qed.

Lemma same_core_trans (w1 w2 w3 : World) :
  same_core w1 w2 -> same_core w2 w3 -> same_core w1 w3.
Proof.
  intros (A1 & B1 & C1 & D1) (A2 & B2 & C2 & D2).
  repeat split; congruence.
Qed.

Lemma unique_acc_NoDup (xs acc : list string) :
  NoDup acc -> NoDup (fold_left Set_add xs acc).
Proof.
  revert acc. induction xs as [| x xs IH]; intros acc Hacc; simpl; [exact Hacc |].
  apply IH. unfold Set_add. destruct (includes acc x) eqn:E; [exact Hacc |].
  apply NoDup_app; [exact Hacc | repeat constructor; intros [] |].
  intros y Hy [<- | []]. apply includes_In in Hy. congruence.
Qed.

Lemma unique_NoDup (xs : list string) : NoDup (unique xs).
Proof. apply unique_acc_NoDup. constructor. Qed.

Lemma unique_nil (xs : list string) : unique xs = [] <-> xs = [].
Proof.
  split; [| intros ->; reflexivity].
  intros H. destruct xs as [| x xs]; [reflexivity |].
  exfalso. assert (In x (unique (x :: xs))) as Hin by (apply unique_In; now left).
  rewrite H in Hin. destruct Hin.
Qed.

Lemma get_define_same (o : Obj.t) (key : string) (v : json) :
  Obj.get (define o key v) key = Some v.
Proof.
  unfold define, Obj.has. destruct (Obj.get o key) as [old |] eqn:E.
  - induction o as [| [k x] o IH]; [discriminate |].
    simpl in E. simpl. destruct (String.eqb k key) eqn:Ek.
    + simpl. now rewrite Ek.
    + simpl. rewrite Ek. now apply IH.
  - induction o as [| [k x] o IH]; simpl.
    + now rewrite String.eqb_refl.
    + simpl in E. destruct (String.eqb k key); [discriminate | now apply IH].
Qed.

Lemma get_define_other (o : Obj.t) (key key' : string) (v : json) :
  key <> key' -> Obj.get (define o key v) key' = Obj.get o key'.
Proof.
  intros Hne. unfold define. destruct (Obj.has o key).
  - induction o as [| [k x] o IH]; [reflexivity |].
    simpl. destruct (String.eqb_spec k key) as [-> | Hk].
    + simpl. destruct (String.eqb_spec key key'); [congruence | reflexivity].
    + simpl. destruct (String.eqb k key'); [reflexivity | exact IH].
  - induction o as [| [k x] o IH]; simpl.
    + destruct (String.eqb_spec key key'); [congruence | reflexivity].
    + destruct (String.eqb k key'); [reflexivity | exact IH].
Qed.

Section WithRuntime.
Context {R : Runtime}.

Lemma dispatch_same_core (w : World) (input : PlaybookService.PlaybookInput)
    (playbook : WorkspacePlaybook) (now : Z) :
  same_core w (fst (PlaybookService.dispatch w input playbook now)).
Proof.
  unfold PlaybookService.dispatch.
  destruct (String.eqb (actionType playbook) "DISABLE_AGENT").
  { destruct (truthy (PlaybookService.pi_agentId input)); [| apply same_core_refl].
    destruct (existsb _ _); now repeat split. }
  destruct (String.eqb (actionType playbook) "REVOKE_ACTIVE_KEYS").
  { destruct (truthy (PlaybookService.pi_agentId input)); now repeat split. }
  destruct (String.eqb (actionType playbook) "CREATE_APPROVAL").
  { destruct (truthy (PlaybookService.pi_agentId input)); now repeat split. }
  destruct (String.eqb (actionType playbook) "NOTIFY_WEBHOOK").
  { destruct (String.eqb _ ""); [apply same_core_refl |].
    unfold PlaybookService.executeWebhook.
    destruct (fetch_rejects _); now repeat split. }
  apply same_core_refl.
Qed.

Lemma run_playbook_same_core (input : PlaybookService.PlaybookInput) (now : Z)
    (w : World) (playbook : WorkspacePlaybook) :
  same_core w (PlaybookService.run_playbook input now w playbook).
Proof.
  unfold PlaybookService.run_playbook.
  destruct (orb _ _); [now repeat split |].
  pose proof (dispatch_same_core w input playbook now) as Hd.
  destruct (PlaybookService.dispatch w input playbook now) as [w' [message | e]];
    simpl in Hd; (eapply same_core_trans; [exact Hd | now repeat split]).
Qed.

Lemma runPlaybooks_same_core (w : World) (input : PlaybookService.PlaybookInput)
    (now : Z) :
  same_core w (PlaybookService.runPlaybooksForEvent w input now).
Proof.
  unfold PlaybookService.runPlaybooksForEvent.
  generalize (PlaybookService.findPlaybooks w (PlaybookService.pi_workspaceId input)).
  intros playbooks. revert w. induction playbooks as [| p playbooks IH]; intros w; simpl.
  - apply same_core_refl.
  - eapply same_core_trans; [apply run_playbook_same_core | apply IH].
Qed.

Lemma gate_keeps_core (w : World) (input : EvaluateAndLogInput) (now : Z)
    (decision_ : Decision) (reason_ : string) (signals_ : list string)
    (rules : PolicyEngine.PolicyRules) :
  same_core w (g_world (approval_gate w input now decision_ reason_ signals_ rules)).
Proof.
  destruct (ApprovalFacts.approval_gate_cases w input now decision_ reason_ signals_ rules)
    as [_ -> | id found _ _ _ _ -> | created _ _ _ _ _ _ _ ->]; now repeat split.
Qed.

Lemma upsertBaseline_frame (w : World) (input : EvaluateAndLogInput) (now : Z)
    (baseline : option AgentActionBaseline) (riskScore_ burstRate : Z) :
  ledger (upsertBaseline w input now baseline riskScore_ burstRate) = ledger w.
Proof. unfold upsertBaseline. destruct (existsb _ _); reflexivity. Qed.

(** The entry [record_outcome] hands to [appendAuditEvent]. *)
Definition logged_entry (input : EvaluateAndLogInput) (baseline : option AgentActionBaseline)
    (burstRate : Z) (isOffHours : bool) (gated : Gated) : HashChain.AuditEventInput :=
  let uniqueSignals := unique (g_signals gated) in
  let riskScore_ :=
    Risk.computeRiskScore uniqueSignals (action input) (g_decision gated)
      {| Risk.baselineAvgRiskScore :=
           Some (match baseline with Some b => avgRiskScore b | None => 0%Q end);
         Risk.baselineAvgPerMinute :=
           Some (match baseline with Some b => avgPerMinute b | None => 0%Q end);
         Risk.ctx_burstRate := Some (inject_Z burstRate);
         Risk.isOffHours := Some isOffHours;
         Risk.isNewPattern :=
           Some (match baseline with Some b => sampleCount b | None => 0 end <? 3) |} in
  {| HashChain.in_workspaceId := workspaceId input;
     HashChain.in_agentId := Some (agent_id (agent_ input));
     HashChain.in_tool := tool input;
     HashChain.in_action := action input;
     HashChain.in_resource := resource input;
     HashChain.in_decision := g_decision gated;
     HashChain.in_reason := g_reason gated;
     HashChain.in_metadata :=
       Some (event_metadata input uniqueSignals riskScore_ (g_approvalId gated)
                            baseline burstRate);
     HashChain.in_anomalyFlagged := Some (0 <? length (g_signals gated))%nat;
     HashChain.in_createdAt := None |}.

(** The ledger after [record_outcome]: the ledger in front of it, with the
    event of the result appended by [appendAuditEvent]. *)
Lemma record_outcome_ledger (input : EvaluateAndLogInput) (now : Z)
    (baseline : option AgentActionBaseline) (burstRate : Z) (isOffHours : bool)
    (gated : Gated) :
  let out := record_outcome input now baseline burstRate isOffHours gated in
  let entry := logged_entry input baseline burstRate isOffHours gated in
  ledger (fst out) = fst (HashChain.appendAuditEvent (ledger (g_world gated)) entry now)
  /\ event (snd out) = snd (HashChain.appendAuditEvent (ledger (g_world gated)) entry now)
  /\ HashChain.in_decision entry = decision (snd out)
  /\ HashChain.in_reason entry = reason (snd out)
  /\ HashChain.in_metadata entry
     = Some (event_metadata input (signals (snd out)) (riskScore (snd out))
                            (res_approvalRequestId (snd out)) baseline burstRate).
Proof.
  cbv zeta. unfold record_outcome. cbv zeta. cbn [fst snd].
  split; [| repeat split; reflexivity].
  match goal with
  | |- ledger (PlaybookService.runPlaybooksForEvent ?w3 ?i ?n) = _ =>
      destruct (runPlaybooks_same_core w3 i n) as (Hl & _); rewrite Hl
  end.
  rewrite upsertBaseline_frame. reflexivity.
Qed.

Lemma evaluation_risk_range (w : World) (input : EvaluateAndLogInput) (now : Z)
    (w' : World) (res : Evaluation) :
  evaluateAndLogAction w input now = Return (w', res) ->
  0 <= riskScore res <= 100.
Proof.
  intros H.
  destruct (ApprovalFacts.evaluate_inv w input now w' res H) as (resolved & _ & Hout).
  assert (riskScore res
          = riskScore (snd (record_outcome input now (ApprovalFacts.baseline_of w input)
                              (ApprovalFacts.burst_of w input now)
                              (ApprovalFacts.off_hours now)
                              (ApprovalFacts.gate_of w input now resolved)))) as ->
    by (rewrite <- Hout; reflexivity).
  unfold record_outcome. cbv zeta. simpl snd. simpl riskScore.
  apply RiskFacts.computeRiskScore_range.
Qed.

(** Every evaluation that returns is on the audit trail: the call appends
    exactly one event to the ledger, the one it returns, and that event
    carries the workspace, agent, tool and action of the call and the
    decision and reason given to the caller; it is flagged as an anomaly
    exactly when signals were raised, and the risk score returned lies
    between 0 and 100. *)
Theorem evaluation_appends_its_event (w : World) (input : EvaluateAndLogInput) (now : Z)
    (w' : World) (res : Evaluation) :
  evaluateAndLogAction w input now = Return (w', res) ->
  HashChain.auditLogEvent (ledger w') = HashChain.auditLogEvent (ledger w) ++ [event res]
  /\ HashChain.workspaceId (event res) = workspaceId input
  /\ HashChain.agentId (event res) = Some (agent_id (agent_ input))
  /\ HashChain.tool (event res) = tool input
  /\ HashChain.action (event res) = action input
  /\ HashChain.resource (event res) = resource input
  /\ HashChain.decision (event res) = decision res
  /\ HashChain.reason (event res) = reason res
  /\ (HashChain.anomalyFlagged (event res) = true <-> signals res <> [])
  /\ 0 <= riskScore res <= 100.
Proof.
  intros H.
  destruct (ApprovalFacts.evaluate_inv w input now w' res H) as (resolved & _ & Hout).
  pose proof (record_outcome_ledger input now (ApprovalFacts.baseline_of w input)
                (ApprovalFacts.burst_of w input now) (ApprovalFacts.off_hours now)
                (ApprovalFacts.gate_of w input now resolved)) as Hrec.
  cbv zeta in Hrec. rewrite <- Hout in Hrec. cbn [fst snd] in Hrec.
  destruct Hrec as (Hl & He & Hdec & Hrea & _).
  destruct (gate_keeps_core w input now (r_decision resolved) (r_reason resolved)
              (r_signals resolved
               ++ baseline_signals (ApprovalFacts.baseline_of w input)
                    (ApprovalFacts.burst_of w input now) (ApprovalFacts.off_hours now)
                    (action input))
              (r_rules resolved)) as (Hcore & _).
  fold (ApprovalFacts.gate_of w input now resolved) in Hcore.
  rewrite Hcore in Hl, He.
  rewrite Hl, He. unfold HashChain.appendAuditEvent. cbn [fst snd HashChain.auditLogEvent
    HashChain.workspaceId HashChain.agentId HashChain.tool HashChain.action
    HashChain.resource HashChain.decision HashChain.reason HashChain.anomalyFlagged].
  rewrite Hdec, Hrea.
  repeat (split; [reflexivity |]).
  split.
  - assert (signals res = unique (g_signals (ApprovalFacts.gate_of w input now resolved)))
      as -> by (change res with (snd (w', res)); rewrite Hout; reflexivity).
    rewrite unique_nil. cbn [logged_entry HashChain.in_anomalyFlagged nullish].
    rewrite Nat.ltb_lt.
    destruct (g_signals (ApprovalFacts.gate_of w input now resolved)); simpl.
    + split; [lia | congruence].
    + split; [discriminate | lia].
  - exact (evaluation_risk_range w input now w' res H).
Qed.

(** What the audit event records about the evaluation cannot be set by the
    caller: whatever keys the caller's metadata holds, the event's metadata
    gives under [signals], [risk_score] and [approval_request_id] the
    values returned by the call, and every other key of the caller's
    metadata but [risk_context] is kept as the spread left it. *)
Theorem audit_metadata_is_the_service_s (w : World) (input : EvaluateAndLogInput)
    (now : Z) (w' : World) (res : Evaluation) :
  evaluateAndLogAction w input now = Return (w', res) ->
  let m := HashChain.metadata (event res) in
  Obj.get m "signals" = Some (JArr (map JStr (signals res)))
  /\ Obj.get m "risk_score" = Some (JNum (inject_Z (riskScore res)))
  /\ Obj.get m "approval_request_id"
     = Some (match res_approvalRequestId res with
             | Some i => json_of_id i
             | None => JNull
             end)
  /\ (exists context, Obj.get m "risk_context" = Some (JObj context))
  /\ forall key, key <> "signals" -> key <> "risk_score" ->
                 key <> "approval_request_id" -> key <> "risk_context" ->
                 Obj.get m key = Obj.get (spread [] (nullish (metadata input) [])) key.
Proof.
  intros H.
  destruct (ApprovalFacts.evaluate_inv w input now w' res H) as (resolved & _ & Hout).
  pose proof (record_outcome_ledger input now (ApprovalFacts.baseline_of w input)
                (ApprovalFacts.burst_of w input now) (ApprovalFacts.off_hours now)
                (ApprovalFacts.gate_of w input now resolved)) as Hrec.
  cbv zeta in Hrec. rewrite <- Hout in Hrec. cbn [fst snd] in Hrec.
  destruct Hrec as (_ & He & _ & _ & Hmeta).
  cbv zeta. rewrite He. unfold HashChain.appendAuditEvent.
  cbn [snd HashChain.metadata]. rewrite Hmeta. cbn [nullish].
  unfold event_metadata.
  split; [| split; [| split; [| split]]].
  - rewrite !get_define_other by discriminate. apply get_define_same.
  - rewrite !get_define_other by discriminate. apply get_define_same.
  - rewrite !get_define_other by discriminate. apply get_define_same.
  - eexists. apply get_define_same.
  - intros key H1 H2 H3 H4.
    rewrite !get_define_other by congruence. reflexivity.
Qed.

(** *** The chain through the service *)

Lemma evaluation_keeps_chain (w : World) (input : EvaluateAndLogInput) (now : Z)
    (w' : World) (res : Evaluation) :
  evaluateAndLogAction w input now = Return (w', res) ->
  HashChainFacts.chained (ledger w) -> HashChainFacts.chained (ledger w').
Proof.
  intros H Hchained.
  destruct (ApprovalFacts.evaluate_inv w input now w' res H) as (resolved & _ & Hout).
  pose proof (record_outcome_ledger input now (ApprovalFacts.baseline_of w input)
                (ApprovalFacts.burst_of w input now) (ApprovalFacts.off_hours now)
                (ApprovalFacts.gate_of w input now resolved)) as Hrec.
  cbv zeta in Hrec. rewrite <- Hout in Hrec. cbn [fst snd] in Hrec.
  destruct Hrec as (Hl & _).
  destruct (gate_keeps_core w input now (r_decision resolved) (r_reason resolved)
              (r_signals resolved
               ++ baseline_signals (ApprovalFacts.baseline_of w input)
                    (ApprovalFacts.burst_of w input now) (ApprovalFacts.off_hours now)
                    (action input))
              (r_rules resolved)) as (Hcore & _).
  fold (ApprovalFacts.gate_of w input now resolved) in Hcore.
  rewrite Hl, Hcore. now apply HashChainFacts.chained_append.
Qed.

Lemma resolve_request_ledger (status : ApprovalStatus) (w : World) (target : nat)
    (authorized : bool) (user : string) (note : option string) (now : Z) :
  ledger (resolve_request status w target authorized user note now) = ledger w.
Proof.
  unfold resolve_request. destruct (find _ _); [| reflexivity].
  destruct (negb authorized); [reflexivity |].
  destruct (negb _); reflexivity.
Qed.

Lemma serve_keeps_chain (w : World) (request : Request) :
  HashChainFacts.chained (ledger w) -> HashChainFacts.chained (ledger (serve w request)).
Proof.
  intros Hc. destruct request as [input now | |]; simpl.
  - destruct (evaluateAndLogAction w input now) as [[w' res] | e] eqn:H; [| exact Hc].
    exact (evaluation_keeps_chain w input now w' res H Hc).
  - unfold approve. now rewrite resolve_request_ledger.
  - unfold reject. now rewrite resolve_request_ledger.
Qed.

(** The service keeps the ledger verifiable: from a store whose ledger is
    chained (each workspace's events accepted by [verifyHashChain], its
    chain state recording their last hash), any sequence of evaluations,
    approvals and rejections, with the playbooks they trigger, leaves every
    workspace's events accepted by [verifyHashChain] and the chain states
    in step. *)
Theorem ledger_verifies_after_any_run (requests : list Request) (w : World)
    (ws : string) :
  HashChainFacts.chained (ledger w) ->
  HashChain.verifyHashChain (HashChainFacts.events_of ws (ledger (run w requests))) = true
  /\ HashChainFacts.recorded_tail (ledger (run w requests)) ws
     = HashChainFacts.tail_hash "GENESIS"
         (HashChainFacts.events_of ws (ledger (run w requests))).
Proof.
  intros Hc. assert (HashChainFacts.chained (ledger (run w requests))) as H.
  { revert w Hc. induction requests as [| q requests IH]; intros w Hc; simpl.
    - exact Hc.
    - apply IH. now apply serve_keeps_chain. }
  exact (H ws).
Qed.

(** *** Signals *)

(** Every name an evaluation can return as a signal. *)
Definition signal_names : list string :=
  ApprovalFacts.policy_signals ++ ApprovalFacts.baseline_signal_names
  ++ ["human_approval_consumed"; "human_approval_required"].

(** The signals an evaluation returns hold no name twice and only names of
    the vocabulary of eight; the two approval signals never come together. *)
Theorem signals_are_distinct_and_known (w : World) (input : EvaluateAndLogInput)
    (now : Z) (w' : World) (res : Evaluation) :
  evaluateAndLogAction w input now = Return (w', res) ->
  NoDup (signals res)
  /\ incl (signals res) signal_names
  /\ ~ (In "human_approval_consumed" (signals res)
        /\ In "human_approval_required" (signals res)).
Proof.
  intros H.
  destruct (ApprovalFacts.evaluate_result w input now w' res H)
    as (resolved & Hres & _ & _ & Hsig & _ & _).
  rewrite Hsig. split; [apply unique_NoDup |].
  pose proof (ApprovalFacts.resolve_signals w input _ resolved Hres) as Hp.
  pose proof (ApprovalFacts.baseline_signals_vocabulary (ApprovalFacts.baseline_of w input)
                (ApprovalFacts.burst_of w input now) (ApprovalFacts.off_hours now)
                (action input)) as Hb.
  assert (incl (r_signals resolved
                ++ baseline_signals (ApprovalFacts.baseline_of w input)
                     (ApprovalFacts.burst_of w input now) (ApprovalFacts.off_hours now)
                     (action input))
               (ApprovalFacts.policy_signals ++ ApprovalFacts.baseline_signal_names))
    as Hfront.
  { intros x Hx. apply in_app_or in Hx. apply in_or_app.
    destruct Hx as [Hx | Hx]; [left; now apply Hp | right; now apply Hb]. }
  unfold ApprovalFacts.gate_of.
  destruct (ApprovalFacts.approval_gate_cases w input now (r_decision resolved)
              (r_reason resolved)
              (r_signals resolved
               ++ baseline_signals (ApprovalFacts.baseline_of w input)
                    (ApprovalFacts.burst_of w input now) (ApprovalFacts.off_hours now)
                    (action input))
              (r_rules resolved))
    as [_ -> | id found _ _ _ _ -> | created _ _ _ _ _ _ _ ->]; cbn [g_signals].
  - split.
    + intros x Hx. rewrite unique_In in Hx. apply Hfront in Hx.
      unfold signal_names. rewrite app_assoc. apply in_or_app. now left.
    + intros [Hc _]. rewrite unique_In in Hc. apply Hfront in Hc.
      simpl in Hc. intuition discriminate.
  - split.
    + intros x Hx. rewrite unique_In in Hx. apply in_app_or in Hx.
      unfold signal_names. rewrite app_assoc. apply in_or_app.
      destruct Hx as [Hx | [<- | []]]; [left; now apply Hfront | right; simpl; tauto].
    + intros [_ Hq]. rewrite unique_In in Hq. apply in_app_or in Hq.
      destruct Hq as [Hq | [Hq | []]]; [| discriminate].
      apply Hfront in Hq. simpl in Hq. intuition discriminate.
  - split.
    + intros x Hx. rewrite unique_In in Hx. apply in_app_or in Hx.
      unfold signal_names. rewrite app_assoc. apply in_or_app.
      destruct Hx as [Hx | [<- | []]]; [left; now apply Hfront | right; simpl; tauto].
    + intros [Hc _]. rewrite unique_In in Hc. apply in_app_or in Hc.
      destruct Hc as [Hc | [Hc | []]]; [| discriminate].
      apply Hfront in Hc. simpl in Hc. intuition discriminate.
Qed.

(** *** Blocks that come before the policy *)

(** The three reasons for which an evaluation blocks before it evaluates
    the policy: a block forced by the caller, a disabled agent, an active
    policy that is not approved. *)
Inductive EarlyBlock (w : World) (input : EvaluateAndLogInput) : string -> Prop :=
| block_forced (forced : string) :
    truthy (forceBlockReason input) = Some forced ->
    EarlyBlock w input forced
| block_disabled :
    truthy (forceBlockReason input) = None ->
    agent_status (agent_ input) = DISABLED ->
    EarlyBlock w input "agent_disabled"
| block_unapproved (pid : string) (policy_ : Policy) (rules : PolicyEngine.PolicyRules) :
    truthy (forceBlockReason input) = None ->
    agent_status (agent_ input) = ACTIVE ->
    truthy (activePolicyId (agent_ input)) = Some pid ->
    findPolicy w pid (workspaceId input) = Some policy_ ->
    PolicyEngine.normalizePolicyRules
      (Some (rules_with_mode (p_rules policy_) (p_mode policy_)))
      (Some (p_mode policy_)) = Return rules ->
    p_status policy_ <> POLICY_APPROVED ->
    EarlyBlock w input "policy_not_approved".

Lemma resolve_early (w : World) (input : EvaluateAndLogInput) (burstRate : Z)
    (why : string) :
  EarlyBlock w input why ->
  exists rules,
    resolve w input burstRate
    = Return {| r_decision := BLOCK; r_reason := why; r_signals := [];
                r_rules := rules |}.
Proof.
  intros Hearly. unfold resolve. simpl.
  destruct Hearly as [forced Hf | Hf Hd | pid policy_ rules Hf Hs Hp Hfind Hnorm Hst].
  - rewrite Hf. eexists. reflexivity.
  - rewrite Hf, Hd. eexists. reflexivity.
  - rewrite Hf, Hs, Hp, Hfind, Hnorm. simpl.
    destruct (p_status policy_); try (eexists; reflexivity). congruence.
Qed.

(** Such a block is final: whatever the store holds and whatever approval
    the caller presents, the evaluation returns BLOCK with that reason,
    asks for no approval, raises no policy signal and no approval signal,
    and leaves every approval request as it was (the playbooks may add
    requests). It still returns and is logged. *)
Theorem early_block_is_final (w : World) (input : EvaluateAndLogInput) (now : Z)
    (why : string) :
  EarlyBlock w input why ->
  exists w' res,
    evaluateAndLogAction w input now = Return (w', res)
    /\ decision res = BLOCK
    /\ reason res = why
    /\ res_approvalRequestId res = None
    /\ incl (signals res) ApprovalFacts.baseline_signal_names
    /\ exists added, actionApprovalRequest w' = actionApprovalRequest w ++ added.
Proof.
  intros Hearly.
  destruct (resolve_early w input (ApprovalFacts.burst_of w input now) why Hearly)
    as (rules & Hres).
  pose proof (ApprovalFacts.evaluate_resolved w input now _ Hres) as Heval.
  destruct (record_outcome input now (ApprovalFacts.baseline_of w input)
              (ApprovalFacts.burst_of w input now) (ApprovalFacts.off_hours now)
              (ApprovalFacts.gate_of w input now
                 {| r_decision := BLOCK; r_reason := why; r_signals := [];
                    r_rules := rules |})) as [w' res] eqn:Hout.
  exists w', res. split; [exact Heval |].
  destruct (ApprovalFacts.evaluate_result w input now w' res Heval)
    as (resolved & Hres' & Hdec & Hrea & Hsig & Hid & Hgrows).
  rewrite Hres in Hres'. injection Hres' as <-.
  unfold ApprovalFacts.gate_of, approval_gate in Hdec, Hrea, Hsig, Hid, Hgrows.
  cbn [r_decision r_reason r_signals r_rules Decision_eqb andb g_decision g_reason
       g_signals g_approvalId g_world app] in Hdec, Hrea, Hsig, Hid, Hgrows.
  repeat (split; [assumption |]).
  split.
  - rewrite Hsig. intros x Hx. rewrite unique_In in Hx.
    exact (ApprovalFacts.baseline_signals_vocabulary _ _ _ _ x Hx).
  - destruct Hgrows as (_ & added & Hadded & _). now exists added.
Qed.

End WithRuntime.

End EvaluationFacts.

(** ** Behavioural baselines *)

Module BaselineFacts.
Import Store ActionService.

(** The sample count of the baseline an evaluation found, 0 without one. *)
Definition samples (baseline : option AgentActionBaseline) : Z :=
  match baseline with
  | Some b => sampleCount b
  | None => 0
  end.

(** The row an update writes over a matching baseline. *)
Definition updated_row (b : AgentActionBaseline) (now : Z)
    (baseline : option AgentActionBaseline) (riskScore_ burstRate : Z)
  : AgentActionBaseline :=
  let count := samples baseline in
  let avgRisk := match baseline with Some b0 => avgRiskScore b0 | None => 0%Q end in
  let avgRate := match baseline with Some b0 => avgPerMinute b0 | None => 0%Q end in
  {| b_workspaceId := b_workspaceId b; b_agentId := b_agentId b;
     b_tool := b_tool b; b_action := b_action b;
     avgRiskScore :=
       toFixed2 ((avgRisk * inject_Z count + inject_Z riskScore_) / inject_Z (count + 1));
     avgPerMinute :=
       toFixed2 ((avgRate * inject_Z count + inject_Z burstRate) / inject_Z (count + 1));
     sampleCount := count + 1;
     lastSeenAt := Some now |}.

Lemma upsertBaseline_rows (w : World) (input : EvaluateAndLogInput) (now : Z)
    (baseline : option AgentActionBaseline) (riskScore_ burstRate : Z) :
  let matches := baseline_matches (agent_id (agent_ input)) (tool input) (action input) in
  agentActionBaseline (upsertBaseline w input now baseline riskScore_ burstRate)
  = if existsb matches (agentActionBaseline w)
    then map (fun b => if matches b
                       then updated_row b now baseline riskScore_ burstRate else b)
             (agentActionBaseline w)
    else agentActionBaseline w
         ++ [ {| b_workspaceId := workspaceId input;
                 b_agentId := agent_id (agent_ input);
                 b_tool := tool input; b_action := action input;
                 avgRiskScore := inject_Z riskScore_;
                 avgPerMinute := inject_Z burstRate;
                 sampleCount := 1; lastSeenAt := Some now |} ].
Proof.
  cbv zeta. unfold upsertBaseline. cbv zeta.
  destruct (existsb _ (agentActionBaseline w)); reflexivity.
Qed.

Lemma find_updated {A : Type} (f : A -> bool) (g : A -> A) (l : list A) (b : A) :
  find f l = Some b ->
  (forall x, f x = true -> f (g x) = true) ->
  find f (map (fun x => if f x then g x else x) l) = Some (g b).
Proof.
  intros Hfind Hg. induction l as [| x l IH]; [discriminate |].
  simpl in Hfind. simpl. destruct (f x) eqn:E.
  - injection Hfind as ->. now rewrite (Hg b E).
  - rewrite E. now apply IH.
Qed.

Lemma find_existsb {A : Type} (f : A -> bool) (l : list A) :
  existsb f l = match find f l with Some _ => true | None => false end.
Proof.
  induction l as [| x l IH]; [reflexivity |]. simpl. destruct (f x); [reflexivity | exact IH].
Qed.

Section WithRuntime.
Context {R : Runtime}.

Lemma record_outcome_baselines (input : EvaluateAndLogInput) (now : Z)
    (baseline : option AgentActionBaseline) (burstRate : Z) (isOffHours : bool)
    (gated : Gated) :
  let out := record_outcome input now baseline burstRate isOffHours gated in
  agentActionBaseline (fst out)
  = agentActionBaseline
      (upsertBaseline (g_world gated) input now baseline (riskScore (snd out)) burstRate).
Proof.
  cbv zeta. unfold record_outcome. cbv zeta. cbn [fst snd riskScore].
  match goal with
  | |- agentActionBaseline (PlaybookService.runPlaybooksForEvent ?w3 ?i ?n) = _ =>
      destruct (EvaluationFacts.runPlaybooks_same_core w3 i n) as (_ & Hb & _); rewrite Hb
  end.
  rewrite !upsertBaseline_rows. reflexivity.
Qed.

(** The baselines after an evaluation: those before it, with the baseline
    of the call's (agent, tool, action) upserted. *)
Lemma evaluation_baselines (w : World) (input : EvaluateAndLogInput) (now : Z)
    (w' : World) (res : Evaluation) :
  evaluateAndLogAction w input now = Return (w', res) ->
  agentActionBaseline w'
  = agentActionBaseline
      (upsertBaseline w input now (ApprovalFacts.baseline_of w input) (riskScore res)
                      (ApprovalFacts.burst_of w input now)).
Proof.
  intros H.
  destruct (ApprovalFacts.evaluate_inv w input now w' res H) as (resolved & _ & Hout).
  pose proof (record_outcome_baselines input now (ApprovalFacts.baseline_of w input)
                (ApprovalFacts.burst_of w input now) (ApprovalFacts.off_hours now)
                (ApprovalFacts.gate_of w input now resolved)) as Hrec.
  cbv zeta in Hrec. rewrite <- Hout in Hrec. cbn [fst snd] in Hrec.
  rewrite Hrec, !upsertBaseline_rows. cbv zeta.
  destruct (EvaluationFacts.gate_keeps_core w input now (r_decision resolved)
              (r_reason resolved)
              (r_signals resolved
               ++ baseline_signals (ApprovalFacts.baseline_of w input)
                    (ApprovalFacts.burst_of w input now) (ApprovalFacts.off_hours now)
                    (action input))
              (r_rules resolved)) as (_ & Hb & _).
  fold (ApprovalFacts.gate_of w input now resolved) in Hb.
  now rewrite Hb.
Qed.

(** An evaluation raises [new_action_pattern] exactly when the baseline of
    its (agent, tool, action) holds fewer than three samples (none counts
    as zero), and it leaves a baseline for them that holds one sample
    more: from no baseline, the first three evaluations of an action carry
    the signal and the fourth does not. *)
Theorem new_pattern_until_three_samples (w : World) (input : EvaluateAndLogInput)
    (now : Z) (w' : World) (res : Evaluation) :
  evaluateAndLogAction w input now = Return (w', res) ->
  (In "new_action_pattern" (signals res)
   <-> samples (ApprovalFacts.baseline_of w input) < 3)
  /\ exists b',
       ApprovalFacts.baseline_of w' input = Some b'
       /\ sampleCount b' = samples (ApprovalFacts.baseline_of w input) + 1.
Proof.
  intros H. split.
  - destruct (ApprovalFacts.evaluate_result w input now w' res H)
      as (resolved & Hres & _ & _ & Hsig & _ & _).
    rewrite Hsig, unique_In. unfold ApprovalFacts.gate_of.
    pose proof (ApprovalFacts.resolve_signals w input _ resolved Hres) as Hp.
    assert (In "new_action_pattern"
               (baseline_signals (ApprovalFacts.baseline_of w input)
                  (ApprovalFacts.burst_of w input now) (ApprovalFacts.off_hours now)
                  (action input))
            <-> samples (ApprovalFacts.baseline_of w input) < 3) as Hb.
    { unfold baseline_signals, samples. rewrite <- Z.ltb_lt.
      destruct (andb (5 <=? _) _);
        destruct (match ApprovalFacts.baseline_of w input with
                  | Some b => sampleCount b
                  | None => 0
                  end <? 3);
        destruct (andb (ApprovalFacts.off_hours now) _); simpl;
        intuition discriminate. }
    assert (In "new_action_pattern"
               (r_signals resolved
                ++ baseline_signals (ApprovalFacts.baseline_of w input)
                     (ApprovalFacts.burst_of w input now) (ApprovalFacts.off_hours now)
                     (action input))
            <-> samples (ApprovalFacts.baseline_of w input) < 3) as Hfront.
    { rewrite in_app_iff, Hb. split; [| tauto].
      intros [Hin | Hin]; [| exact Hin].
      apply Hp in Hin. simpl in Hin. intuition discriminate. }
    destruct (ApprovalFacts.approval_gate_cases w input now (r_decision resolved)
                (r_reason resolved)
                (r_signals resolved
                 ++ baseline_signals (ApprovalFacts.baseline_of w input)
                      (ApprovalFacts.burst_of w input now) (ApprovalFacts.off_hours now)
                      (action input))
                (r_rules resolved))
      as [_ -> | id found _ _ _ _ -> | created _ _ _ _ _ _ _ ->]; cbn [g_signals].
    + exact Hfront.
    + rewrite in_app_iff, Hfront. simpl. intuition discriminate.
    + rewrite in_app_iff, Hfront. simpl. intuition discriminate.
  - unfold ApprovalFacts.baseline_of at 1. unfold findBaseline.
    rewrite (evaluation_baselines w input now w' res H), upsertBaseline_rows. cbv zeta.
    rewrite find_existsb. unfold ApprovalFacts.baseline_of, findBaseline.
    destruct (find (baseline_matches (agent_id (agent_ input)) (tool input) (action input))
                   (agentActionBaseline w)) as [b |] eqn:E.
    + rewrite (find_updated _ (fun x => updated_row x now (Some b) (riskScore res)
                                          (ApprovalFacts.burst_of w input now)) _ b E).
      * eexists. split; [reflexivity |]. reflexivity.
      * intros x Hx. exact Hx.
    + rewrite find_append, E. simpl.
      unfold baseline_matches. simpl. rewrite !String.eqb_refl. simpl.
      eexists. split; [reflexivity |]. reflexivity.
Qed.

End WithRuntime.

End BaselineFacts.

(** ** The life of an approval request *)

Module ApprovalLifecycle.
Import Store ActionService.

(** The approval table with the next id the store issues. *)
Definition Table : Type := (list ActionApprovalRequest * nat)%type.

Definition table_of (w : World) : Table := (actionApprovalRequest w, next_id w).

(** Ids are unique and were issued by the store (the primary key). *)
Definition keyed (t : Table) : Prop :=
  Forall (fun r => (a_id r < snd t)%nat) (fst t) /\ NoDup (map a_id (fst t)).

(** A request as the service creates it. *)
Definition fresh (r : ActionApprovalRequest) : Prop :=
  a_status r = PENDING /\ consumedAt r = None
  /\ resolvedByUserId r = None /\ resolvedAt r = None.

(** What holds of every request the service wrote: it is never EXPIRED; if
    consumed, it is APPROVED; it names who resolved it, and when, exactly
    when it is no longer PENDING. *)
Definition row_ok (r : ActionApprovalRequest) : Prop :=
  a_status r <> EXPIRED
  /\ (forall t, consumedAt r = Some t -> a_status r = APPROVED)
  /\ (a_status r = PENDING -> resolvedByUserId r = None /\ resolvedAt r = None)
  /\ (a_status r <> PENDING -> resolvedByUserId r <> None /\ resolvedAt r <> None).

(** [r'] is the request [r] later on, its resolution untouched. *)
Definition settled (r r' : ActionApprovalRequest) : Prop :=
  a_id r' = a_id r /\ a_workspaceId r' = a_workspaceId r /\ a_agentId r' = a_agentId r
  /\ a_tool r' = a_tool r /\ a_action r' = a_action r /\ expiresAt r' = expiresAt r
  /\ a_status r' = a_status r
  /\ resolvedByUserId r' = resolvedByUserId r /\ resolvedAt r' = resolvedAt r
  /\ resolutionNote r' = resolutionNote r
  /\ (forall t, consumedAt r = Some t -> consumedAt r' = Some t).

Definition resolve_row (target : nat) (status : ApprovalStatus) (user : string)
    (now : Z) (note : option string) (r : ActionApprovalRequest) : ActionApprovalRequest :=
  if Nat.eqb (a_id r) target then set_resolution r status user now note else r.

(** The writes the service makes to the approval table. *)
Inductive table_op : Table -> Table -> Prop :=
| op_none (t : Table) : table_op t t
| op_new (rs : list ActionApprovalRequest) (n : nat) (r : ActionApprovalRequest) :
    a_id r = n -> fresh r -> table_op (rs, n) (rs ++ [r], S n)
| op_consume (rs : list ActionApprovalRequest) (n : nat) (found : ActionApprovalRequest)
    (now : Z) :
    In found rs -> a_status found = APPROVED -> consumedAt found = None ->
    now < expiresAt found ->
    table_op (rs, n) (consume rs (a_id found) now, n)
| op_resolve (rs : list ActionApprovalRequest) (n : nat) (approval : ActionApprovalRequest)
    (status : ApprovalStatus) (user : string) (now : Z) (note : option string) :
    In approval rs -> a_status approval = PENDING ->
    status = APPROVED \/ status = REJECTED ->
    table_op (rs, n) (map (resolve_row (a_id approval) status user now note) rs, n)
| op_trans (t1 t2 t3 : Table) : table_op t1 t2 -> table_op t2 t3 -> table_op t1 t3.

Lemma settled_refl (r : ActionApprovalRequest) : settled r r.
Proof. unfold settled. intuition. Qed.

Lemma settled_trans (r1 r2 r3 : ActionApprovalRequest) :
  settled r1 r2 -> settled r2 r3 -> settled r1 r3.
Proof.
  intros (A1 & B1 & C1 & D1 & E1 & F1 & G1 & H1 & I1 & J1 & K1)
         (A2 & B2 & C2 & D2 & E2 & F2 & G2 & H2 & I2 & J2 & K2).
  unfold settled. repeat split; try congruence.
  intros t Ht. now apply K2, K1.
Qed.

Lemma keyed_map (rs : list ActionApprovalRequest) (n : nat)
    (f : ActionApprovalRequest -> ActionApprovalRequest) :
  (forall r, a_id (f r) = a_id r) -> keyed (rs, n) -> keyed (map f rs, n).
Proof.
  intros Hf [Hlt Hnd]. simpl in *. split; simpl.
  - apply Forall_forall. intros r' Hin. apply in_map_iff in Hin.
    destruct Hin as (r & <- & Hin). rewrite Hf.
    rewrite Forall_forall in Hlt. now apply Hlt.
  - rewrite map_map. rewrite (map_ext _ a_id Hf). exact Hnd.
Qed.

Lemma keyed_new (rs : list ActionApprovalRequest) (n : nat) (r : ActionApprovalRequest) :
  a_id r = n -> keyed (rs, n) -> keyed (rs ++ [r], S n).
Proof.
  intros Hid [Hlt Hnd]. simpl in *. split; simpl.
  - apply Forall_app. split.
    + eapply Forall_impl; [| exact Hlt]. intros x Hx. cbv beta in Hx. lia.
    + constructor; [lia | constructor].
  - rewrite map_app. simpl. apply NoDup_app; [exact Hnd | repeat constructor; intros [] |].
    intros i Hi [<- | []]. apply in_map_iff in Hi. destruct Hi as (x & Hx & Hin).
    rewrite Forall_forall in Hlt. specialize (Hlt x Hin). lia.
Qed.

Lemma consume_id (target : nat) (t : Z) (r : ActionApprovalRequest) :
  a_id (if Nat.eqb (a_id r) target then set_consumedAt r t else r) = a_id r.
Proof. destruct (Nat.eqb (a_id r) target); reflexivity. Qed.

Lemma resolve_row_id (target : nat) (status : ApprovalStatus) (user : string) (now : Z)
    (note : option string) (r : ActionApprovalRequest) :
  a_id (resolve_row target status user now note r) = a_id r.
Proof. unfold resolve_row. destruct (Nat.eqb (a_id r) target); reflexivity. Qed.

(** What every write keeps. *)
Lemma table_op_keeps (t t' : Table) :
  table_op t t' ->
  keyed t ->
  keyed t'
  /\ (forall r, In r (fst t) -> a_status r <> PENDING ->
                exists r', In r' (fst t') /\ settled r r')
  /\ (Forall row_ok (fst t) -> Forall row_ok (fst t')).
Proof.
  intros Hop. induction Hop as [t | rs n r Hid Hfresh
                                | rs n found now Hin Hst Hcons Hexp
                                | rs n approval status user now note Hin Hst Hstatus
                                | t1 t2 t3 _ IH12 _ IH23]; intros Hkeyed.
  - split; [exact Hkeyed | split; [| tauto]].
    intros r Hr _. exists r. split; [exact Hr | apply settled_refl].
  - split; [now apply keyed_new | split]; simpl.
    + intros x Hx _. exists x. split; [apply in_or_app; now left | apply settled_refl].
    + intros Hok. apply Forall_app. split; [exact Hok |].
      constructor; [| constructor]. destruct Hfresh as (H1 & H2 & H3 & H4).
      unfold row_ok. rewrite H1, H2, H3, H4.
      repeat split; try discriminate; try congruence.
  - split; [apply keyed_map; [apply consume_id | exact Hkeyed] | split]; simpl.
    + intros r Hr _. eexists. split; [apply in_map; exact Hr |].
      destruct (Nat.eqb_spec (a_id r) (a_id found)) as [E | E]; [| apply settled_refl].
      assert (r = found) as ->
        by exact (ApprovalFacts.NoDup_map_injective a_id rs r found
                    (proj2 Hkeyed) Hr Hin E).
      unfold settled. simpl. repeat split; try reflexivity. congruence.
    + intros Hok. apply Forall_forall. intros r' Hr'. apply in_map_iff in Hr'.
      destruct Hr' as (r & <- & Hr). rewrite Forall_forall in Hok.
      destruct (Nat.eqb_spec (a_id r) (a_id found)) as [E | E]; [| now apply Hok].
      assert (r = found) as ->
        by exact (ApprovalFacts.NoDup_map_injective a_id rs r found
                    (proj2 Hkeyed) Hr Hin E).
      destruct (Hok found Hin) as (H1 & H2 & H3 & H4).
      unfold row_ok. simpl. split; [exact H1 |].
      split; [intros t0 _; exact Hst |].
      split; [exact H3 | exact H4].
  - split; [apply keyed_map; [apply resolve_row_id | exact Hkeyed] | split]; simpl.
    + intros r Hr Hne. exists (resolve_row (a_id approval) status user now note r).
      split; [now apply in_map |]. unfold resolve_row.
      destruct (Nat.eqb_spec (a_id r) (a_id approval)) as [E | E]; [| apply settled_refl].
      assert (r = approval) as ->
        by exact (ApprovalFacts.NoDup_map_injective a_id rs r approval
                    (proj2 Hkeyed) Hr Hin E).
      contradiction.
    + intros Hok. apply Forall_forall. intros r' Hr'. apply in_map_iff in Hr'.
      destruct Hr' as (r & <- & Hr). rewrite Forall_forall in Hok. unfold resolve_row.
      destruct (Nat.eqb_spec (a_id r) (a_id approval)) as [E | E]; [| now apply Hok].
      assert (r = approval) as ->
        by exact (ApprovalFacts.NoDup_map_injective a_id rs r approval
                    (proj2 Hkeyed) Hr Hin E).
      destruct (Hok approval Hin) as (H1 & H2 & H3 & H4).
      unfold row_ok. simpl. split; [destruct Hstatus as [-> | ->]; discriminate |].
      split; [intros t0 Ht; pose proof (H2 t0 Ht); congruence |].
      split; [intros E'; destruct Hstatus as [-> | ->]; discriminate |].
      intros _. split; discriminate.
  - destruct (IH12 Hkeyed) as (K2 & S12 & O12).
    destruct (IH23 K2) as (K3 & S23 & O23).
    split; [exact K3 | split; [| tauto]].
    intros r Hr Hne. destruct (S12 r Hr Hne) as (r2 & Hr2 & Hs12).
    assert (a_status r2 <> PENDING) as Hne2.
    { destruct Hs12 as (_ & _ & _ & _ & _ & _ & Hst & _). congruence. }
    destruct (S23 r2 Hr2 Hne2) as (r3 & Hr3 & Hs23).
    exists r3. split; [exact Hr3 | exact (settled_trans r r2 r3 Hs12 Hs23)].
Qed.

(** From [w1] to [w2] the approval table only received fresh requests. *)
Definition adds_fresh (w1 w2 : World) : Prop :=
  exists added,
    actionApprovalRequest w2 = actionApprovalRequest w1 ++ added /\ Forall fresh added.

Lemma adds_fresh_same (w1 w2 : World) :
  actionApprovalRequest w2 = actionApprovalRequest w1 -> adds_fresh w1 w2.
Proof. intros H. exists []. rewrite app_nil_r. now split. Qed.

Lemma adds_fresh_trans (w1 w2 w3 : World) :
  adds_fresh w1 w2 -> adds_fresh w2 w3 -> adds_fresh w1 w3.
Proof.
  intros (x1 & H1 & F1) (x2 & H2 & F2). exists (x1 ++ x2). split.
  - rewrite H2, H1. now rewrite app_assoc.
  - apply Forall_app. now split.
Qed.

Section WithRuntime.
Context {R : Runtime}.

(** The playbook action: what it does to the approval table. *)
Lemma dispatch_table (w : World) (input : PlaybookService.PlaybookInput)
    (playbook : WorkspacePlaybook) (now : Z) :
  let w' := fst (PlaybookService.dispatch w input playbook now) in
  table_op (table_of w) (table_of w') /\ adds_fresh w w'.
Proof.
  cbv zeta. unfold PlaybookService.dispatch.
  destruct (String.eqb (actionType playbook) "DISABLE_AGENT").
  { destruct (truthy (PlaybookService.pi_agentId input));
      [| split; [apply op_none | now apply adds_fresh_same]].
    destruct (existsb _ _); (split; [apply op_none | now apply adds_fresh_same]). }
  destruct (String.eqb (actionType playbook) "REVOKE_ACTIVE_KEYS").
  { destruct (truthy (PlaybookService.pi_agentId input));
      (split; [apply op_none | now apply adds_fresh_same]). }
  destruct (String.eqb (actionType playbook) "CREATE_APPROVAL").
  { destruct (truthy (PlaybookService.pi_agentId input));
      [| split; [apply op_none | now apply adds_fresh_same]].
    split.
    - unfold table_of. simpl. apply op_new; [reflexivity | now repeat split].
    - eexists. split; [reflexivity |]. constructor; [now repeat split | constructor]. }
  destruct (String.eqb (actionType playbook) "NOTIFY_WEBHOOK").
  { destruct (String.eqb _ ""); [split; [apply op_none | now apply adds_fresh_same] |].
    unfold PlaybookService.executeWebhook.
    destruct (fetch_rejects _); (split; [apply op_none | now apply adds_fresh_same]). }
  split; [apply op_none | now apply adds_fresh_same].
Qed.

Lemma run_playbook_table (input : PlaybookService.PlaybookInput) (now : Z)
    (w : World) (playbook : WorkspacePlaybook) :
  let w' := PlaybookService.run_playbook input now w playbook in
  table_op (table_of w) (table_of w') /\ adds_fresh w w'.
Proof.
  cbv zeta. unfold PlaybookService.run_playbook.
  destruct (orb _ _); [split; [apply op_none | now apply adds_fresh_same] |].
  pose proof (dispatch_table w input playbook now) as Hd. cbv zeta in Hd.
  destruct (PlaybookService.dispatch w input playbook now) as [w' [message | e]];
    simpl in Hd; exact Hd.
Qed.

Lemma runPlaybooks_table (w : World) (input : PlaybookService.PlaybookInput) (now : Z) :
  let w' := PlaybookService.runPlaybooksForEvent w input now in
  table_op (table_of w) (table_of w') /\ adds_fresh w w'.
Proof.
  cbv zeta. unfold PlaybookService.runPlaybooksForEvent.
  generalize (PlaybookService.findPlaybooks w (PlaybookService.pi_workspaceId input)).
  intros playbooks. revert w. induction playbooks as [| p playbooks IH]; intros w; simpl.
  - split; [apply op_none | now apply adds_fresh_same].
  - destruct (run_playbook_table input now w p) as [H1 F1].
    destruct (IH (PlaybookService.run_playbook input now w p)) as [H2 F2].
    split; [exact (op_trans _ _ _ H1 H2) | exact (adds_fresh_trans _ _ _ F1 F2)].
Qed.

Lemma record_outcome_table (input : EvaluateAndLogInput) (now : Z)
    (baseline : option AgentActionBaseline) (burstRate : Z) (isOffHours : bool)
    (gated : Gated) :
  let w' := fst (record_outcome input now baseline burstRate isOffHours gated) in
  table_op (table_of (g_world gated)) (table_of w') /\ adds_fresh (g_world gated) w'.
Proof.
  cbv zeta. unfold record_outcome. cbv zeta. cbn [fst].
  match goal with
  | |- table_op _ (table_of (PlaybookService.runPlaybooksForEvent ?w3 ?i ?n)) /\ _ =>
      destruct (runPlaybooks_table w3 i n) as [H F];
      assert (table_of w3 = table_of (g_world gated)) as Ht
        by (unfold upsertBaseline; destruct (existsb _ _); reflexivity);
      assert (actionApprovalRequest w3 = actionApprovalRequest (g_world gated)) as Ha
        by (unfold upsertBaseline; destruct (existsb _ _); reflexivity)
  end.
  rewrite Ht in H. split; [exact H |].
  destruct F as (added & Hadded & Hfresh). exists added. now rewrite <- Ha.
Qed.

Lemma gate_table (w : World) (input : EvaluateAndLogInput) (now : Z)
    (decision_ : Decision) (reason_ : string) (signals_ : list string)
    (rules : PolicyEngine.PolicyRules) :
  let gated := approval_gate w input now decision_ reason_ signals_ rules in
  table_op (table_of w) (table_of (g_world gated))
  /\ (g_decision gated = BLOCK -> adds_fresh w (g_world gated)).
Proof.
  cbv zeta. unfold approval_gate.
  destruct (andb (Decision_eqb decision_ ALLOW) _) eqn:Hcond;
    [| split; [apply op_none | intros _; now apply adds_fresh_same]].
  assert (decision_ = ALLOW) as ->
    by (destruct decision_; [reflexivity | discriminate]).
  assert (forall created,
            a_id created = next_id w -> fresh created ->
            table_op (table_of w)
              (table_of (with_approvals w (actionApprovalRequest w ++ [created])
                                        (S (next_id w))))
            /\ adds_fresh w (with_approvals w (actionApprovalRequest w ++ [created])
                                            (S (next_id w)))) as Hnew.
  { intros created Hid Hfresh. split.
    - unfold table_of. simpl. now apply op_new.
    - exists [created]. split; [reflexivity |]. constructor; [exact Hfresh | constructor]. }
  destruct (approvalRequestId input) as [requestId |].
  - destruct (find _ (actionApprovalRequest w)) as [found |] eqn:Hfind.
    + split; [| discriminate].
      apply find_some in Hfind. destruct Hfind as [Hin Hok].
      apply ApprovalFacts.approved_for_true in Hok.
      destruct Hok as (_ & _ & _ & Hst & Hcons & Hexp).
      unfold table_of. simpl. now apply op_consume.
    + split; [| intros _]; apply Hnew; (reflexivity || now repeat split).
  - split; [| intros _]; apply Hnew; (reflexivity || now repeat split).
Qed.

Lemma evaluation_table (w : World) (input : EvaluateAndLogInput) (now : Z)
    (w' : World) (res : Evaluation) :
  evaluateAndLogAction w input now = Return (w', res) ->
  table_op (table_of w) (table_of w')
  /\ (decision res = BLOCK -> adds_fresh w w').
Proof.
  intros H.
  destruct (ApprovalFacts.evaluate_inv w input now w' res H) as (resolved & _ & Hout).
  destruct (record_outcome_table input now (ApprovalFacts.baseline_of w input)
              (ApprovalFacts.burst_of w input now) (ApprovalFacts.off_hours now)
              (ApprovalFacts.gate_of w input now resolved)) as [Hop Hadd].
  rewrite <- Hout in Hop, Hadd. cbn [fst] in Hop, Hadd.
  destruct (gate_table w input now (r_decision resolved) (r_reason resolved)
              (r_signals resolved
               ++ baseline_signals (ApprovalFacts.baseline_of w input)
                    (ApprovalFacts.burst_of w input now) (ApprovalFacts.off_hours now)
                    (action input))
              (r_rules resolved)) as [Hgate Hblock].
  fold (ApprovalFacts.gate_of w input now resolved) in Hgate, Hblock.
  split; [exact (op_trans _ _ _ Hgate Hop) |].
  intros Hd.
  assert (decision res
          = decision (snd (record_outcome input now (ApprovalFacts.baseline_of w input)
                             (ApprovalFacts.burst_of w input now)
                             (ApprovalFacts.off_hours now)
                             (ApprovalFacts.gate_of w input now resolved)))) as E
    by (rewrite <- Hout; reflexivity).
  rewrite E in Hd. exact (adds_fresh_trans _ _ _ (Hblock Hd) Hadd).
Qed.

Lemma resolve_request_table (status : ApprovalStatus) (w : World) (target : nat)
    (authorized : bool) (user : string) (note : option string) (now : Z) :
  status = APPROVED \/ status = REJECTED ->
  table_op (table_of w) (table_of (resolve_request status w target authorized user note now)).
Proof.
  intros Hstatus. unfold resolve_request.
  destruct (find _ (actionApprovalRequest w)) as [approval |] eqn:Hfind; [| apply op_none].
  destruct (negb authorized); [apply op_none |].
  destruct (negb (ApprovalStatus_eqb (a_status approval) PENDING)) eqn:Hp;
    [apply op_none |].
  apply find_some in Hfind. destruct Hfind as [Hin _].
  unfold table_of. simpl.
  apply (op_resolve _ _ approval status user now note Hin); [| exact Hstatus].
  destruct (a_status approval); simpl in Hp; congruence.
Qed.

Lemma serve_table (w : World) (request : Request) :
  table_op (table_of w) (table_of (serve w request)).
Proof.
  destruct request as [input now | |]; simpl.
  - destruct (evaluateAndLogAction w input now) as [[w' res] | e] eqn:H; [| apply op_none].
    exact (proj1 (evaluation_table w input now w' res H)).
  - apply resolve_request_table. now left.
  - apply resolve_request_table. now right.
Qed.

Lemma run_table (requests : list Request) (w : World) :
  table_op (table_of w) (table_of (run w requests)).
Proof.
  revert w. induction requests as [| q requests IH]; intros w; simpl.
  - apply op_none.
  - exact (op_trans _ _ _ (serve_table w q) (IH (serve w q))).
Qed.

(** A resolution is final. In a store whose approval requests have unique,
    issued ids, a request that is no longer PENDING keeps, through every
    sequence of evaluations, approvals and rejections with the playbooks
    they trigger, its status, its resolver, time and note of resolution,
    its workspace, agent, tool, action and expiry, and its consumption if
    it had one: a rejected request never becomes approved, and no request
    is removed. *)
Theorem resolution_is_final (requests : list Request) (w : World)
    (r : ActionApprovalRequest) :
  keyed (table_of w) ->
  In r (actionApprovalRequest w) ->
  a_status r <> PENDING ->
  exists r', In r' (actionApprovalRequest (run w requests)) /\ settled r r'.
Proof.
  intros Hkeyed Hin Hne.
  destruct (table_op_keeps _ _ (run_table requests w) Hkeyed) as (_ & Hkeep & _).
  exact (Hkeep r Hin Hne).
Qed.

(** The approval table stays well formed. From a store whose requests have
    unique, issued ids and are each well formed, every sequence of
    requests leaves a store of that kind: no request is ever EXPIRED (the
    code never writes that status), a consumed request is APPROVED, and a
    request names its resolver exactly when it is no longer PENDING. *)
Theorem approvals_stay_well_formed (requests : list Request) (w : World) :
  keyed (table_of w) ->
  Forall row_ok (actionApprovalRequest w) ->
  keyed (table_of (run w requests))
  /\ Forall row_ok (actionApprovalRequest (run w requests)).
Proof.
  intros Hkeyed Hok.
  destruct (table_op_keeps _ _ (run_table requests w) Hkeyed) as (K & _ & O).
  split; [exact K | exact (O Hok)].
Qed.

(** A blocked evaluation uses up no approval: when the call returns BLOCK,
    every approval request of the store is as it was before the call, and
    the requests added (by the gate, by playbooks) are fresh ones,
    PENDING and unconsumed. *)
Theorem blocked_evaluation_consumes_nothing (w : World) (input : EvaluateAndLogInput)
    (now : Z) (w' : World) (res : Evaluation) :
  evaluateAndLogAction w input now = Return (w', res) ->
  decision res = BLOCK ->
  exists added,
    actionApprovalRequest w' = actionApprovalRequest w ++ added
    /\ Forall fresh added.
Proof.
  intros H Hd. exact (proj2 (evaluation_table w input now w' res H) Hd).
Qed.

End WithRuntime.

End ApprovalLifecycle.

(** ** Playbook runs *)

Module PlaybookRuns.
Import Store PlaybookService.

Lemma insert_by_createdAt_Permutation (p : WorkspacePlaybook)
    (l : list WorkspacePlaybook) :
  Permutation (insert_by_createdAt p l) (p :: l).
Proof.
  induction l as [| q l IH]; simpl; [apply Permutation_refl |].
  destruct (pb_createdAt q <=? pb_createdAt p); [| apply Permutation_refl].
  eapply Permutation_trans; [apply perm_skip, IH | apply perm_swap].
Qed.

Lemma orderBy_createdAt_Permutation (l : list WorkspacePlaybook) :
  Permutation (orderBy_createdAt l) l.
Proof.
  unfold orderBy_createdAt.
  assert (forall acc, Permutation (fold_left (fun acc p => insert_by_createdAt p acc) l acc)
                                  (acc ++ l)) as H.
  { induction l as [| p l IH]; intros acc; simpl.
    - rewrite app_nil_r. apply Permutation_refl.
    - eapply Permutation_trans; [apply IH |].
      eapply Permutation_trans;
        [apply Permutation_app_tail, insert_by_createdAt_Permutation |].
      simpl. apply Permutation_middle. }
  exact (H []).
Qed.

(** From the playbook created first to the one created last. *)
Definition oldest_first (l : list WorkspacePlaybook) : Prop :=
  StronglySorted (fun a b => pb_createdAt a <= pb_createdAt b) l.

Lemma insert_by_createdAt_sorted (p : WorkspacePlaybook) (l : list WorkspacePlaybook) :
  oldest_first l -> oldest_first (insert_by_createdAt p l).
Proof.
  unfold oldest_first. induction l as [| q l IH]; intros Hs; simpl.
  - constructor; constructor.
  - inversion Hs as [| ? ? Hs' Hall]; subst.
    destruct (pb_createdAt q <=? pb_createdAt p) eqn:E.
    + apply Z.leb_le in E. constructor; [now apply IH |].
      apply Forall_forall. intros x Hx.
      apply (Permutation_in _ (insert_by_createdAt_Permutation p l)) in Hx.
      destruct Hx as [<- | Hx]; [exact E |].
      rewrite Forall_forall in Hall. now apply Hall.
    + apply Z.leb_gt in E. constructor; [exact Hs |].
      constructor; [lia |].
      eapply Forall_impl; [| exact Hall]. intros x Hx. cbv beta in Hx. lia.
Qed.

Lemma orderBy_createdAt_sorted (l : list WorkspacePlaybook) :
  oldest_first (orderBy_createdAt l).
Proof.
  unfold orderBy_createdAt.
  assert (forall acc, oldest_first acc ->
                      oldest_first (fold_left (fun acc p => insert_by_createdAt p acc) l acc))
    as H.
  { induction l as [| p l IH]; intros acc Hacc; simpl; [exact Hacc |].
    apply IH, insert_by_createdAt_sorted, Hacc. }
  apply H. constructor.
Qed.

(** The agent is disabled in every row that bears its id; every key of the
    agent is revoked. *)
Definition agent_disabled (agentId : string) (w : World) : Prop :=
  Forall (fun a => ag_id a = agentId -> ag_status a = DISABLED) (agent w).

Definition keys_revoked (agentId : string) (w : World) : Prop :=
  Forall (fun k => k_agentId k = agentId -> revokedAt k <> None) (agentApiKey w).

(** No agent row and no key is lost or restored from [w1] to [w2]: a
    disabled row and a revoked key are still there, unchanged. *)
Definition one_way (w1 w2 : World) : Prop :=
  (forall a, In a (agent w1) -> ag_status a = DISABLED -> In a (agent w2))
  /\ (forall k, In k (agentApiKey w1) -> revokedAt k <> None -> In k (agentApiKey w2))
  /\ (forall agentId, agent_disabled agentId w1 -> agent_disabled agentId w2)
  /\ (forall agentId, keys_revoked agentId w1 -> keys_revoked agentId w2).

Lemma one_way_same (w1 w2 : World) :
  agent w2 = agent w1 -> agentApiKey w2 = agentApiKey w1 -> one_way w1 w2.
Proof.
  intros Ha Hk. unfold one_way, agent_disabled, keys_revoked. rewrite Ha, Hk.
  repeat split; auto.
Qed.

Lemma one_way_trans (w1 w2 w3 : World) : one_way w1 w2 -> one_way w2 w3 -> one_way w1 w3.
Proof.
  intros (A1 & B1 & C1 & D1) (A2 & B2 & C2 & D2). repeat split; auto.
Qed.

Lemma disable_rows (agentId target : string) (rows : list Agent) :
  let rows' := map (fun a => if String.eqb (ag_id a) target
                             then {| ag_id := ag_id a; ag_status := DISABLED |}
                             else a) rows in
  (forall a, In a rows -> ag_status a = DISABLED -> In a rows')
  /\ (Forall (fun a => ag_id a = agentId -> ag_status a = DISABLED) rows ->
      Forall (fun a => ag_id a = agentId -> ag_status a = DISABLED) rows')
  /\ Forall (fun a => ag_id a = target -> ag_status a = DISABLED) rows'.
Proof.
  cbv zeta. split; [| split].
  - intros a Hin Hd. apply in_map_iff. exists a. split; [| exact Hin].
    destruct (String.eqb (ag_id a) target); [| reflexivity].
    destruct a as [i st]. simpl in *. now subst st.
  - intros H. apply Forall_forall. intros a' Hin. apply in_map_iff in Hin.
    destruct Hin as (a & <- & Hin). rewrite Forall_forall in H.
    destruct (String.eqb (ag_id a) target); [reflexivity | now apply H].
  - apply Forall_forall. intros a' Hin. apply in_map_iff in Hin.
    destruct Hin as (a & <- & Hin).
    destruct (String.eqb_spec (ag_id a) target); [reflexivity | congruence].
Qed.

Lemma revoke_rows (agentId target : string) (now : Z) (rows : list AgentApiKey) :
  let rows' := map (fun k => match revokedAt k with
                             | None => if String.eqb (k_agentId k) target
                                       then {| k_agentId := k_agentId k;
                                               revokedAt := Some now |}
                                       else k
                             | Some _ => k
                             end) rows in
  (forall k, In k rows -> revokedAt k <> None -> In k rows')
  /\ (Forall (fun k => k_agentId k = agentId -> revokedAt k <> None) rows ->
      Forall (fun k => k_agentId k = agentId -> revokedAt k <> None) rows')
  /\ Forall (fun k => k_agentId k = target -> revokedAt k <> None) rows'.
Proof.
  cbv zeta. split; [| split].
  - intros k Hin Hr. apply in_map_iff. exists k. split; [| exact Hin].
    destruct (revokedAt k); [reflexivity | congruence].
  - intros H. apply Forall_forall. intros k' Hin. apply in_map_iff in Hin.
    destruct Hin as (k & <- & Hin). rewrite Forall_forall in H.
    destruct (revokedAt k) eqn:E.
    + intros Hid. rewrite E. discriminate.
    + destruct (String.eqb (k_agentId k) target); [discriminate |].
      intros Hid. now apply H.
  - apply Forall_forall. intros k' Hin. apply in_map_iff in Hin.
    destruct Hin as (k & <- & Hin).
    destruct (revokedAt k) eqn:E.
    + intros _. rewrite E. discriminate.
    + destruct (String.eqb_spec (k_agentId k) target); [discriminate | congruence].
Qed.

Lemma quot_lower (a d n : Z) : 0 < d -> n * d <= a -> n <= Z.quot a d.
Proof.
  intros Hd H. destruct (Z_le_gt_dec 0 a) as [Ha | Ha].
  - rewrite Z.quot_div_nonneg by lia. apply Z.div_le_lower_bound; lia.
  - assert (Z.quot a d = - ((- a) / d)) as ->.
    { rewrite <- (Z.opp_involutive a) at 1. rewrite Z.quot_opp_l by lia.
      rewrite Z.quot_div_nonneg by lia. reflexivity. }
    assert ((- a) / d <= - n); [| lia].
    apply Z.div_le_upper_bound; [lia |]. nia.
Qed.

Lemma Date_of_lower (t : Q) (n : Z) : (inject_Z n <= t)%Q -> n <= Date_of t.
Proof.
  unfold Qle, Date_of. simpl. intros H.
  apply quot_lower; lia.
Qed.

Lemma Date_of_integer (n m : Z) : Date_of (inject_Z n + inject_Z m)%Q = n + m.
Proof.
  unfold Date_of. simpl. rewrite Z.quot_1_r. lia.
Qed.

Lemma Math_max_lower (a b : Q) : (a <= Risk.Math_max a b)%Q.
Proof.
  unfold Risk.Math_max. destruct (Qle_bool a b) eqn:E.
  - now apply Qle_bool_iff.
  - apply Qle_refl.
Qed.

Section WithRuntime.
Context {R : Runtime}.

Lemma dispatch_effects (w : World) (input : PlaybookInput) (playbook : WorkspacePlaybook)
    (now : Z) :
  let w' := fst (dispatch w input playbook now) in
  playbookExecution w' = playbookExecution w
  /\ workspacePlaybook w' = workspacePlaybook w
  /\ one_way w w'.
Proof.
  cbv zeta. unfold dispatch.
  destruct (String.eqb (actionType playbook) "DISABLE_AGENT").
  { destruct (truthy (pi_agentId input)) as [a |];
      [| repeat split; now apply one_way_same].
    destruct (existsb _ _); [| repeat split; now apply one_way_same].
    simpl. split; [reflexivity | split; [reflexivity |]].
    unfold one_way, agent_disabled. simpl.
    split; [apply (disable_rows a a) | split; [auto | split; [| auto]]].
    intros agentId. apply (disable_rows agentId a). }
  destruct (String.eqb (actionType playbook) "REVOKE_ACTIVE_KEYS").
  { destruct (truthy (pi_agentId input)) as [a |];
      [| repeat split; now apply one_way_same].
    simpl. split; [reflexivity | split; [reflexivity |]].
    unfold one_way, keys_revoked. simpl.
    split; [auto | split; [apply (revoke_rows a a) | split; [auto |]]].
    intros agentId. apply (revoke_rows agentId a). }
  destruct (String.eqb (actionType playbook) "CREATE_APPROVAL").
  { destruct (truthy (pi_agentId input)); repeat split; now apply one_way_same. }
  destruct (String.eqb (actionType playbook) "NOTIFY_WEBHOOK").
  { destruct (String.eqb _ ""); [repeat split; now apply one_way_same |].
    unfold executeWebhook.
    destruct (fetch_rejects _); repeat split; now apply one_way_same. }
  repeat split; now apply one_way_same.
Qed.

Lemma dispatch_disables (w : World) (input : PlaybookInput) (playbook : WorkspacePlaybook)
    (now : Z) (a : string) :
  actionType playbook = "DISABLE_AGENT" ->
  truthy (pi_agentId input) = Some a ->
  agent_disabled a (fst (dispatch w input playbook now)).
Proof.
  intros Htype Hagent. unfold dispatch. rewrite Htype, Hagent. simpl.
  destruct (existsb (fun x => String.eqb (ag_id x) a) (agent w)) eqn:Ex; simpl.
  - apply (disable_rows a a).
  - unfold agent_disabled. apply Forall_forall. intros x Hx Hid. exfalso.
    assert (existsb (fun x => String.eqb (ag_id x) a) (agent w) = true).
    { apply existsb_exists. exists x. split; [exact Hx | now apply String.eqb_eq]. }
    congruence.
Qed.

Lemma dispatch_revokes (w : World) (input : PlaybookInput) (playbook : WorkspacePlaybook)
    (now : Z) (a : string) :
  actionType playbook = "REVOKE_ACTIVE_KEYS" ->
  truthy (pi_agentId input) = Some a ->
  keys_revoked a (fst (dispatch w input playbook now)).
Proof.
  intros Htype Hagent. unfold dispatch. rewrite Htype, Hagent. simpl.
  apply (revoke_rows a a).
Qed.

(** One turn of the loop: one execution row for the playbook, nothing
    restored. *)
Lemma run_playbook_effects (input : PlaybookInput) (now : Z) (w : World)
    (playbook : WorkspacePlaybook) :
  let w' := run_playbook input now w playbook in
  (exists status message,
     playbookExecution w'
     = playbookExecution w
       ++ [ {| ex_playbookId := pb_id playbook; ex_workspaceId := pi_workspaceId input;
               ex_agentId := pi_agentId input; ex_eventId := pi_eventId input;
               ex_status := status; ex_message := message |} ])
  /\ workspacePlaybook w' = workspacePlaybook w
  /\ one_way w w'.
Proof.
  cbv zeta. unfold run_playbook.
  destruct (orb _ _).
  { split; [eexists; eexists; reflexivity |].
    split; [reflexivity | now apply one_way_same]. }
  destruct (dispatch_effects w input playbook now) as (He & Hp & Hone).
  destruct (dispatch w input playbook now) as [w' [message | e]]; simpl in *;
    (split; [eexists; eexists; unfold record_execution; simpl; rewrite He; reflexivity |]);
    (split; [exact Hp |]);
    (eapply one_way_trans; [exact Hone | now apply one_way_same]).
Qed.

Lemma fold_run_playbook_effects (input : PlaybookInput) (now : Z)
    (playbooks : list WorkspacePlaybook) (w : World) :
  let w' := fold_left (run_playbook input now) playbooks w in
  (exists rows,
     playbookExecution w' = playbookExecution w ++ rows
     /\ map ex_playbookId rows = map pb_id playbooks
     /\ Forall (fun e => ex_workspaceId e = pi_workspaceId input
                         /\ ex_agentId e = pi_agentId input
                         /\ ex_eventId e = pi_eventId input) rows)
  /\ workspacePlaybook w' = workspacePlaybook w
  /\ one_way w w'.
Proof.
  cbv zeta. revert w. induction playbooks as [| p playbooks IH]; intros w; simpl.
  - split; [exists []; rewrite app_nil_r; repeat split; constructor |].
    split; [reflexivity | now apply one_way_same].
  - destruct (run_playbook_effects input now w p) as ((st & msg & He) & Hp & Hone).
    cbv zeta in He, Hp, Hone.
    destruct (IH (run_playbook input now w p)) as ((rows & Hrows & Hids & Hall) & Hp' & Hone').
    split; [| split; [congruence | exact (one_way_trans _ _ _ Hone Hone')]].
    eexists. split; [rewrite Hrows, He, <- app_assoc; reflexivity |].
    split; [simpl; now rewrite Hids |].
    constructor; [now repeat split | exact Hall].
Qed.

(** Every enabled playbook of the event's workspace is accounted for: one
    run of [runPlaybooksForEvent] adds to the execution log exactly one row
    per such playbook, each for this event, agent and workspace (be it
    SKIPPED, EXECUTED or FAILED), and the rows come in the order of the
    playbooks' creation: the playbooks they name, row after row, are the
    enabled playbooks of the workspace, each once, with [createdAt]
    ascending. Disabled playbooks and those of other workspaces get no row,
    and a playbook that fails does not stop the ones after it. *)
Theorem one_execution_per_playbook (w : World) (input : PlaybookInput) (now : Z) :
  exists rows playbooks,
    playbookExecution (runPlaybooksForEvent w input now) = playbookExecution w ++ rows
    /\ map ex_playbookId rows = map pb_id playbooks
    /\ Forall (fun e => ex_workspaceId e = pi_workspaceId input
                        /\ ex_agentId e = pi_agentId input
                        /\ ex_eventId e = pi_eventId input) rows
    /\ Permutation playbooks
         (filter (fun p => andb (String.eqb (pb_workspaceId p) (pi_workspaceId input))
                               (enabled p))
                 (workspacePlaybook w))
    /\ oldest_first playbooks.
Proof.
  destruct (fold_run_playbook_effects input now
              (findPlaybooks w (pi_workspaceId input)) w) as ((rows & H1 & H2 & H3) & _).
  exists rows, (findPlaybooks w (pi_workspaceId input)).
  split; [exact H1 | split; [exact H2 | split; [exact H3 | split]]].
  - apply orderBy_createdAt_Permutation.
  - apply orderBy_createdAt_sorted.
Qed.

Lemma fold_reaches (Q : World -> Prop) (input : PlaybookInput) (now : Z)
    (playbook : WorkspacePlaybook) (playbooks : list WorkspacePlaybook) (w : World) :
  (forall w0 p, Q w0 -> Q (run_playbook input now w0 p)) ->
  (forall w0, Q (run_playbook input now w0 playbook)) ->
  In playbook playbooks ->
  Q (fold_left (run_playbook input now) playbooks w).
Proof.
  intros Hkeep Hmake. revert w.
  assert (forall ps w0, Q w0 -> Q (fold_left (run_playbook input now) ps w0)) as Hfold.
  { induction ps as [| p ps IH]; intros w0 Hq; simpl; [exact Hq |].
    apply IH, Hkeep, Hq. }
  induction playbooks as [| p playbooks IH]; intros w Hin; [destruct Hin |].
  simpl. destruct Hin as [-> | Hin].
  - apply Hfold, Hmake.
  - now apply IH.
Qed.

Lemma run_playbook_triggered (input : PlaybookInput) (now : Z) (w : World)
    (playbook : WorkspacePlaybook) :
  decisionMatch input playbook = true ->
  riskMatch input playbook = true ->
  signalsMatch input playbook = true ->
  agent (run_playbook input now w playbook) = agent (fst (dispatch w input playbook now))
  /\ agentApiKey (run_playbook input now w playbook)
     = agentApiKey (fst (dispatch w input playbook now)).
Proof.
  intros Hd Hr Hs. unfold run_playbook. rewrite Hd, Hr, Hs. simpl.
  destruct (dispatch w input playbook now) as [w' [message | e]]; split; reflexivity.
Qed.

(** The kill switch of the playbooks. When an enabled playbook of the
    event's workspace has its trigger conditions met and the event names
    an agent, then after [runPlaybooksForEvent], whatever the other
    playbooks did: if the playbook's action is DISABLE_AGENT, every row of
    that agent is DISABLED; if it is REVOKE_ACTIVE_KEYS, every key of that
    agent is revoked. *)
Theorem playbook_kill_switch (w : World) (input : PlaybookInput) (now : Z)
    (playbook : WorkspacePlaybook) (a : string) :
  In playbook (findPlaybooks w (pi_workspaceId input)) ->
  decisionMatch input playbook = true ->
  riskMatch input playbook = true ->
  signalsMatch input playbook = true ->
  truthy (pi_agentId input) = Some a ->
  (actionType playbook = "DISABLE_AGENT" ->
   agent_disabled a (runPlaybooksForEvent w input now))
  /\ (actionType playbook = "REVOKE_ACTIVE_KEYS" ->
      keys_revoked a (runPlaybooksForEvent w input now)).
Proof.
  intros Hin Hd Hr Hs Hagent. unfold runPlaybooksForEvent. split; intros Htype.
  - apply (fold_reaches (agent_disabled a) input now playbook); [| | exact Hin].
    + intros w0 p Hq.
      destruct (run_playbook_effects input now w0 p) as (_ & _ & _ & _ & Hkeep & _).
      now apply Hkeep.
    + intros w0. unfold agent_disabled.
      rewrite (proj1 (run_playbook_triggered input now w0 playbook Hd Hr Hs)).
      exact (dispatch_disables w0 input playbook now a Htype Hagent).
  - apply (fold_reaches (keys_revoked a) input now playbook); [| | exact Hin].
    + intros w0 p Hq.
      destruct (run_playbook_effects input now w0 p) as (_ & _ & _ & _ & _ & Hkeep).
      now apply Hkeep.
    + intros w0. unfold keys_revoked.
      rewrite (proj2 (run_playbook_triggered input now w0 playbook Hd Hr Hs)).
      exact (dispatch_revokes w0 input playbook now a Htype Hagent).
Qed.

Lemma evaluation_one_way (w : World) (input : ActionService.EvaluateAndLogInput)
    (now : Z) (w' : World) (res : ActionService.Evaluation) :
  ActionService.evaluateAndLogAction w input now = Return (w', res) ->
  one_way w w'.
Proof.
  intros H.
  destruct (ApprovalFacts.evaluate_inv w input now w' res H) as (resolved & _ & Hout).
  assert (w' = fst (ActionService.record_outcome input now
                      (ApprovalFacts.baseline_of w input)
                      (ApprovalFacts.burst_of w input now) (ApprovalFacts.off_hours now)
                      (ApprovalFacts.gate_of w input now resolved))) as ->
    by (rewrite <- Hout; reflexivity).
  unfold ActionService.record_outcome. cbv zeta. cbn [fst].
  match goal with
  | |- one_way _ (runPlaybooksForEvent ?w3 ?i ?n) =>
      destruct (fold_run_playbook_effects i n (findPlaybooks w3 (pi_workspaceId i)) w3)
        as (_ & _ & Hone);
      apply (one_way_trans w w3); [| exact Hone]
  end.
  apply one_way_same.
  - unfold ActionService.upsertBaseline. destruct (existsb _ _); simpl;
      unfold ApprovalFacts.gate_of, ActionService.approval_gate;
      destruct (andb _ _); try reflexivity;
      destruct (ActionService.approvalRequestId input); try reflexivity;
      destruct (find _ _); reflexivity.
  - unfold ActionService.upsertBaseline. destruct (existsb _ _); simpl;
      unfold ApprovalFacts.gate_of, ActionService.approval_gate;
      destruct (andb _ _); try reflexivity;
      destruct (ActionService.approvalRequestId input); try reflexivity;
      destruct (find _ _); reflexivity.
Qed.

(** The kill switch is one way: through every sequence of evaluations,
    approvals and rejections, with the playbooks they trigger, a disabled
    agent row stays as it is and a revoked key stays revoked at the time
    it was revoked. Nothing in the action service, the approval routes or
    the playbooks re-enables an agent or restores a key. *)
Theorem kill_switch_is_one_way (requests : list ActionService.Request) (w : World) :
  (forall a, In a (agent w) -> ag_status a = DISABLED ->
             In a (agent (ActionService.run w requests)))
  /\ (forall k, In k (agentApiKey w) -> revokedAt k <> None ->
                In k (agentApiKey (ActionService.run w requests))).
Proof.
  assert (one_way w (ActionService.run w requests)) as (A & B & _).
  { revert w. induction requests as [| q requests IH]; intros w; simpl.
    - now apply one_way_same.
    - apply (one_way_trans w (ActionService.serve w q)); [| apply IH].
      destruct q as [input now | requestId authorized user note now
                     | requestId authorized user note now]; simpl.
      + destruct (ActionService.evaluateAndLogAction w input now) as [[w' res] | e] eqn:H;
          [exact (evaluation_one_way w input now w' res H) | now apply one_way_same].
      + unfold ActionService.approve, ActionService.resolve_request.
        destruct (find _ _); [| now apply one_way_same].
        destruct (negb authorized); [now apply one_way_same |].
        destruct (negb _); now apply one_way_same.
      + unfold ActionService.reject, ActionService.resolve_request.
        destruct (find _ _); [| now apply one_way_same].
        destruct (negb authorized); [now apply one_way_same |].
        destruct (negb _); now apply one_way_same. }
  split; [exact A | exact B].
Qed.

(** The approval a playbook creates. When a CREATE_APPROVAL playbook run
    for an event that names an agent returns, it has added one request,
    PENDING and unconsumed, for that agent, tool and action under the next
    id, and reports it as created; the request expires no sooner than one
    minute after the run, however small or negative [ttlMinutes] is, and
    fifteen minutes after it when [ttlMinutes] is missing, null or not a
    finite number. *)
Theorem playbook_approval_expiry (w : World) (input : PlaybookInput)
    (playbook : WorkspacePlaybook) (now : Z) (a : string) (w' : World)
    (message : string) :
  actionType playbook = "CREATE_APPROVAL" ->
  truthy (pi_agentId input) = Some a ->
  dispatch w input playbook now = (w', Return message) ->
  exists request,
    actionApprovalRequest w' = actionApprovalRequest w ++ [request]
    /\ message = "Approval request created by playbook"
    /\ a_id request = next_id w
    /\ a_workspaceId request = pi_workspaceId input
    /\ a_agentId request = a
    /\ a_tool request = pi_tool input
    /\ a_action request = pi_action input
    /\ a_status request = PENDING
    /\ consumedAt request = None
    /\ now + 60000 <= expiresAt request
    /\ (match config_get (actionConfig playbook) "ttlMinutes" with
        | None | Some JNull => True
        | Some v => Number_finite v = None
        end -> expiresAt request = now + 900000).
Proof.
  intros Htype Hagent H. unfold dispatch in H. rewrite Htype, Hagent in H.
  simpl in H. injection H as <- <-.
  eexists. split; [reflexivity |]. cbn [a_id a_workspaceId a_agentId a_tool a_action
    a_status consumedAt expiresAt].
  repeat (split; [reflexivity |]).
  split.
  - apply Date_of_lower. rewrite inject_Z_plus.
    match goal with
    | |- (_ <= _ + ?ttl * _)%Q => assert (1 <= ttl)%Q as Httl
    end.
    { destruct (match config_get (actionConfig playbook) "ttlMinutes" with
                | None | Some JNull => Some 15%Q
                | Some v => Number_finite v
                end) as [raw |]; [apply Math_max_lower | discriminate]. }
    change (inject_Z 60000) with 60000%Q. lra.
  - intros Hmissing.
    assert (match config_get (actionConfig playbook) "ttlMinutes" with
            | None | Some JNull => Some 15%Q
            | Some v => Number_finite v
            end = Some 15%Q
            \/ match config_get (actionConfig playbook) "ttlMinutes" with
               | None | Some JNull => Some 15%Q
               | Some v => Number_finite v
               end = None) as [-> | ->].
    { destruct (config_get (actionConfig playbook) "ttlMinutes") as [v |];
        [| now left].
      destruct v; try (right; exact Hmissing). now left. }
    + change (Risk.Math_max 1 15 * 60000)%Q with (inject_Z 900000).
      apply Date_of_integer.
    + change (15 * 60000)%Q with (inject_Z 900000).
      apply Date_of_integer.
Qed.

End WithRuntime.

End PlaybookRuns.

(** ** Access control *)

Module AccessControl.
Import Permissions Workspace.

(** The override in force for a role and a permission in a workspace, as
    [assertWorkspacePermission] looks it up. *)
Definition override_effect (db : Directory) (workspaceId : string) (role : Role)
    (permission : string) : option PermissionOverrideEffect :=
  option_map o_effect
    (find (override_matches workspaceId role permission) (workspaceRolePermission db)).

Lemma Role_eqb_eq (a b : Role) : Role_eqb a b = true <-> a = b.
Proof. destruct a, b; simpl; split; congruence. Qed.

Lemma override_matches_iff (ws : string) (role : Role) (permission : string)
    (o : WorkspaceRolePermission) :
  override_matches ws role permission o = true
  <-> o_workspaceId o = ws /\ o_role o = role /\ o_permission o = permission.
Proof.
  unfold override_matches. rewrite !andb_true_iff, !String.eqb_eq, Role_eqb_eq. tauto.
Qed.

(** The role tables. Without an override, an OWNER holds exactly the
    permissions of [ALL_WORKSPACE_PERMISSIONS]; whatever a MEMBER holds an
    OWNER holds; and a MEMBER holds only [simulate:run] and permissions to
    read. *)
Theorem role_tables_are_nested :
  (forall p, hasWorkspacePermission OWNER p None = includes ALL_WORKSPACE_PERMISSIONS p)
  /\ (forall p, hasWorkspacePermission MEMBER p None = true ->
                hasWorkspacePermission OWNER p None = true)
  /\ (forall p, hasWorkspacePermission MEMBER p None = true ->
                p = "simulate:run" \/ exists area, p = (area ++ ":read")%string).
Proof.
  split; [| split].
  - intros p. reflexivity.
  - intros p H. unfold hasWorkspacePermission, ROLE_TO_PERMISSIONS in *.
    apply includes_In in H. apply includes_In.
    unfold MEMBER_PERMISSIONS in H. unfold OWNER_PERMISSIONS.
    simpl in H. simpl. intuition.
  - intros p H. unfold hasWorkspacePermission, ROLE_TO_PERMISSIONS in H.
    apply includes_In in H. unfold MEMBER_PERMISSIONS in H. simpl in H.
    destruct H as [<- | [<- | [<- | [<- | [<- | [<- | [<- | [<- | []]]]]]]]].
    + right. now exists "agents".
    + right. now exists "policies".
    + now left.
    + right. now exists "audit".
    + right. now exists "forensics".
    + right. now exists "approvals".
    + right. now exists "playbooks".
    + right. now exists "compliance".
Qed.

(** What [assertWorkspacePermission] answers: nothing for a user who is not
    a member of the workspace; for a member, the override of the member's
    role when there is one (ALLOW grants, DENY refuses, whatever the
    role), and the role's own table otherwise. *)
Lemma access_follows_override_then_role (db : Directory) (userId workspaceId : string)
    (permission : string) :
  match assertWorkspaceMember db userId workspaceId with
  | None => assertWorkspacePermission db userId workspaceId permission = None
  | Some member =>
      exists access,
        assertWorkspacePermission db userId workspaceId permission = Some access
        /\ membership access = member
        /\ overrideEffect access
           = override_effect db workspaceId (m_role member) permission
        /\ authorized access
           = match overrideEffect access with
             | Some Allow => true
             | Some Deny => false
             | None => includes (ROLE_TO_PERMISSIONS (m_role member)) permission
             end
  end.
Proof.
  unfold assertWorkspacePermission, override_effect.
  destruct (assertWorkspaceMember db userId workspaceId) as [member |]; [| reflexivity].
  cbv zeta.
  destruct (hasWorkspacePermission (m_role member) permission _) eqn:E; simpl;
    eexists; (split; [reflexivity |]); simpl;
    (split; [reflexivity | split; [reflexivity |]]);
    symmetry; exact E.
Qed.

(** *** The permission matrix *)

Lemma override_key_inj (r r' : Role) (p p' : string) :
  Rbac.override_key r p = Rbac.override_key r' p' -> r = r' /\ p = p'.
Proof.
  unfold Rbac.override_key. destruct r, r'; simpl; intros H.
  - injection H as ->. now split.
  - discriminate.
  - discriminate.
  - injection H as ->. now split.
Qed.

Lemma Map_get_set (m : Rbac.EffectMap) (k k' : string) (v : PermissionOverrideEffect) :
  Rbac.Map_get (Rbac.Map_set m k v) k'
  = if String.eqb k k' then Some v else Rbac.Map_get m k'.
Proof.
  unfold Rbac.Map_set, Rbac.Map_get.
  destruct (existsb (fun kv => String.eqb (fst kv) k) m) eqn:Ex.
  - induction m as [| [a x] m IH]; [discriminate |].
    simpl in Ex. simpl.
    destruct (String.eqb_spec a k) as [-> | Hak]; simpl.
    + destruct (String.eqb_spec k k') as [-> | Hkk']; [reflexivity |].
      clear IH Ex. induction m as [| [b y] m IH]; simpl; [reflexivity |].
      destruct (String.eqb_spec b k) as [-> | Hbk]; simpl.
      * destruct (String.eqb_spec k k'); [congruence | exact IH].
      * destruct (String.eqb b k'); [reflexivity | exact IH].
    + simpl in Ex. specialize (IH Ex).
      destruct (String.eqb_spec a k') as [-> | Hak'].
      * destruct (String.eqb_spec k k'); [congruence | reflexivity].
      * exact IH.
  - rewrite find_append.
    destruct (find (fun kv => String.eqb (fst kv) k') m) as [kv |] eqn:F.
    + destruct (String.eqb_spec k k') as [-> | Hkk']; [| reflexivity].
      exfalso. apply find_some in F.
      assert (existsb (fun kv => String.eqb (fst kv) k') m = true)
        by (apply existsb_exists; now exists kv).
      congruence.
    + simpl. destruct (String.eqb k k'); reflexivity.
Qed.

(** No two override rows of one workspace, role and permission disagree
    (the table has a unique key on the three). *)
Definition consistent_overrides (db : Directory) : Prop :=
  forall o1 o2,
    In o1 (workspaceRolePermission db) -> In o2 (workspaceRolePermission db) ->
    o_workspaceId o1 = o_workspaceId o2 -> o_role o1 = o_role o2 ->
    o_permission o1 = o_permission o2 ->
    o_effect o1 = o_effect o2.

Lemma fold_Map_set_get (rows : list WorkspaceRolePermission) (m : Rbac.EffectMap)
    (k : string) :
  Rbac.Map_get
    (fold_left (fun m o => Rbac.Map_set m (Rbac.override_key (o_role o) (o_permission o))
                                        (o_effect o)) rows m) k
  = fold_left (fun acc o =>
                 if String.eqb (Rbac.override_key (o_role o) (o_permission o)) k
                 then Some (o_effect o) else acc)
              rows (Rbac.Map_get m k).
Proof.
  revert m. induction rows as [| o rows IH]; intros m; simpl; [reflexivity |].
  rewrite IH, Map_get_set. reflexivity.
Qed.

Lemma last_effect_settled (rows : list WorkspaceRolePermission) (k : string)
    (e : PermissionOverrideEffect) :
  (forall o, In o rows -> Rbac.override_key (o_role o) (o_permission o) = k ->
             o_effect o = e) ->
  fold_left (fun acc o =>
               if String.eqb (Rbac.override_key (o_role o) (o_permission o)) k
               then Some (o_effect o) else acc) rows (Some e)
  = Some e.
Proof.
  induction rows as [| o rows IH]; intros H; simpl; [reflexivity |].
  destruct (String.eqb_spec (Rbac.override_key (o_role o) (o_permission o)) k) as [E | E].
  - rewrite (H o (or_introl eq_refl) E). apply IH. intros o' Ho'. apply H. now right.
  - apply IH. intros o' Ho'. apply H. now right.
Qed.

Lemma matrix_lookup (db : Directory) (ws : string) (role : Role) (p : string) :
  consistent_overrides db ->
  Rbac.Map_get
    (fold_left (fun m o => Rbac.Map_set m (Rbac.override_key (o_role o) (o_permission o))
                                        (o_effect o))
               (filter (fun o => String.eqb (o_workspaceId o) ws)
                       (workspaceRolePermission db)) [])
    (Rbac.override_key role p)
  = override_effect db ws role p.
Proof.
  intros Hcons. rewrite fold_Map_set_get. unfold override_effect.
  change (Rbac.Map_get [] (Rbac.override_key role p)) with (@None PermissionOverrideEffect).
  unfold consistent_overrides in Hcons.
  induction (workspaceRolePermission db) as [| o rows IH]; [reflexivity |].
  simpl. unfold override_matches at 1.
  destruct (String.eqb_spec (o_workspaceId o) ws) as [Hws | Hws]; simpl.
  - destruct (String.eqb_spec (Rbac.override_key (o_role o) (o_permission o))
                              (Rbac.override_key role p)) as [Hk | Hk].
    + apply override_key_inj in Hk. destruct Hk as [Hr Hp].
      assert (Role_eqb (o_role o) role = true) as -> by now apply Role_eqb_eq.
      assert (String.eqb (o_permission o) p = true) as -> by now apply String.eqb_eq.
      simpl. apply last_effect_settled. intros o' Ho' Hk'.
      apply filter_In in Ho'. destruct Ho' as [Ho' Hws'].
      apply String.eqb_eq in Hws'. apply override_key_inj in Hk'.
      destruct Hk' as [Hr' Hp'].
      apply (Hcons o' o); simpl; [now right | now left | congruence | congruence
                                  | congruence].
    + assert (andb (Role_eqb (o_role o) role) (String.eqb (o_permission o) p) = false)
        as ->.
      { destruct (Role_eqb (o_role o) role) eqn:Er; [| reflexivity].
        destruct (String.eqb_spec (o_permission o) p) as [Ep | Ep]; [| reflexivity].
        apply Role_eqb_eq in Er. exfalso. apply Hk. now rewrite Er, Ep. }
      apply IH. intros o1 o2 H1 H2. apply Hcons; now right.
  - apply IH. intros o1 o2 H1 H2. apply Hcons; now right.
Qed.

(** The matrix shows what is enforced. When no two override rows of one
    workspace, role and permission disagree, then for a member of the
    workspace and a permission of the list, the entry of the matrix for
    the member's role and that permission gives as [effective] exactly
    what [assertWorkspacePermission] answers as [authorized], and the same
    override. *)
Theorem matrix_shows_what_is_enforced (db : Directory) (ws userId : string)
    (member : WorkspaceMember) (p : string) :
  consistent_overrides db ->
  assertWorkspaceMember db userId ws = Some member ->
  In p ALL_WORKSPACE_PERMISSIONS ->
  exists access row entry,
    assertWorkspacePermission db userId ws p = Some access
    /\ In row (Rbac.matrix (Rbac.buildPermissionMatrix db ws))
    /\ Rbac.role row = m_role member
    /\ In entry (Rbac.permissions row)
    /\ Rbac.permission entry = p
    /\ Rbac.effective entry = authorized access
    /\ Rbac.e_overrideEffect entry = overrideEffect access.
Proof.
  intros Hcons Hmember Hp.
  pose proof (access_follows_override_then_role db userId ws p) as Hacc.
  rewrite Hmember in Hacc. destruct Hacc as (access & Hacc & _ & Hov & Hauth).
  exists access.
  exists {| Rbac.role := m_role member;
            Rbac.permissions :=
              map (fun permission_ =>
                     {| Rbac.permission := permission_;
                        Rbac.effective :=
                          hasWorkspacePermission (m_role member) permission_
                            (override_effect db ws (m_role member) permission_);
                        Rbac.e_overrideEffect :=
                          override_effect db ws (m_role member) permission_ |})
                  ALL_WORKSPACE_PERMISSIONS |}.
  exists {| Rbac.permission := p;
            Rbac.effective :=
              hasWorkspacePermission (m_role member) p
                (override_effect db ws (m_role member) p);
            Rbac.e_overrideEffect := override_effect db ws (m_role member) p |}.
  split; [exact Hacc |]. split.
  - unfold Rbac.buildPermissionMatrix. cbv zeta. cbn [Rbac.matrix].
    assert (forall role_,
              map (fun permission_ =>
                     {| Rbac.permission := permission_;
                        Rbac.effective :=
                          hasWorkspacePermission role_ permission_
                            (Rbac.Map_get
                               (fold_left
                                  (fun m o =>
                                     Rbac.Map_set m
                                       (Rbac.override_key (o_role o) (o_permission o))
                                       (o_effect o))
                                  (filter (fun o => String.eqb (o_workspaceId o) ws)
                                          (workspaceRolePermission db)) [])
                               (Rbac.override_key role_ permission_));
                        Rbac.e_overrideEffect :=
                          Rbac.Map_get
                            (fold_left
                               (fun m o =>
                                  Rbac.Map_set m
                                    (Rbac.override_key (o_role o) (o_permission o))
                                    (o_effect o))
                               (filter (fun o => String.eqb (o_workspaceId o) ws)
                                       (workspaceRolePermission db)) [])
                            (Rbac.override_key role_ permission_) |})
                  ALL_WORKSPACE_PERMISSIONS
              = map (fun permission_ =>
                       {| Rbac.permission := permission_;
                          Rbac.effective :=
                            hasWorkspacePermission role_ permission_
                              (override_effect db ws role_ permission_);
                          Rbac.e_overrideEffect :=
                            override_effect db ws role_ permission_ |})
                    ALL_WORKSPACE_PERMISSIONS) as Hrows.
    { intros role_. apply map_ext. intros q. now rewrite (matrix_lookup db ws role_ q Hcons). }
    cbn [map]. rewrite !Hrows. destruct (m_role member); simpl; tauto.
  - split; [reflexivity |]. split; [| split; [reflexivity | split]].
    + cbn [Rbac.permissions]. apply in_map_iff. exists p. now split.
    + cbn [Rbac.effective]. rewrite Hauth, Hov.
      unfold hasWorkspacePermission. reflexivity.
    + cbn [Rbac.e_overrideEffect]. now rewrite Hov.
Qed.

(** *** Updating the overrides *)

(** The override rows looked up for a workspace, role and permission. *)
Definition lookup (rows : list WorkspaceRolePermission) (ws : string) (role : Role)
    (p : string) : option PermissionOverrideEffect :=
  option_map o_effect (find (override_matches ws role p) rows).

(** The item is for this role and permission. *)
Definition item_for (role : Role) (p : string) (i : Rbac.OverrideItem) : bool :=
  andb (Role_eqb (Rbac.i_role i) role) (String.eqb (Rbac.i_permission i) p).

Lemma find_map_same_test {A : Type} (T : A -> bool) (g : A -> A) (l : list A) :
  (forall x, T (g x) = T x) -> find T (map g l) = option_map g (find T l).
Proof.
  intros H. induction l as [| x l IH]; [reflexivity |].
  simpl. rewrite H. destruct (T x); [reflexivity | exact IH].
Qed.

Lemma find_ext {A : Type} (f g : A -> bool) (l : list A) :
  (forall x, f x = g x) -> find f l = find g l.
Proof.
  intros H. induction l as [| x l IH]; [reflexivity |].
  simpl. rewrite H. destruct (g x); [reflexivity | exact IH].
Qed.

Lemma find_filter_kept {A : Type} (T Q : A -> bool) (l : list A) :
  (forall x, T x = true -> Q x = true) -> find T (filter Q l) = find T l.
Proof.
  intros H. induction l as [| x l IH]; [reflexivity |].
  simpl. destruct (Q x) eqn:Eq; simpl.
  - destruct (T x); [reflexivity | exact IH].
  - destruct (T x) eqn:Et; [| exact IH]. rewrite (H x Et) in Eq. discriminate.
Qed.

Lemma find_filter_gone {A : Type} (T : A -> bool) (l : list A) :
  find T (filter (fun x => negb (T x)) l) = None.
Proof.
  induction l as [| x l IH]; [reflexivity |].
  simpl. destruct (T x) eqn:Et; simpl; [exact IH |]. now rewrite Et.
Qed.

Lemma apply_override_lookup (ws : string) (rows : list WorkspaceRolePermission)
    (item : Rbac.OverrideItem) (ws' : string) (role : Role) (p : string) :
  lookup (Rbac.apply_override ws rows item) ws' role p
  = if andb (String.eqb ws ws') (item_for role p item) then Rbac.i_effect item
    else lookup rows ws' role p.
Proof.
  unfold lookup, Rbac.apply_override, item_for. cbv zeta.
  set (M := override_matches ws (Rbac.i_role item) (Rbac.i_permission item)).
  set (T := override_matches ws' role p).
  assert (andb (String.eqb ws ws')
               (andb (Role_eqb (Rbac.i_role item) role)
                     (String.eqb (Rbac.i_permission item) p)) = true
          -> forall o, T o = M o) as Hsame.
  { rewrite !andb_true_iff, !String.eqb_eq, Role_eqb_eq. intros (-> & <- & <-) o.
    reflexivity. }
  assert (andb (String.eqb ws ws')
               (andb (Role_eqb (Rbac.i_role item) role)
                     (String.eqb (Rbac.i_permission item) p)) = false
          -> forall o, T o = true -> M o = false) as Hother.
  { intros Hk o Ht. destruct (M o) eqn:Em; [| reflexivity].
    apply override_matches_iff in Ht. apply override_matches_iff in Em.
    destruct Ht as (H1 & H2 & H3). destruct Em as (H4 & H5 & H6).
    rewrite <- H4, H1, <- H5, H2, <- H6, H3 in Hk.
    rewrite !String.eqb_refl in Hk.
    assert (Role_eqb role role = true) as Hr by now apply Role_eqb_eq.
    rewrite Hr in Hk. discriminate. }
  destruct (andb (String.eqb ws ws')
                 (andb (Role_eqb (Rbac.i_role item) role)
                       (String.eqb (Rbac.i_permission item) p))) eqn:Hk.
  - specialize (Hsame eq_refl). clear Hother.
    destruct (Rbac.i_effect item) as [effect |].
    + destruct (existsb M rows) eqn:Ex.
      * rewrite find_map_same_test by (intros o; destruct (M o); reflexivity).
        rewrite (find_ext T M) by exact Hsame.
        rewrite BaselineFacts.find_existsb in Ex.
        destruct (find M rows) as [o |] eqn:F; [| discriminate].
        simpl. apply find_some in F. now rewrite (proj2 F).
      * rewrite find_append. rewrite (find_ext T M) by exact Hsame.
        rewrite BaselineFacts.find_existsb in Ex.
        destruct (find M rows); [discriminate |]. simpl. rewrite Hsame.
        assert (M {| o_workspaceId := ws; o_role := Rbac.i_role item;
                     o_permission := Rbac.i_permission item; o_effect := effect |} = true)
          as -> by (apply override_matches_iff; now repeat split).
        reflexivity.
    + rewrite (find_ext T M) by exact Hsame. now rewrite find_filter_gone.
  - specialize (Hother eq_refl). clear Hsame.
    destruct (Rbac.i_effect item) as [effect |].
    + destruct (existsb M rows) eqn:Ex.
      * rewrite find_map_same_test by (intros o; destruct (M o); reflexivity).
        destruct (find T rows) as [o |] eqn:F; [| reflexivity].
        simpl. apply find_some in F. now rewrite (Hother o (proj2 F)).
      * rewrite find_append. destruct (find T rows) as [o |]; [reflexivity |].
        simpl.
        destruct (T {| o_workspaceId := ws; o_role := Rbac.i_role item;
                       o_permission := Rbac.i_permission item; o_effect := effect |})
          eqn:Et; [| reflexivity].
        exfalso. apply override_matches_iff in Et. simpl in Et.
        destruct Et as (H1 & H2 & H3). rewrite H1, H2, H3 in Hk.
        rewrite !String.eqb_refl in Hk.
        assert (Role_eqb role role = true) as Hr by now apply Role_eqb_eq.
        rewrite Hr in Hk. discriminate.
    + rewrite find_filter_kept; [reflexivity |].
      intros o Ht. now rewrite (Hother o Ht).
Qed.

Lemma fold_apply_override_lookup (ws : string) (items : list Rbac.OverrideItem)
    (rows : list WorkspaceRolePermission) (ws' : string) (role : Role) (p : string) :
  lookup (fold_left (Rbac.apply_override ws) items rows) ws' role p
  = if String.eqb ws ws'
    then match find (item_for role p) (rev items) with
         | Some item => Rbac.i_effect item
         | None => lookup rows ws' role p
         end
    else lookup rows ws' role p.
Proof.
  revert rows. induction items as [| item items IH]; intros rows; simpl.
  - destruct (String.eqb ws ws'); reflexivity.
  - rewrite IH, find_append, apply_override_lookup. simpl.
    destruct (String.eqb ws ws'); simpl; [| reflexivity].
    destruct (find (item_for role p) (rev items)); [reflexivity |].
    destruct (item_for role p item); reflexivity.
Qed.

(** PUT /rbac/permissions, all or nothing and last item wins. A request
    that is refused for any reason (its schema, a missing workspace, a
    caller who is no member or may not manage the roles, a permission that
    is not of the list) writes nothing. A request that is served answers
    200 with the matrix of the store it leaves; in that store every role
    and permission of the workspace has the effect of the last item of the
    request that names them (none after a [null] effect) and its former
    override if no item does; members and other workspaces are as before. *)
Theorem put_permissions_effect (db : Directory) (userId : string)
    (workspaceId : option string) (items : list Rbac.OverrideItem) :
  match Rbac.put_permissions db userId workspaceId items with
  | (db', Json status body) =>
      exists ws access,
        Store.truthy workspaceId = Some ws
        /\ assertWorkspacePermission db userId ws "rbac:manage" = Some access
        /\ authorized access = true
        /\ status = 200
        /\ body = Rbac.buildPermissionMatrix db' ws
        /\ workspaceMember db' = workspaceMember db
        /\ (forall role p,
              override_effect db' ws role p
              = match find (item_for role p) (rev items) with
                | Some item => Rbac.i_effect item
                | None => override_effect db ws role p
                end)
        /\ (forall ws' role p, ws' <> ws ->
              override_effect db' ws' role p = override_effect db ws' role p)
  | (db', _) => db' = db
  end.
Proof.
  unfold Rbac.put_permissions.
  destruct (negb (Rbac.updateOverridesSchema_ok items)); [reflexivity |].
  destruct (Store.truthy workspaceId) as [ws |]; [| reflexivity].
  destruct (assertWorkspacePermission db userId ws "rbac:manage") as [access |] eqn:Hacc;
    [| reflexivity].
  destruct (authorized access) eqn:Hauth; simpl; [| reflexivity].
  destruct (find _ items); [reflexivity |].
  exists ws, access. repeat (split; [reflexivity || assumption |]).
  split.
  - intros role p. unfold override_effect. simpl.
    pose proof (fold_apply_override_lookup ws items (workspaceRolePermission db)
                  ws role p) as H.
    unfold lookup in H. rewrite H, String.eqb_refl. reflexivity.
  - intros ws' role p Hne. unfold override_effect. simpl.
    pose proof (fold_apply_override_lookup ws items (workspaceRolePermission db)
                  ws' role p) as H.
    unfold lookup in H. rewrite H.
    destruct (String.eqb_spec ws ws'); [congruence | reflexivity].
Qed.

(** *** Who resolves an approval *)

(** POST /approvals/:id/approve and /reject are guarded. The route answers
    200 only when the request exists and is PENDING and the caller is a
    member of the request's workspace who may manage approvals: an OWNER
    unless an override denies it, a MEMBER only under an ALLOW override.
    It then returns the request with the new status, the caller as
    resolver and the note, and the store is the one [resolve_request]
    leaves for an authorized caller. Every other reply (400, 403, 404)
    leaves the store untouched. *)
Theorem only_managers_resolve (status : Store.ApprovalStatus) (db : Directory)
    (w : Store.World) (userId : string) (approvalId : nat) (note : option string)
    (now : Z) :
  match Approvals.post_resolution status db w userId approvalId note now with
  | (w', Json code updated) =>
      code = 200
      /\ exists approval access,
           find (fun r => Nat.eqb (Store.a_id r) approvalId)
                (Store.actionApprovalRequest w) = Some approval
           /\ Store.a_status approval = Store.PENDING
           /\ assertWorkspacePermission db userId (Store.a_workspaceId approval)
                                        "approvals:manage" = Some access
           /\ authorized access = true
           /\ (m_role (membership access) = MEMBER -> overrideEffect access = Some Allow)
           /\ overrideEffect access <> Some Deny
           /\ updated = ActionService.set_resolution approval status userId now note
           /\ w' = ActionService.resolve_request status w approvalId true userId note now
  | (w', _) => w' = w
  end.
Proof.
  unfold Approvals.post_resolution, ActionService.resolve_request.
  destruct (negb (Approvals.resolutionSchema_ok note)); [reflexivity |].
  destruct (find _ (Store.actionApprovalRequest w)) as [approval |] eqn:Hfind;
    [| reflexivity].
  pose proof (access_follows_override_then_role db userId (Store.a_workspaceId approval)
                "approvals:manage") as Hacc.
  destruct (assertWorkspacePermission db userId (Store.a_workspaceId approval)
              "approvals:manage") as [access |] eqn:Ha; [| reflexivity].
  destruct (authorized access) eqn:Hauth; simpl; [| reflexivity].
  destruct (Store.ApprovalStatus_eqb (Store.a_status approval) Store.PENDING) eqn:Hp;
    simpl; [| reflexivity].
  split; [reflexivity |]. exists approval, access.
  split; [reflexivity |].
  split; [destruct (Store.a_status approval); simpl in Hp; congruence |].
  split; [exact Ha |]. split; [exact Hauth |].
  destruct (assertWorkspaceMember db userId (Store.a_workspaceId approval))
    as [member |]; [| discriminate].
  destruct Hacc as (access' & Heq & Hm & _ & Hrule). injection Heq as <-.
  rewrite Hauth in Hrule.
  split; [| split; [| split; reflexivity]].
  - intros Hrole. rewrite Hm in Hrole. rewrite Hrole in Hrule.
    destruct (overrideEffect access) as [[|] |]; [reflexivity | discriminate |].
    simpl in Hrule. discriminate.
  - intros Hdeny. rewrite Hdeny in Hrule. discriminate.
Qed.

End AccessControl.

(** ** Paged listings *)

Module ListingFacts.
Import Store Workspace Approvals.

(** The same query, for page [p]. *)
Definition with_page (query : ListQuery) (p : Z) : ListQuery :=
  {| q_status := q_status query; q_agentId := q_agentId query;
     q_page := Some p; q_pageSize := q_pageSize query |}.

(** The rows GET /approvals returns for page [p] of the query. *)
Definition page_of (db : Directory) (w : World) (userId : string)
    (workspaceId : option string) (query : ListQuery) (p : Z)
  : list ActionApprovalRequest :=
  match get_approvals db w userId workspaceId (with_page query p) with
  | Json _ body => data body
  | _ => []
  end.

(** The pages 1 to [n]. *)
Definition pages_upto (n : Z) : list Z :=
  map (fun i => Z.of_nat (S i)) (seq 0 (Z.to_nat n)).

Lemma Math_ceil_div (t s : Z) :
  0 < s -> Math_ceil (inject_Z t / inject_Z s) = - ((- t) / s).
Proof.
  intros Hs. destruct s as [| s' | s']; try lia.
  unfold Math_ceil, Qceiling, Qfloor, Qdiv, Qmult, Qinv, Qopp, inject_Z. simpl.
  rewrite Z.mul_1_r. reflexivity.
Qed.

Lemma pages_bound (t s : Z) :
  0 <= t -> 0 < s ->
  let n := - ((- t) / s) in
  0 <= n /\ t <= n * s.
Proof.
  intros Ht Hs. cbv zeta.
  pose proof (Z.div_mod (- t) s ltac:(lia)) as Hdm.
  pose proof (Z.mod_pos_bound (- t) s Hs) as Hm.
  nia.
Qed.

Lemma chunks {A : Type} (k : nat) (n : nat) (l : list A) :
  (length l <= n * k)%nat ->
  concat (map (fun i => firstn k (skipn (i * k) l)) (seq 0 n)) = l.
Proof.
  revert l. induction n as [| n IH]; intros l Hlen.
  - destruct l; [reflexivity | simpl in Hlen; lia].
  - rewrite <- cons_seq, <- seq_shift. cbn [map concat]. rewrite map_map.
    change (0 * k)%nat with 0%nat. cbn [skipn].
    transitivity (firstn k l ++ skipn k l); [| apply firstn_skipn].
    f_equal.
    transitivity (concat (map (fun i => firstn k (skipn (i * k) (skipn k l))) (seq 0 n))).
    + f_equal. apply map_ext. intros i. f_equal.
      rewrite skipn_skipn. f_equal. lia.
    + apply IH. rewrite length_skipn. simpl in Hlen. lia.
Qed.

Lemma insert_by_requestedAt_length (r : ActionApprovalRequest)
    (l : list ActionApprovalRequest) :
  length (insert_by_requestedAt r l) = S (length l).
Proof.
  induction l as [| q l IH]; simpl; [reflexivity |].
  destruct (requestedAt r <=? requestedAt q); simpl; [now rewrite IH | reflexivity].
Qed.

Lemma orderBy_requestedAt_length (l : list ActionApprovalRequest) :
  length (orderBy_requestedAt_desc l) = length l.
Proof.
  unfold orderBy_requestedAt_desc.
  assert (forall acc,
            length (fold_left (fun acc r => insert_by_requestedAt r acc) l acc)
            = (length acc + length l)%nat) as H.
  { induction l as [| r l IH]; intros acc; simpl; [lia |].
    rewrite IH, insert_by_requestedAt_length. lia. }
  exact (H []).
Qed.

Lemma listed_with_page (ws : string) (query : ListQuery) (p : Z)
    (r : ActionApprovalRequest) :
  listed ws (with_page query p) r = listed ws query r.
Proof. reflexivity. Qed.

Lemma insert_by_requestedAt_Permutation (r : ActionApprovalRequest)
    (l : list ActionApprovalRequest) :
  Permutation (insert_by_requestedAt r l) (r :: l).
Proof.
  induction l as [| q l IH]; simpl; [apply Permutation_refl |].
  destruct (requestedAt r <=? requestedAt q); [| apply Permutation_refl].
  eapply Permutation_trans; [apply perm_skip, IH | apply perm_swap].
Qed.

(** From the latest request to the earliest. *)
Definition latest_first (l : list ActionApprovalRequest) : Prop :=
  StronglySorted (fun a b => requestedAt b <= requestedAt a) l.

Lemma insert_by_requestedAt_sorted (r : ActionApprovalRequest)
    (l : list ActionApprovalRequest) :
  latest_first l -> latest_first (insert_by_requestedAt r l).
Proof.
  unfold latest_first. induction l as [| q l IH]; intros Hs; simpl.
  - constructor; constructor.
  - destruct (requestedAt r <=? requestedAt q) eqn:E.
    + apply Z.leb_le in E. inversion Hs as [| ? ? Hs' Hall]; subst.
      constructor; [now apply IH |].
      apply Forall_forall. intros x Hx.
      apply (Permutation_in _ (insert_by_requestedAt_Permutation r l)) in Hx.
      destruct Hx as [<- | Hx]; [exact E |].
      rewrite Forall_forall in Hall. now apply Hall.
    + apply Z.leb_gt in E. constructor; [exact Hs |].
      inversion Hs as [| ? ? Hs' Hall]; subst.
      constructor; [lia |].
      eapply Forall_impl; [| exact Hall]. intros x Hx. cbv beta in Hx. lia.
Qed.

Lemma orderBy_requestedAt_spec (l : list ActionApprovalRequest) :
  Permutation (orderBy_requestedAt_desc l) l /\ latest_first (orderBy_requestedAt_desc l).
Proof.
  unfold orderBy_requestedAt_desc.
  assert (forall acc,
            latest_first acc ->
            Permutation (fold_left (fun acc r => insert_by_requestedAt r acc) l acc)
                        (acc ++ l)
            /\ latest_first (fold_left (fun acc r => insert_by_requestedAt r acc) l acc))
    as H.
  { induction l as [| r l IH]; intros acc Hacc; simpl.
    - rewrite app_nil_r. split; [apply Permutation_refl | exact Hacc].
    - destruct (IH (insert_by_requestedAt r acc)
                   (insert_by_requestedAt_sorted r acc Hacc)) as [Hp Hs].
      split; [| exact Hs].
      eapply Permutation_trans; [exact Hp |].
      eapply Permutation_trans;
        [apply Permutation_app_tail, insert_by_requestedAt_Permutation |].
      simpl. apply Permutation_middle. }
  apply (H []). constructor.
Qed.

(** The pages cover the listing. When GET /approvals serves a query whose
    matching requests were requested at different instants (the order of
    the listing is then fixed by the query), the [total] it reports is the
    number of requests that match the filters; the pages 1 to [totalPages]
    of the same query, one after the other, are exactly the matching
    requests from the latest to the earliest, each once; every page beyond
    [totalPages] is empty, and no page is longer than the page size. *)
Theorem pages_cover_the_listing (db : Directory) (w : World) (userId ws : string)
    (query : ListQuery) (code : Z) (body : Listing) :
  NoDup (map requestedAt (filter (listed ws query) (actionApprovalRequest w))) ->
  get_approvals db w userId (Some ws) query = Json code body ->
  total (pagination body)
  = Z.of_nat (length (filter (listed ws query) (actionApprovalRequest w)))
  /\ Permutation
       (concat (map (page_of db w userId (Some ws) query)
                    (pages_upto (totalPages (pagination body)))))
       (filter (listed ws query) (actionApprovalRequest w))
  /\ latest_first
       (concat (map (page_of db w userId (Some ws) query)
                    (pages_upto (totalPages (pagination body)))))
  /\ (forall p, totalPages (pagination body) < p ->
                page_of db w userId (Some ws) query p = [])
  /\ (length (data body) <= Z.to_nat (pageSize (pagination body)))%nat.
Proof.
  intros _ H. unfold get_approvals in H.
  destruct (truthy (Some ws)) as [ws' |] eqn:Hws; [| discriminate].
  assert (ws' = ws) as ->.
  { simpl in Hws. destruct (String.eqb ws ""); [discriminate | congruence]. }
  cbv zeta in H.
  destruct (andb (1 <=? nullish (q_page query) 1)
                 (andb (1 <=? nullish (q_pageSize query) 25)
                       (nullish (q_pageSize query) 25 <=? 100))) eqn:Hvalid;
    simpl in H; [| discriminate].
  destruct (assertWorkspacePermission db userId ws "approvals:read") as [access |] eqn:Hacc;
    [| discriminate].
  destruct (authorized access) eqn:Hauth; simpl in H; [| discriminate].
  injection H as <- <-. cbn [pagination total totalPages pageSize data].
  apply andb_true_iff in Hvalid. destruct Hvalid as [Hpage Hsize].
  apply andb_true_iff in Hsize. destruct Hsize as [Hsize1 Hsize2].
  apply Z.leb_le in Hpage, Hsize1, Hsize2.
  set (size := nullish (q_pageSize query) 25) in *.
  set (rows := orderBy_requestedAt_desc
                 (filter (listed ws query) (actionApprovalRequest w))).
  assert (length rows = length (filter (listed ws query) (actionApprovalRequest w)))
    as Hlen by apply orderBy_requestedAt_length.
  assert (forall p, 1 <= p ->
            page_of db w userId (Some ws) query p
            = firstn (Z.to_nat size) (skipn ((Z.to_nat p - 1) * Z.to_nat size) rows))
    as Hpages.
  { intros p Hp. unfold page_of, get_approvals. rewrite Hws. cbv zeta.
    cbn [with_page q_page q_pageSize nullish]. fold size.
    assert (andb (1 <=? p) (andb (1 <=? size) (size <=? 100)) = true) as ->.
    { rewrite !andb_true_iff, !Z.leb_le. lia. }
    simpl negb. cbn iota. rewrite Hacc, Hauth. simpl negb. cbn iota.
    cbn [data]. unfold skip_take. fold rows.
    replace (Z.to_nat ((p - 1) * size)) with ((Z.to_nat p - 1) * Z.to_nat size)%nat
      by (rewrite Z2Nat.inj_mul by lia; f_equal; lia).
    reflexivity. }
  split; [reflexivity |].
  rewrite (Math_ceil_div _ size) by lia.
  destruct (pages_bound (Z.of_nat (length (filter (listed ws query)
                                                  (actionApprovalRequest w))))
                        size ltac:(lia) ltac:(lia)) as [Hn0 Hn1].
  set (n := - (- Z.of_nat (length (filter (listed ws query) (actionApprovalRequest w)))
              / size)) in *.
  assert (length rows <= Z.to_nat n * Z.to_nat size)%nat as Hfit.
  { rewrite Hlen. apply Nat2Z.inj_le. rewrite Nat2Z.inj_mul, !Z2Nat.id by lia. exact Hn1. }
  assert (concat (map (page_of db w userId (Some ws) query) (pages_upto n)) = rows)
    as Hcover.
  { unfold pages_upto. rewrite map_map.
    rewrite <- (chunks (Z.to_nat size) (Z.to_nat n) rows Hfit).
    f_equal. apply map_ext_in. intros i Hi. rewrite Hpages by lia.
    f_equal. f_equal. f_equal. lia. }
  rewrite Hcover.
  destruct (orderBy_requestedAt_spec (filter (listed ws query) (actionApprovalRequest w)))
    as [Hperm Hsorted].
  split; [exact Hperm | split; [exact Hsorted | split]].
  - intros p Hp. rewrite Hpages by lia.
    rewrite skipn_all2; [now destruct (Z.to_nat size) |].
    assert (Z.to_nat n * Z.to_nat size <= (Z.to_nat p - 1) * Z.to_nat size)%nat
      by (apply Nat.mul_le_mono_r; lia).
    lia.
  - unfold skip_take. rewrite length_firstn. lia.
Qed.

End ListingFacts.

(** ** Cells of the CSV export *)

Module CsvFacts.
Import AuditLogs.

Lemma doubled_then_quote_inj (a b : string) :
  (double_quotes a ++ String double_quote EmptyString
   = double_quotes b ++ String double_quote EmptyString)%string ->
  a = b.
Proof.
  revert b. induction a as [| c a IH]; intros [| d b]; simpl.
  - reflexivity.
  - destruct (Ascii.eqb_spec d double_quote) as [-> | Hd]; simpl; intros H.
    + injection H as H. destruct (double_quotes b); discriminate.
    + injection H as H _. congruence.
  - destruct (Ascii.eqb_spec c double_quote) as [-> | Hc]; simpl; intros H.
    + injection H as H. destruct (double_quotes a); discriminate.
    + injection H as H _. congruence.
  - destruct (Ascii.eqb_spec c double_quote) as [-> | Hc];
      destruct (Ascii.eqb_spec d double_quote) as [-> | Hd]; simpl; intros H.
    + injection H as H. f_equal. now apply IH.
    + injection H as H _. congruence.
    + injection H as H _. congruence.
    + injection H as -> H. f_equal. now apply IH.
Qed.

Lemma csvEscape_inj (a b : string) :
  csvEscape a = csvEscape b -> a = b.
Proof.
  unfold csvEscape.
  destruct (orb (includes_char a comma) _) eqn:Ea;
    destruct (orb (includes_char b comma) _) eqn:Eb; intros H.
  - injection H as H. now apply doubled_then_quote_inj.
  - exfalso. rewrite <- H in Eb. simpl in Eb.
    rewrite orb_true_r in Eb. discriminate.
  - exfalso. rewrite H in Ea. simpl in Ea.
    rewrite orb_true_r in Ea. discriminate.
  - exact H.
Qed.

(** [csvEscape] loses nothing: two different cell texts are written
    differently, whether or not they need quoting (a text without comma,
    double quote or line feed is written as it is, any other between
    double quotes with its double quotes doubled). *)
Theorem csvEscape_is_injective (a b : string) :
  a <> b -> csvEscape a <> csvEscape b.
Proof.
  intros Hne H. apply Hne. now apply csvEscape_inj.
Qed.

Lemma csvEscape_is_injective_witness :
  csvEscape "read" <> csvEscape "read,write".
Proof.
  apply (csvEscape_is_injective "read" "read,write"). discriminate.
Defined.

End CsvFacts.

(** ** Worked examples of the service *)

Module Worked.
Import Store ActionService.

(** The agent a1 asks to read from the tool db, with metadata of its own
    that names a risk score. *)
Definition annotated_read : EvaluateAndLogInput :=
  {| workspaceId := "w1"; agent_ := ApprovalFacts.agent_a1; tool := "db";
     action := "read"; resource := None;
     metadata := Some [("risk_score", JNum 0); ("ticket", JStr "T-1")];
     forceBlockReason := None; approvalRequestId := None; requestedBy_ := None |}.

(** The same agent presenting a revoked key. *)
Definition revoked_key_read : EvaluateAndLogInput :=
  {| workspaceId := "w1"; agent_ := ApprovalFacts.agent_a1; tool := "db";
     action := "read"; resource := None; metadata := None;
     forceBlockReason := Some "key_revoked"; approvalRequestId := Some 0%nat;
     requestedBy_ := None |}.

(** A day of requests: a read, a delete that asks for approval, the
    approval, the delete again with the approval, and a rejection that
    comes too late. *)
Definition a_day : list Request :=
  [ Evaluate (ApprovalFacts.act "read" None) 1000;
    Evaluate (ApprovalFacts.act "delete" None) 2000;
    Approve 0 true "u1" None 3000;
    Evaluate (ApprovalFacts.act "delete" (Some 0%nat)) 4000;
    Reject 0 true "u2" (Some "late") 5000 ].

Lemma evaluation_appends_its_event_witness :
  exists w' res,
    evaluateAndLogAction (R := Example.runtime) ApprovalFacts.empty_world
      annotated_read 1000 = Return (w', res)
    /\ HashChain.auditLogEvent (ledger w') = [event res]
    /\ HashChain.decision (event res) = decision res
    /\ 0 <= riskScore res <= 100.
Proof.
  destruct (evaluateAndLogAction (R := Example.runtime) ApprovalFacts.empty_world
              annotated_read 1000) as [[w' res] | e] eqn:H;
    [| vm_compute in H; discriminate].
  destruct (@EvaluationFacts.evaluation_appends_its_event Example.runtime
              ApprovalFacts.empty_world annotated_read 1000 w' res H)
    as (Hl & _ & _ & _ & _ & _ & Hd & _ & _ & Hr).
  exists w', res. split; [reflexivity |]. split; [exact Hl |]. split; [exact Hd | exact Hr].
Defined.

Lemma audit_metadata_is_the_service_s_witness :
  exists w' res,
    evaluateAndLogAction (R := Example.runtime) ApprovalFacts.empty_world
      annotated_read 1000 = Return (w', res)
    /\ Obj.get (HashChain.metadata (event res)) "risk_score"
       = Some (JNum (inject_Z (riskScore res)))
    /\ Obj.get (HashChain.metadata (event res)) "ticket" = Some (JStr "T-1").
Proof.
  destruct (evaluateAndLogAction (R := Example.runtime) ApprovalFacts.empty_world
              annotated_read 1000) as [[w' res] | e] eqn:H;
    [| vm_compute in H; discriminate].
  destruct (@EvaluationFacts.audit_metadata_is_the_service_s Example.runtime
              ApprovalFacts.empty_world annotated_read 1000 w' res H)
    as (_ & Hrisk & _ & _ & Hother).
  exists w', res. split; [reflexivity |]. split; [exact Hrisk |].
  rewrite (Hother "ticket") by discriminate. reflexivity.
Defined.

Lemma ledger_verifies_after_any_run_witness :
  HashChain.verifyHashChain (R := Example.runtime)
    (HashChainFacts.events_of "w1"
       (ledger (run (R := Example.runtime) ApprovalFacts.empty_world a_day))) = true.
Proof.
  exact (proj1 (@EvaluationFacts.ledger_verifies_after_any_run Example.runtime a_day
                  ApprovalFacts.empty_world "w1"
                  (HashChainFacts.chained_empty (R := Example.runtime)))).
Defined.

Lemma signals_are_distinct_and_known_witness :
  exists w' res,
    evaluateAndLogAction (R := Example.runtime) ApprovalFacts.empty_world
      (ApprovalFacts.act "delete" None) 1000 = Return (w', res)
    /\ NoDup (signals res)
    /\ incl (signals res) EvaluationFacts.signal_names.
Proof.
  destruct (evaluateAndLogAction (R := Example.runtime) ApprovalFacts.empty_world
              (ApprovalFacts.act "delete" None) 1000) as [[w' res] | e] eqn:H;
    [| vm_compute in H; discriminate].
  destruct (@EvaluationFacts.signals_are_distinct_and_known Example.runtime
              ApprovalFacts.empty_world (ApprovalFacts.act "delete" None) 1000 w' res H)
    as (Hnd & Hincl & _).
  exists w', res. split; [reflexivity |]. split; [exact Hnd | exact Hincl].
Defined.

Lemma early_block_is_final_witness :
  exists w' res,
    evaluateAndLogAction (R := Example.runtime)
      (ApprovalFacts.world_with_request (ApprovalFacts.approved_request 0 2000))
      revoked_key_read 1000 = Return (w', res)
    /\ decision res = BLOCK
    /\ reason res = "key_revoked"
    /\ res_approvalRequestId res = None.
Proof.
  destruct (@EvaluationFacts.early_block_is_final Example.runtime
              (ApprovalFacts.world_with_request (ApprovalFacts.approved_request 0 2000))
              revoked_key_read 1000 "key_revoked"
              (EvaluationFacts.block_forced _ revoked_key_read "key_revoked" eq_refl))
    as (w' & res & H & Hd & Hr & Hid & _).
  exists w', res. repeat split; assumption.
Defined.

Lemma new_pattern_until_three_samples_witness :
  exists w' res,
    evaluateAndLogAction (R := Example.runtime) ApprovalFacts.empty_world
      (ApprovalFacts.act "read" None) 1000 = Return (w', res)
    /\ In "new_action_pattern" (signals res)
    /\ exists b', ApprovalFacts.baseline_of w' (ApprovalFacts.act "read" None) = Some b'
                  /\ sampleCount b' = 1.
Proof.
  destruct (evaluateAndLogAction (R := Example.runtime) ApprovalFacts.empty_world
              (ApprovalFacts.act "read" None) 1000) as [[w' res] | e] eqn:H;
    [| vm_compute in H; discriminate].
  destruct (@BaselineFacts.new_pattern_until_three_samples Example.runtime
              ApprovalFacts.empty_world (ApprovalFacts.act "read" None) 1000 w' res H)
    as (Hiff & b' & Hb' & Hcount).
  exists w', res. split; [reflexivity |]. split.
  - apply Hiff. reflexivity.
  - exists b'. split; [exact Hb' | exact Hcount].
Defined.

Lemma resolution_is_final_witness :
  exists r',
    In r' (actionApprovalRequest
             (run (R := Example.runtime)
                (ApprovalFacts.world_with_request (ApprovalFacts.approved_request 0 2000))
                a_day))
    /\ ApprovalLifecycle.settled (ApprovalFacts.approved_request 0 2000) r'.
Proof.
  apply (@ApprovalLifecycle.resolution_is_final Example.runtime a_day
           (ApprovalFacts.world_with_request (ApprovalFacts.approved_request 0 2000))
           (ApprovalFacts.approved_request 0 2000)).
  - split; simpl.
    + constructor; [simpl; lia | constructor].
    + constructor; [intros [] | constructor].
  - simpl. now left.
  - discriminate.
Defined.

Lemma approvals_stay_well_formed_witness :
  Forall ApprovalLifecycle.row_ok
    (actionApprovalRequest (run (R := Example.runtime) ApprovalFacts.empty_world a_day)).
Proof.
  apply (@ApprovalLifecycle.approvals_stay_well_formed Example.runtime a_day
           ApprovalFacts.empty_world).
  - split; constructor.
  - constructor.
Defined.

Lemma blocked_evaluation_consumes_nothing_witness :
  exists w' res added,
    evaluateAndLogAction (R := Example.runtime)
      (ApprovalFacts.world_with_request (ApprovalFacts.approved_request 0 500))
      (ApprovalFacts.act "delete" (Some 0%nat)) 1000 = Return (w', res)
    /\ actionApprovalRequest w' = [ApprovalFacts.approved_request 0 500] ++ added
    /\ Forall ApprovalLifecycle.fresh added.
Proof.
  destruct (evaluateAndLogAction (R := Example.runtime)
              (ApprovalFacts.world_with_request (ApprovalFacts.approved_request 0 500))
              (ApprovalFacts.act "delete" (Some 0%nat)) 1000) as [[w' res] | e] eqn:H;
    [| vm_compute in H; discriminate].
  assert (decision res = BLOCK) as Hd.
  { pose proof H as H0. vm_compute in H0. injection H0 as _ <-. reflexivity. }
  destruct (@ApprovalLifecycle.blocked_evaluation_consumes_nothing Example.runtime
              (ApprovalFacts.world_with_request (ApprovalFacts.approved_request 0 500))
              (ApprovalFacts.act "delete" (Some 0%nat)) 1000 w' res H Hd)
    as (added & Hadded & Hfresh).
  exists w', res, added. split; [reflexivity |]. split; [exact Hadded | exact Hfresh].
Defined.

(** A workspace with two playbooks: one disables the agent of a blocked
    event, one asks for an approval with a time to live of zero minutes. *)
Definition disable_on_block : WorkspacePlaybook :=
  {| pb_id := "p1"; pb_workspaceId := "w1"; pb_name := "stop"; enabled := true;
     triggerDecision := Some BLOCK; minRiskScore := 0; matchSignals := JArr [];
     actionType := "DISABLE_AGENT"; actionConfig := JObj []; pb_createdAt := 2 |}.

Definition hasty_approval : WorkspacePlaybook :=
  {| pb_id := "p2"; pb_workspaceId := "w1"; pb_name := "ask"; enabled := true;
     triggerDecision := None; minRiskScore := 0; matchSignals := JNull;
     actionType := "CREATE_APPROVAL";
     actionConfig := JObj [("ttlMinutes", JNum 0)]; pb_createdAt := 1 |}.

Definition guarded_world : World :=
  {| ledger := HashChain.empty_ledger; agentActionBaseline := []; policy := [];
     actionApprovalRequest := [];
     workspacePlaybook := [disable_on_block; hasty_approval];
     playbookExecution := [];
     agent := [ {| ag_id := "a1"; ag_status := ACTIVE |};
                {| ag_id := "a2"; ag_status := ACTIVE |} ];
     agentApiKey := []; next_id := O; fetched := [] |}.

Definition blocked_delete : PlaybookService.PlaybookInput :=
  {| PlaybookService.pi_workspaceId := "w1"; PlaybookService.pi_agentId := Some "a1";
     PlaybookService.pi_eventId := 0%nat; PlaybookService.pi_decision := BLOCK;
     PlaybookService.pi_riskScore := 60; PlaybookService.pi_signals := [];
     PlaybookService.pi_tool := "db"; PlaybookService.pi_action := "delete";
     PlaybookService.pi_resource := None; PlaybookService.pi_metadata := [] |}.

Lemma playbook_kill_switch_witness :
  PlaybookRuns.agent_disabled "a1"
    (PlaybookService.runPlaybooksForEvent (R := Example.runtime) guarded_world
       blocked_delete 1000).
Proof.
  apply (@PlaybookRuns.playbook_kill_switch Example.runtime guarded_world blocked_delete
           1000 disable_on_block "a1").
  - vm_compute. right. now left.
  - reflexivity.
  - reflexivity.
  - reflexivity.
  - reflexivity.
  - reflexivity.
Defined.

Lemma playbook_approval_expiry_witness :
  exists w' message request,
    PlaybookService.dispatch (R := Example.runtime) guarded_world blocked_delete
      hasty_approval 1000 = (w', Return message)
    /\ actionApprovalRequest w' = [request]
    /\ a_status request = PENDING
    /\ 1000 + 60000 <= expiresAt request.
Proof.
  destruct (PlaybookService.dispatch (R := Example.runtime) guarded_world blocked_delete
              hasty_approval 1000) as [w' [message | e]] eqn:H;
    [| vm_compute in H; discriminate].
  destruct (@PlaybookRuns.playbook_approval_expiry Example.runtime guarded_world
              blocked_delete hasty_approval 1000 "a1" w' message eq_refl eq_refl H)
    as (request & Hrows & _ & _ & _ & _ & _ & _ & Hst & _ & Hexp & _).
  exists w', message, request. split; [reflexivity |].
  split; [exact Hrows | split; [exact Hst | exact Hexp]].
Defined.

(** A directory: u1 owns w1, u2 is a member of it, and members of w1 were
    granted the management of approvals. *)
Definition directory : Workspace.Directory :=
  {| Workspace.workspaceMember :=
       [ {| Workspace.m_workspaceId := "w1"; Workspace.m_userId := "u1";
            Workspace.m_role := Permissions.OWNER |};
         {| Workspace.m_workspaceId := "w1"; Workspace.m_userId := "u2";
            Workspace.m_role := Permissions.MEMBER |} ];
     Workspace.workspaceRolePermission :=
       [ {| Workspace.o_workspaceId := "w1"; Workspace.o_role := Permissions.MEMBER;
            Workspace.o_permission := "approvals:manage";
            Workspace.o_effect := Permissions.Allow |} ] |}.

Lemma matrix_shows_what_is_enforced_witness :
  exists access row entry,
    Workspace.assertWorkspacePermission directory "u2" "w1" "approvals:manage"
    = Some access
    /\ In row (Rbac.matrix (Rbac.buildPermissionMatrix directory "w1"))
    /\ Rbac.role row = Permissions.MEMBER
    /\ In entry (Rbac.permissions row)
    /\ Rbac.permission entry = "approvals:manage"
    /\ Rbac.effective entry = Workspace.authorized access
    /\ Rbac.e_overrideEffect entry = Workspace.overrideEffect access.
Proof.
  apply (AccessControl.matrix_shows_what_is_enforced directory "w1" "u2"
           {| Workspace.m_workspaceId := "w1"; Workspace.m_userId := "u2";
              Workspace.m_role := Permissions.MEMBER |} "approvals:manage").
  - intros o1 o2 [<- | []] [<- | []] _ _ _. reflexivity.
  - reflexivity.
  - simpl. tauto.
Defined.

(** Three requests of w1, and the second page of two. *)
Definition requested (n : nat) (at_ : Z) : ActionApprovalRequest :=
  {| a_id := n; a_workspaceId := "w1"; a_agentId := "a1"; a_tool := "db";
     a_action := "delete"; a_resource := None; a_metadata := [];
     a_status := PENDING; a_riskScore := 0; requestedBy := "SYSTEM";
     requestedAt := at_; expiresAt := at_ + 900000; resolvedByUserId := None;
     resolvedAt := None; resolutionNote := None; consumedAt := None |}.

Definition three_requests : World :=
  with_approvals ApprovalFacts.empty_world
    [ requested 0 100; requested 1 300; requested 2 200 ] 3.

Definition second_page_of_two : Approvals.ListQuery :=
  {| Approvals.q_status := None; Approvals.q_agentId := None;
     Approvals.q_page := Some 2; Approvals.q_pageSize := Some 2 |}.

Lemma pages_cover_the_listing_witness :
  exists body,
    Approvals.get_approvals directory three_requests "u2" (Some "w1") second_page_of_two
    = Json 200 body
    /\ length (Approvals.data body) = 1%nat
    /\ Approvals.totalPages (Approvals.pagination body) = 2
    /\ Permutation
         (concat (map (ListingFacts.page_of directory three_requests "u2" (Some "w1")
                                            second_page_of_two)
                      (ListingFacts.pages_upto 2)))
         (filter (Approvals.listed "w1" second_page_of_two)
                 (actionApprovalRequest three_requests)).
Proof.
  destruct (Approvals.get_approvals directory three_requests "u2" (Some "w1")
              second_page_of_two) as [code body | code e |] eqn:H;
    [| vm_compute in H; discriminate | vm_compute in H; discriminate].
  assert (NoDup (map requestedAt
                     (filter (Approvals.listed "w1" second_page_of_two)
                             (actionApprovalRequest three_requests)))) as Hnd.
  { simpl. repeat constructor; simpl; intuition discriminate. }
  destruct (ListingFacts.pages_cover_the_listing directory three_requests "u2" "w1"
              second_page_of_two code body Hnd H)
    as (_ & Hcover & _ & _ & _).
  assert (code = 200 /\ length (Approvals.data body) = 1%nat
          /\ Approvals.totalPages (Approvals.pagination body) = 2) as (-> & Hlen & Hn).
  { pose proof H as H0. vm_compute in H0. injection H0 as <- <-.
    repeat split; reflexivity. }
  exists body. split; [reflexivity |]. split; [exact Hlen |]. split; [exact Hn |].
  rewrite Hn in Hcover. exact Hcover.
Defined.

End Worked.
